(** * distributed-llama checkpoint converter: a shallow embedding of
      [converter/converter.py] and the properties of its quantizer, layout
      planner, shard merger and write scheduler. *)

From Stdlib Require Import ZArith QArith Qround Qabs Lqa List Bool Lia SpecFloat Ascii String.
From stdpp Require Import gmap strings list fin_maps.

Local Open Scope Z_scope.

(** ** Python exceptions and fallible results *)

(** The exceptions the converter can raise.  [Exception] carries the message
    of the three explicit [raise Exception(...)] statements. *)
Inductive error :=
| AssertionError
| ValueError
| OverflowError
| KeyError (k : string)
| IndexError
| ZeroDivisionError
| StructError
| UnboundLocalError
| OSError
| RuntimeError
| Exception (msg : string).

Inductive outcome (A : Type) :=
| Ok (a : A)
| Raise (e : error).
Arguments Ok {A} a.
Arguments Raise {A} e.

Definition obind {A B} (c : outcome A) (k : A -> outcome B) : outcome B :=
  match c with
  | Ok a => k a
  | Raise e => Raise e
  end.

Notation "'let!' x ':=' c 'in' k" := (obind c (fun x => k))
  (at level 10, x name, c at level 100, k at level 200).

(** ** The output file

    [open(outputPath, 'wb')] is modelled by its position and the log of the
    positioned writes it received, oldest first.  Bytes are integers in
    [0, 256). *)
Record File := mkFile { pos : Z; wlog : list (Z * list Z) }.

Definition file_empty : File := mkFile 0 [].

(** [file.write(b)]: the buffer lands at the current position, which then
    advances by its length. *)
Definition file_write (b : list Z) (f : File) : File :=
  mkFile (pos f + Z.of_nat (length b)) (wlog f ++ [(pos f, b)]).

(** [file.seek(o)]: a negative target is refused by the operating system. *)
Definition file_seek (o : Z) (f : File) : outcome File :=
  if o <? 0 then Raise OSError else Ok (mkFile o (wlog f)).

(** Number of bytes the file received so far. *)
Definition bytes_written (f : File) : Z :=
  fold_right (fun w acc => Z.of_nat (length (snd w)) + acc) 0 (wlog f).

(** Code that writes to the file and may raise: the file state survives an
    exception, as the bytes already written do. *)
Definition IO (A : Type) := File -> outcome A * File.

Definition ret {A} (a : A) : IO A := fun f => (Ok a, f).
Definition throw {A} (e : error) : IO A := fun f => (Raise e, f).
Definition bind {A B} (c : IO A) (k : A -> IO B) : IO B :=
  fun f => match c f with
           | (Ok a, f') => k a f'
           | (Raise e, f') => (Raise e, f')
           end.
Definition lift {A} (c : outcome A) : IO A := fun f => (c, f).
Definition write (b : list Z) : IO unit := fun f => (Ok tt, file_write b f).
Definition seek (o : Z) : IO unit :=
  fun f => match file_seek o f with
           | Ok f' => (Ok tt, f')
           | Raise e => (Raise e, f)
           end.

Notation "'let*' x ':=' c 'in' k" := (bind c (fun x => k))
  (at level 10, x name, c at level 100, k at level 200).

(** An action only appends to the log of writes, whether it returns or
    raises. *)
Definition appends {A} (c : IO A) : Prop :=
  forall f r f', c f = (r, f') -> exists more, wlog f' = wlog f ++ more.

(** ** Floating-point interface

    The converter computes with NumPy scalars.  Which binary format the
    intermediate results have depends on NumPy's promotion rules, so the
    arithmetic is an interface; [binary32] below is the IEEE-754 instance. *)
Class FloatArith (F : Type) := {
  fmax : F -> F -> F;          (* one step of np.max *)
  fmin : F -> F -> F;          (* one step of np.min *)
  fneg : F -> F;
  fgt : F -> F -> bool;
  fdiv : F -> F -> F;
  fmul : F -> F -> F;
  fadd : F -> F -> F;
  f_zero : F;                  (* the int 0 promoted *)
  f_one : F;                   (* 1.0 *)
  f_neg8 : F;                  (* the int -8 promoted *)
  f_8_5 : F;                   (* 8.5 *)
  truthy : F -> bool;          (* bool(x): x != 0 *)
  ftrunc : F -> outcome Z;     (* int(x): raises on NaN and infinities *)
}.

Class FloatPack (F : Type) := {
  half_bits : F -> Z;          (* bit pattern of np.float16(x) *)
  single_bits : F -> Z;        (* bit pattern of np.float32(x) *)
}.

(** Little-endian bytes of a [w]-byte pattern, as [struct.pack] lays them
    out on the hosts the converter runs on. *)
Fixpoint le_bytes (w : nat) (bits : Z) : list Z :=
  match w with
  | O => []
  | S w' => Z.land bits 255 :: le_bytes w' (Z.shiftr bits 8)
  end.

(** [struct.pack('B', b)] *)
Definition pack_B (b : Z) : outcome (list Z) :=
  if (0 <=? b) && (b <=? 255) then Ok [b] else Raise StructError.

(** [struct.pack('i', n)] *)
Definition pack_i (n : Z) : outcome (list Z) :=
  if (- 2 ^ 31 <=? n) && (n <? 2 ^ 31) then Ok (le_bytes 4 (n mod 2 ^ 32))
  else Raise StructError.

Section Quantizer.
Context {F : Type} {FA : FloatArith F} {FP : FloatPack F}.

(** [struct.pack('e', x)] and [struct.pack('f', x)] *)
Definition pack_e (x : F) : list Z := le_bytes 2 (half_bits x).
Definition pack_f (x : F) : list Z := le_bytes 4 (single_bits x).

(** [x.reshape(-1, n)] on a flat array whose length is a multiple of [n]. *)
Definition reshape (n : nat) (x : list F) : list (list F) :=
  map (fun g => firstn n (skipn (g * n) x)) (seq 0 (Nat.div (length x) n)).

(** [np.max(groups, axis=1)] and [np.min(groups, axis=1)] on one row. *)
Definition np_max (g : list F) : F :=
  match g with
  | [] => f_zero
  | v :: vs => fold_left fmax vs v
  end.
Definition np_min (g : list F) : F :=
  match g with
  | [] => f_zero
  | v :: vs => fold_left fmin vs v
  end.

(** [np.where(c, a, b)] *)
Fixpoint np_where (c : list bool) (a b : list F) : list F :=
  match c, a, b with
  | ci :: c', ai :: a', bi :: b' => (if ci then ai else bi) :: np_where c' a' b'
  | _, _, _ => []
  end.

Definition py_min (a b : Z) : Z := if b <? a then b else a.

(** The body of [for i in range(0, groupSizeHalf)], threading [buffer]
    and [nBytes]. *)
Definition quantize_pair (group : list F) (id : F) (st : list Z * Z) (i : nat)
  : outcome (list Z * Z) :=
  let '(buffer, nBytes) := st in
  let x0 := fadd (fmul (nth i group f_zero) id) f_8_5 in
  let x1 := fadd (fmul (nth (i + 16) group f_zero) id) f_8_5 in
  let! t0 := ftrunc x0 in
  let xi0 := py_min 15 t0 in
  let! t1 := ftrunc x1 in
  let xi1 := py_min 15 t1 in
  let b := Z.lor (Z.land xi0 15) (Z.shiftl (Z.land xi1 15) 4) in
  let! pb := pack_B b in
  Ok (buffer ++ pb, nBytes + 1).

Fixpoint for_range {S} (body : S -> nat -> outcome S) (idxs : list nat) (st : S)
  : outcome S :=
  match idxs with
  | [] => Ok st
  | i :: idxs' => let! st' := body st i in for_range body idxs' st'
  end.

(** The body of [for gi, group in enumerate(groups)], threading [nBytes]. *)
Definition quantize_group (absMax : list F) (nBytes : Z) (gi : nat)
    (group : list F) : IO Z :=
  let groupAbsMax := nth gi absMax f_zero in
  let delta := fdiv groupAbsMax f_neg8 in
  let id := if truthy delta then fdiv f_one delta else f_zero in
  let buffer := pack_e delta in
  let nBytes := nBytes + 2 in
  let* st := lift (for_range (quantize_pair group id) (seq 0 16) (buffer, nBytes)) in
  let* _ := write (fst st) in
  ret (snd st).

Fixpoint for_groups (absMax : list F) (gs : list (nat * list F)) (nBytes : Z)
  : IO Z :=
  match gs with
  | [] => ret nBytes
  | (gi, group) :: gs' =>
      let* n' := quantize_group absMax nBytes gi group in
      for_groups absMax gs' n'
  end.

Definition enumerate {A} (l : list A) : list (nat * A) :=
  combine (seq 0 (length l)) l.

Definition quantizeQ40 (x : list F) : IO Z :=
  let groupSize := 32%nat in
  if negb (Z.of_nat (length x) mod 32 =? 0) then throw AssertionError
  else
    let groups := reshape groupSize x in
    let gmax := map np_max groups in
    let gmin := map np_min groups in
    let absMax :=
      np_where (map (fun p => fgt (fneg (fst p)) (snd p)) (combine gmin gmax))
               gmin gmax in
    for_groups absMax (enumerate groups) 0.

(** *** The quantizer in the words of the specification (steps 1 to 5) *)
Definition absMax_of (g : list F) : F :=
  if fgt (fneg (np_min g)) (np_max g) then np_min g else np_max g.
Definition delta_of (g : list F) : F := fdiv (absMax_of g) f_neg8.
Definition invScale_of (g : list F) : F :=
  if truthy (delta_of g) then fdiv f_one (delta_of g) else f_zero.
Definition scaled (g : list F) (v : F) : F :=
  fadd (fmul v (invScale_of g)) f_8_5.

(** [truncateTowardZero], where it is defined. *)
Definition trunc_val (x : F) : Z :=
  match ftrunc x with Ok t => t | Raise _ => 0 end.
Definition truncates (x : F) : bool :=
  match ftrunc x with Ok _ => true | Raise _ => false end.
(** Every scaled value of the group is finite, so [int] is defined on it. *)
Definition finite_group (g : list F) : bool :=
  forallb (fun v => truncates (scaled g v)) g.

Definition q_index (g : list F) (v : F) : Z := Z.min 15 (trunc_val (scaled g v)).
Definition nibble_byte (lo hi : Z) : Z :=
  Z.lor (Z.land lo 15) (Z.shiftl (Z.land hi 15) 4).
Definition Q40_byte (g : list F) (i : nat) : Z :=
  nibble_byte (q_index g (nth i g f_zero)) (q_index g (nth (i + 16) g f_zero)).

(** The byte one iteration of the inner loop appends, for any scale. *)
Definition pair_byte (group : list F) (id : F) (i : nat) : Z :=
  nibble_byte
    (Z.min 15 (trunc_val (fadd (fmul (nth i group f_zero) id) f_8_5)))
    (Z.min 15 (trunc_val (fadd (fmul (nth (i + 16) group f_zero) id) f_8_5))).
Definition Q40_group (g : list F) : list Z :=
  pack_e (delta_of g) ++ map (Q40_byte g) (seq 0 16).

(** One [file.write] per buffer, in order. *)
Definition write_all (bufs : list (list Z)) (f : File) : File :=
  fold_left (fun f b => file_write b f) bufs f.

(** *** Tensors and their encoder *)

(** A tensor: its shape and its elements in row-major order, which is
    what [tensor.detach().cpu().view(-1)] yields. *)
Record Tensor := mkTensor { shape : list nat; data : list F }.

Definition exportTensor (tensor : Tensor) (floatType : string) : IO Z :=
  let d := data tensor in
  if String.eqb floatType "float16" then
    let b := concat (map pack_e d) in
    let* _ := write b in
    ret (Z.of_nat (length b))
  else if String.eqb floatType "float32" then
    let b := concat (map pack_f d) in
    let* _ := write b in
    ret (Z.of_nat (length b))
  else if String.eqb floatType "q40" then
    quantizeQ40 d
  else throw (Exception "Unknown float type").
End Quantizer.

(** ** The IEEE-754 instance: binary32 arithmetic, round to nearest even *)
Module B32.
Definition prec : Z := 24.
Definition emax : Z := 128.

Definition of_Z (m e : Z) : spec_float := binary_normalize prec emax m e false.

Definition is_nan (x : spec_float) : bool :=
  match x with S754_nan => true | _ => false end.

(** [np.maximum] and [np.minimum] propagate NaN. *)
Definition max (x y : spec_float) : spec_float :=
  if is_nan x then x else if is_nan y then y
  else if SFltb x y then y else x.
Definition min (x y : spec_float) : spec_float :=
  if is_nan x then x else if is_nan y then y
  else if SFltb y x then y else x.

Definition nonzero (x : spec_float) : bool :=
  match x with S754_zero _ => false | _ => true end.

(** [int(x)]: truncation toward zero; NaN and the infinities raise. *)
Definition trunc (x : spec_float) : outcome Z :=
  match x with
  | S754_nan => Raise ValueError
  | S754_infinity _ => Raise OverflowError
  | S754_zero _ => Ok 0
  | S754_finite s m e =>
      let a := if 0 <=? e then Z.shiftl (Zpos m) e else Z.shiftr (Zpos m) (- e) in
      Ok (if s then - a else a)
  end.

(** Bit pattern in the interchange format with [mw] mantissa bits and
    [ew] exponent bits, for a value already rounded to that format. *)
Definition float_bits (mw ew : Z) (x : spec_float) : Z :=
  let sign (s : bool) := if s then Z.shiftl 1 (mw + ew) else 0 in
  let emask := Z.shiftl (2 ^ ew - 1) mw in
  match x with
  | S754_zero s => sign s
  | S754_infinity s => Z.lor (sign s) emask
  | S754_nan => Z.lor emask (Z.shiftl 1 (mw - 1))
  | S754_finite s m e =>
      if Zpos (digits2_pos m) =? mw + 1
      then Z.lor (sign s)
             (Z.lor (Z.shiftl (e + mw + (2 ^ (ew - 1) - 1)) mw) (Zpos m - 2 ^ mw))
      else Z.lor (sign s) (Zpos m)
  end.

(** [np.float16(x)]: rounding to binary16. *)
Definition to_half (x : spec_float) : spec_float :=
  match x with
  | S754_finite s m e => binary_round 11 16 s m e
  | _ => x
  end.

#[global] Instance arith : FloatArith spec_float := {|
  fmax := max;
  fmin := min;
  fneg := SFopp;
  fgt := fun x y => SFltb y x;
  fdiv := SFdiv prec emax;
  fmul := SFmul prec emax;
  fadd := SFadd prec emax;
  f_zero := S754_zero false;
  f_one := of_Z 1 0;
  f_neg8 := of_Z (-8) 0;
  f_8_5 := of_Z 17 (-1);
  truthy := nonzero;
  ftrunc := trunc;
|}.

#[global] Instance pack : FloatPack spec_float := {|
  half_bits := fun x => float_bits 10 5 (to_half x);
  single_bits := float_bits 23 8;
|}.

(** The ramp -8.0, -7.0, ..., 23.0 *)
Definition ramp : list spec_float :=
  map (fun k => of_Z (Z.of_nat k - 8) 0) (seq 0 32).

(** A group that holds one infinity: +inf, then 31 zeros. *)
Definition inf_group : list spec_float :=
  S754_infinity false :: repeat (S754_zero false) 31.

(** A highly asymmetric group: -1000.0, then 1.0, then 30 times 999.0. *)
Definition asym_group : list spec_float :=
  of_Z (-1000) 0 :: of_Z 1 0 :: repeat (of_Z 999 0) 30.
End B32.


(** ** Exact rational arithmetic

    The arithmetic the specification's formulas are written in: every
    operation is exact and every value is finite. *)
Module Exact.
Definition Qtrunc (q : Q) : Z := Z.quot (Qnum q) (Zpos (Qden q)).
Definition Qgtb (x y : Q) : bool := negb (Qle_bool x y).
Definition qmax (x y : Q) : Q := if Qle_bool x y then y else x.
Definition qmin (x y : Q) : Q := if Qle_bool y x then y else x.

#[global] Instance arith : FloatArith Q := {|
  fmax := qmax;
  fmin := qmin;
  fneg := Qopp;
  fgt := Qgtb;
  fdiv := Qdiv;
  fmul := Qmult;
  fadd := Qplus;
  f_zero := 0%Q;
  f_one := 1%Q;
  f_neg8 := (-8 # 1)%Q;
  f_8_5 := (17 # 2)%Q;
  truthy := fun x => negb (Qeq_bool x 0);
  ftrunc := fun x => Ok (Qtrunc x);
|}.
End Exact.

(** ** Rounded rational arithmetic

    Arithmetic whose division, product and sum are followed by a rounding
    [rnd]: the shape of floating-point arithmetic away from overflow, where
    [rnd] has a small relative error. *)
Module Rounded.
Definition arith (rnd : Q -> Q) : FloatArith Q := {|
  fmax := Exact.qmax;
  fmin := Exact.qmin;
  fneg := Qopp;
  fgt := Exact.Qgtb;
  fdiv := fun x y => rnd (Qdiv x y);
  fmul := fun x y => rnd (Qmult x y);
  fadd := fun x y => rnd (Qplus x y);
  f_zero := 0%Q;
  f_one := 1%Q;
  f_neg8 := (-8 # 1)%Q;
  f_8_5 := (17 # 2)%Q;
  truthy := fun x => negb (Qeq_bool x 0);
  ftrunc := fun x => Ok (Exact.Qtrunc x);
|}.

(** Every result is within a relative error of 1/64 of the exact one. *)
Definition accurate (rnd : Q -> Q) : Prop :=
  forall x : Q, (Qabs (rnd x - x) <= (1 # 64) * Qabs x)%Q.
End Rounded.

(** ** Python numbers

    The layout arithmetic mixes [int] and [float]: [/] always yields a
    float.  The quantities are element and byte counts, far inside the
    range where binary64 is exact, so a float is its rational value. *)
Inductive pynum :=
| PInt (z : Z)
| PFloat (q : Q).

Definition to_Q (n : pynum) : Q :=
  match n with PInt z => inject_Z z | PFloat q => q end.

Definition pmul (a b : pynum) : pynum :=
  match a, b with
  | PInt x, PInt y => PInt (x * y)
  | _, _ => PFloat (Qred (to_Q a * to_Q b))
  end.

Definition is_zero (n : pynum) : bool :=
  match n with PInt z => z =? 0 | PFloat q => Qeq_bool q 0 end.

(** [a / b] *)
Definition ptruediv (a b : pynum) : outcome pynum :=
  if is_zero b then Raise ZeroDivisionError
  else Ok (PFloat (Qred (to_Q a / to_Q b))).

(** [a // b] *)
Definition pfloordiv (a b : pynum) : outcome pynum :=
  if is_zero b then Raise ZeroDivisionError
  else match a, b with
       | PInt x, PInt y => Ok (PInt (x / y))
       | _, _ => Ok (PFloat (inject_Z (Qfloor (to_Q a / to_Q b))))
       end.

(** [int(n)] *)
Definition pint (n : pynum) : Z :=
  match n with PInt z => z | PFloat q => Exact.Qtrunc q end.

(** [a < b] *)
Definition plt (a b : pynum) : bool :=
  match a, b with
  | PInt x, PInt y => x <? y
  | _, _ => negb (Qle_bool (to_Q b) (to_Q a))
  end.

(** [d[k]] on a dict *)
Definition getitem {V} (d : gmap string V) (k : string) : outcome V :=
  match d !! k with Some v => Ok v | None => Raise (KeyError k) end.

Fixpoint mapM {A B} (f : A -> outcome B) (l : list A) : outcome (list B) :=
  match l with
  | [] => Ok []
  | a :: l' => let! b := f a in let! bs := mapM f l' in Ok (b :: bs)
  end.

(** ** Dicts that keep insertion order *)
Section Dict.
Context {V : Type}.

Fixpoint dict_get (k : string) (d : list (string * V)) : outcome V :=
  match d with
  | [] => Raise (KeyError k)
  | (k', v) :: d' => if String.eqb k' k then Ok v else dict_get k d'
  end.

(** [d[k] = v]: an existing key keeps its place. *)
Fixpoint dict_set (k : string) (v : V) (d : list (string * V))
  : list (string * V) :=
  match d with
  | [] => [(k, v)]
  | (k', v') :: d' =>
      if String.eqb k' k then (k, v) :: d' else (k', v') :: dict_set k v d'
  end.

(** [del d[k]] *)
Fixpoint dict_del (k : string) (d : list (string * V))
  : outcome (list (string * V)) :=
  match d with
  | [] => Raise (KeyError k)
  | (k', v) :: d' =>
      if String.eqb k' k then Ok d'
      else let! r := dict_del k d' in Ok ((k', v) :: r)
  end.

Definition dict_keys (d : list (string * V)) : list string := map fst d.
End Dict.

(** ** LayoutPlanner *)

Definition getBytes (nNumbers : pynum) (targetFloatType : string) : outcome Z :=
  if String.eqb targetFloatType "float32" then Ok (pint (pmul nNumbers (PInt 4)))
  else if String.eqb targetFloatType "float16" then Ok (pint (pmul nNumbers (PInt 2)))
  else if String.eqb targetFloatType "q40" then
    let! g := pfloordiv nNumbers (PInt 32) in Ok (pint (pmul g (PInt 18)))
  else Raise (Exception "Unknown float type").

Definition header_keys : list string :=
  ["dim"; "hidden_dim"; "n_layers"; "n_heads"; "n_kv_heads"; "vocab_size";
   "max_seq_len"].

(** One ['i'] field of [struct.pack]: the argument must be an [int] that
    fits 32 bits. *)
Definition pack_i_num (n : pynum) : outcome (list Z) :=
  match n with PInt z => pack_i z | PFloat _ => Raise StructError end.

Definition writeHeader (p : gmap string pynum) : IO Z :=
  let* vals := lift (mapM (getitem p) header_keys) in
  let* fields := lift (mapM pack_i_num vals) in
  let header := concat fields in
  let* _ := write header in
  ret (Z.of_nat (length header)).

(** The nine per-layer fields, in the order of the dict literal. *)
Definition block_fields : list string :=
  ["attention_norm.weight"; "ffn_norm.weight"; "attention.wq.weight";
   "attention.wk.weight"; "attention.wv.weight"; "attention.wo.weight";
   "feed_forward.w1.weight"; "feed_forward.w2.weight"; "feed_forward.w3.weight"].

(** [for key in list(result.keys()): result[key + '_offset'] = total; ...] *)
Fixpoint add_offsets (keys : list string) (result : list (string * Z)) (total : Z)
  : outcome (list (string * Z) * Z) :=
  match keys with
  | [] => Ok (result, total)
  | key :: keys' =>
      let result' := dict_set (key +:+ "_offset") total result in
      let! size := dict_get key result' in
      add_offsets keys' result' (total + size)
  end.

Definition getBlockOffsets (params : gmap string pynum) (targetFloatType : string)
  : outcome (list (string * Z)) :=
  let! dim := getitem params "dim" in
  let! n_kv_heads := getitem params "n_kv_heads" in
  let! n_heads := getitem params "n_heads" in
  let! kvDim := ptruediv (pmul dim n_kv_heads) n_heads in
  let! rms := getBytes dim "float32" in
  let! ffn := getBytes dim "float32" in
  let! q := getBytes (pmul dim dim) targetFloatType in
  let! k := getBytes (pmul dim kvDim) targetFloatType in
  let! v := getBytes (pmul dim kvDim) targetFloatType in
  let! wo := getBytes (pmul dim dim) targetFloatType in
  let! hidden_dim := getitem params "hidden_dim" in
  let! w1 := getBytes (pmul dim hidden_dim) targetFloatType in
  let! w2 := getBytes (pmul hidden_dim dim) targetFloatType in
  let! w3 := getBytes (pmul dim hidden_dim) targetFloatType in
  let result := combine block_fields [rms; ffn; q; k; v; wo; w1; w2; w3] in
  let! r := add_offsets block_fields result 0 in
  Ok (dict_set "_total" (snd r) (fst r)).

Definition padd (a b : pynum) : pynum :=
  match a, b with
  | PInt x, PInt y => PInt (x + y)
  | _, _ => PFloat (Qred (to_Q a + to_Q b))
  end.

(** [bool(n)] *)
Definition ptruthy (n : pynum) : bool := negb (is_zero n).

(** The part of [convert] that reads [params.json]: JSON numbers by key. *)
Definition load_params (raw : gmap string pynum) : outcome (gmap string pynum) :=
  let! vocab_size := getitem raw "vocab_size" in
  if plt vocab_size (PInt 1) then Raise (Exception "Invalid vocab size")
  else
    let! n_kv_heads :=
      match raw !! "n_kv_heads" with
      | Some v => if ptruthy v then Ok v else getitem raw "n_heads"
      | None => getitem raw "n_heads"
      end in
    let params := <["n_kv_heads" := n_kv_heads]> raw in
    let! dim := getitem params "dim" in
    let! n_heads := getitem params "n_heads" in
    let! head_size := ptruediv dim n_heads in
    let params := <["head_size" := head_size]> params in
    let params := <["max_seq_len" := PInt 2048]> params in
    Ok params.

(** ** Strings *)

(** [s.split('.', 1)] when a dot is present. *)
Fixpoint cut_dot (s : string) : option (string * string) :=
  match s with
  | EmptyString => None
  | String c s' =>
      if Ascii.eqb c "."%char then Some (EmptyString, s')
      else match cut_dot s' with
           | Some (a, b) => Some (String c a, b)
           | None => None
           end
  end.

(** [s.split('.', n)] *)
Fixpoint split_dot (n : nat) (s : string) : list string :=
  match n with
  | O => [s]
  | S n' =>
      match cut_dot s with
      | None => [s]
      | Some (a, b) => a :: split_dot n' b
      end
  end.

Definition startswith (s p : string) : bool := String.prefix p s.

Definition endswith (s p : string) : bool :=
  let n := String.length s in
  let m := String.length p in
  (m <=? n)%nat && String.eqb (substring (n - m) m s) p.

Definition digit_of (c : ascii) : option Z :=
  let n := Z.of_nat (nat_of_ascii c) in
  if (48 <=? n) && (n <=? 57) then Some (n - 48) else None.

(** Blanks as [int] skips them: space, tab, line feed, carriage return,
    vertical tab, form feed. *)
Definition is_space (c : ascii) : bool :=
  let n := nat_of_ascii c in
  (n =? 32)%nat || ((9 <=? n)%nat && (n <=? 13)%nat).

Fixpoint all_space (s : string) : bool :=
  match s with
  | EmptyString => true
  | String c s' => is_space c && all_space s'
  end.

Fixpoint lstrip (s : string) : string :=
  match s with
  | EmptyString => EmptyString
  | String c s' => if is_space c then lstrip s' else s
  end.

(** The digits of a decimal literal: single underscores may stand between
    digits, blanks may follow the last digit.  [after_digit] tells whether
    the previous character was a digit. *)
Fixpoint parse_digits (s : string) (acc : Z) (after_digit : bool) : outcome Z :=
  match s with
  | EmptyString => if after_digit then Ok acc else Raise ValueError
  | String c s' =>
      match digit_of c with
      | Some d => parse_digits s' (10 * acc + d) true
      | None =>
          if Ascii.eqb c "_"%char then
            if after_digit then parse_digits s' acc false else Raise ValueError
          else if after_digit && all_space s then Ok acc
          else Raise ValueError
      end
  end.

(** [int(s)] on ASCII text: blanks, an optional sign, decimal digits with
    optional single underscores between them, blanks.  (Python also reads
    the decimal digits and blanks of other scripts; names of that kind raise
    here.) *)
Definition py_int (s : string) : outcome Z :=
  match lstrip s with
  | EmptyString => Raise ValueError
  | String c s' =>
      if Ascii.eqb c "-"%char then
        let! n := parse_digits s' 0 false in Ok (- n)
      else if Ascii.eqb c "+"%char then parse_digits s' 0 false
      else parse_digits (String c s') 0 false
  end.

(** ** ShardMerger *)
Section Merger.
Context {F : Type}.

Definition prod (l : list nat) : nat := fold_right Nat.mul 1%nat l.

Definition same_except (d : nat) (s1 s2 : list nat) : bool :=
  (length s1 =? length s2)%nat
  && forallb (fun i => (i =? d)%nat || (nth i s1 O =? nth i s2 O)%nat)
       (seq 0 (length s1)).

Definition is_empty_1d (t : @Tensor F) : bool :=
  match shape t with [O] => true | _ => false end.

(** The [r]-th block of [t] when it is cut before dimension [d]. *)
Definition block (d r : nat) (t : @Tensor F) : list F :=
  let w := prod (skipn d (shape t)) in
  firstn w (skipn (r * w) (data t)).

(** [torch.cat(tensors, dim=d)]: the tensors agree on every dimension but
    [d]; empty one-dimensional tensors are skipped. *)
Definition torch_cat (tensors : list (@Tensor F)) (d : nat) : outcome (@Tensor F) :=
  match tensors with
  | [] => Raise RuntimeError
  | _ =>
    match filter (fun t => negb (is_empty_1d t)) tensors with
    | [] => Ok (mkTensor [O] [])
    | t0 :: ts =>
        match shape t0 with
        | [] => Raise RuntimeError
        | _ =>
          if (length (shape t0) <=? d)%nat then Raise IndexError
          else if negb (forallb (fun t => same_except d (shape t0) (shape t)) ts)
          then Raise RuntimeError
          else
            let all := t0 :: ts in
            let n := fold_right Nat.add O (map (fun t => nth d (shape t) O) all) in
            let outer := prod (firstn d (shape t0)) in
            Ok (mkTensor (<[d := n]> (shape t0))
                  (concat (map (fun r => concat (map (block d r) all))
                             (seq 0 outer))))
        end
    end
  end.

Definition is_axis_1 (name : string) : bool :=
  startswith name "tok_embeddings."
  || endswith name ".attention.wo.weight"
  || endswith name ".feed_forward.w2.weight".

(** The body of [for name in list(models[0])]. *)
Definition toDict_name (name : string)
    (st : list (string * @Tensor F) * list (list (string * @Tensor F)))
  : outcome (list (string * @Tensor F) * list (list (string * @Tensor F))) :=
  let '(stateDict, models) := st in
  let! tensors := mapM (dict_get name) models in
  match tensors with
  | [] => Raise IndexError
  | t0 :: _ =>
      if (length tensors =? 1)%nat || (length (shape t0) =? 1)%nat then
        Ok (dict_set name t0 stateDict, models)
      else
        let axis := if is_axis_1 name then 1%nat else 0%nat in
        let! t := torch_cat tensors axis in
        let stateDict := dict_set name t stateDict in
        let! models := mapM (dict_del name) models in
        Ok (stateDict, models)
  end.

Fixpoint toDict_loop (names : list string)
    (st : list (string * @Tensor F) * list (list (string * @Tensor F)))
  : outcome (list (string * @Tensor F) * list (list (string * @Tensor F))) :=
  match names with
  | [] => Ok st
  | name :: names' => let! st' := toDict_name name st in toDict_loop names' st'
  end.

(** [toDict(models)]: the merged dict, and the shard dicts as the call
    leaves them. *)
Definition toDict (models : list (list (string * @Tensor F)))
  : outcome (list (string * @Tensor F) * list (list (string * @Tensor F))) :=
  match models with
  | [] => Raise IndexError
  | m0 :: _ => toDict_loop (dict_keys m0) ([], models)
  end.
End Merger.

(** ** WriteScheduler *)
Section Converter.
Context {F : Type} {FA : FloatArith F} {FP : FloatPack F}.

(** What [convert] has computed once the header is written. *)
Record Env := mkEnv {
  targetFloatType : string;
  tokenEmbeddingBytes : Z;
  rmsFinalBytes : Z;
  wclsBytes : Z;
  headerOffset : Z;
  blockOffsets : list (string * Z);
  afterBlocksOffset : Z;
  ropeBytes : Z;
}.

(** The locals that survive from one tensor to the next:
    [layerProcessedBytes], and [layerSize], unbound until first assigned. *)
Record Sched := mkSched {
  layerProcessedBytes : gmap string Z;
  layerSize : option Z;
}.

(** [layerProcessedBytes.get(layerName) or 0] *)
Definition get_processed (st : Sched) (layerName : string) : Z :=
  match layerProcessedBytes st !! layerName with
  | Some v => if v =? 0 then 0 else v
  | None => 0
  end.

Definition list_item {A} (l : list A) (i : nat) : outcome A :=
  match nth_error l i with Some a => Ok a | None => Raise IndexError end.

(** The [if / elif] chain of lines 169 to 194: the new [layerSize] and
    [processedBytes]. *)
Definition dispatch (env : Env) (st : Sched) (layerName : string)
    (tensor : @Tensor F) (processedBytes : Z) : IO (option Z * Z) :=
  let nameParts := split_dot 2 layerName in
  let* p0 := lift (list_item nameParts 0) in
  if String.eqb p0 "layers" then
    let* p1 := lift (list_item nameParts 1) in
    let* index := lift (py_int p1) in
    let* p2 := lift (list_item nameParts 2) in
    let* layerSize := lift (dict_get p2 (blockOffsets env)) in
    let* layerOffset := lift (dict_get (p2 +:+ "_offset") (blockOffsets env)) in
    let* total := lift (dict_get "_total" (blockOffsets env)) in
    let tensorOffset :=
      headerOffset env + tokenEmbeddingBytes env + total * index
      + layerOffset + processedBytes in
    let tensorFloatType :=
      if String.eqb p2 "attention_norm.weight" || String.eqb p2 "ffn_norm.weight"
      then "float32" else targetFloatType env in
    let* _ := seek tensorOffset in
    let* n := exportTensor tensor tensorFloatType in
    ret (Some layerSize, processedBytes + n)
  else if String.eqb layerName "tok_embeddings.weight" then
    let layerSize := tokenEmbeddingBytes env in
    let* _ := seek (headerOffset env + processedBytes) in
    let* n := exportTensor tensor "float32" in
    ret (Some layerSize, processedBytes + n)
  else if String.eqb layerName "norm.weight" then
    let layerSize := rmsFinalBytes env in
    let* _ := seek (afterBlocksOffset env + processedBytes) in
    let* n := exportTensor tensor "float32" in
    ret (Some layerSize, processedBytes + n)
  else if String.eqb layerName "rope.freqs" then
    ret (layerSize st, -1)
  else if String.eqb layerName "output.weight" then
    let layerSize := wclsBytes env in
    let tensorOffset :=
      afterBlocksOffset env + rmsFinalBytes env + ropeBytes env + processedBytes in
    let* _ := seek tensorOffset in
    let* n := exportTensor tensor (targetFloatType env) in
    ret (Some layerSize, processedBytes + n)
  else throw (Exception ("Unknown layer: " +:+ layerName)).

(** The seek, the export and the progress update that the four writing
    branches of [dispatch] share. *)
Definition seek_export (o : Z) (tensor : @Tensor F) (floatType : string)
    (size : Z) (processedBytes : Z) : IO (option Z * Z) :=
  let* _ := seek o in
  let* n := exportTensor tensor floatType in
  ret (Some size, processedBytes + n).

(** The body of [for layerName in modelDict.keys()]. *)
Definition export_layer (env : Env) (st : Sched) (layerName : string)
    (tensor : @Tensor F) : IO Sched :=
  let processedBytes := get_processed st layerName in
  if processedBytes =? -1 then ret st
  else
    let* r := dispatch env st layerName tensor processedBytes in
    let '(size, processedBytes) := r in
    match size with
    | None => throw UnboundLocalError
    | Some layerSize =>
        let processedBytes :=
          if processedBytes =? layerSize then -1 else processedBytes in
        ret (mkSched (<[layerName := processedBytes]> (layerProcessedBytes st))
                     (Some layerSize))
    end.

Fixpoint export_layers (env : Env) (st : Sched)
    (modelDict : list (string * @Tensor F)) : IO Sched :=
  match modelDict with
  | [] => ret st
  | (layerName, tensor) :: rest =>
      let* st' := export_layer env st layerName tensor in
      export_layers env st' rest
  end.

(** Lines 151 to 157: the header and the layout derived from it. *)
Definition write_layout (params : gmap string pynum) (target : string)
    (tokenEmbeddingBytes rmsFinalBytes wclsBytes : Z)
    (modelDict : list (string * @Tensor F)) : IO (gmap string pynum * Env) :=
  let* w1 := lift (dict_get "layers.0.feed_forward.w1.weight" modelDict) in
  let* h := lift (list_item (shape w1) 0) in
  let params := <["hidden_dim" := PInt (Z.of_nat h)]> params in
  let* headerOffset := writeHeader params in
  let* blockOffsets := lift (getBlockOffsets params target) in
  let* total := lift (dict_get "_total" blockOffsets) in
  let* n_layers := lift (getitem params "n_layers") in
  let afterBlocksOffset :=
    pint (padd (PInt (headerOffset + tokenEmbeddingBytes))
               (pmul (PInt total) n_layers)) in
  let* max_seq_len := lift (getitem params "max_seq_len") in
  let* head_size := lift (getitem params "head_size") in
  let* half := lift (ptruediv (pmul max_seq_len head_size) (PInt 2)) in
  let* rope := lift (getBytes half "float32") in
  let ropeBytes := rope * 2 in
  ret (params,
       mkEnv target tokenEmbeddingBytes rmsFinalBytes wclsBytes headerOffset
             blockOffsets afterBlocksOffset ropeBytes).

(** The loop over the shard files, in sorted order. *)
Fixpoint convert_shards (target : string)
    (tokenEmbeddingBytes rmsFinalBytes wclsBytes : Z)
    (params : gmap string pynum) (env : option Env) (st : Sched)
    (shards : list (list (string * @Tensor F))) : IO Sched :=
  match shards with
  | [] => ret st
  | model :: rest =>
      let* md := lift (toDict [model]) in
      let modelDict := fst md in
      let* pe :=
        match env with
        | Some e => ret (params, e)
        | None => write_layout params target tokenEmbeddingBytes rmsFinalBytes
                    wclsBytes modelDict
        end in
      let* st' := export_layers (snd pe) st modelDict in
      convert_shards target tokenEmbeddingBytes rmsFinalBytes wclsBytes
        (fst pe) (Some (snd pe)) st' rest
  end.

(** [convert]: [raw] is the content of [params.json] and [shards] the
    content of the [consolidated.*.pth] files in sorted order.  The result
    is the final progress table. *)
Definition convert (raw : gmap string pynum)
    (shards : list (list (string * @Tensor F))) (target : string) : IO Sched :=
  let* params := lift (load_params raw) in
  let* vocab_size := lift (getitem params "vocab_size") in
  let* dim := lift (getitem params "dim") in
  let* tokenEmbeddingBytes := lift (getBytes (pmul vocab_size dim) "float32") in
  let* rmsFinalBytes := lift (getBytes dim "float32") in
  let* wclsBytes := lift (getBytes (pmul vocab_size dim) target) in
  convert_shards target tokenEmbeddingBytes rmsFinalBytes wclsBytes params None
    (mkSched ∅ None) shards.
End Converter.

(** The four names outside [layers]. *)
Definition top_level_names : list string :=
  ["tok_embeddings.weight"; "norm.weight"; "rope.freqs"; "output.weight"].

(** ** Small concrete checkpoints (binary32) *)
Module Demo.
(** A tensor of the given shape filled with 1.0. *)
Definition ones (sh : list nat) : @Tensor spec_float :=
  mkTensor sh (repeat (B32.of_Z 1 0) (prod sh)).

(** [params.json]: dim 2, one head, one layer, vocabulary of 2, and a
    [max_seq_len] of 7. *)
Definition raw : gmap string pynum :=
  list_to_map [("dim", PInt 2); ("n_heads", PInt 1); ("n_layers", PInt 1);
               ("vocab_size", PInt 2); ("max_seq_len", PInt 7)].

(** A shard whose final norm has 3 elements where [dim] is 2. *)
Definition overshoot_shard : list (string * @Tensor spec_float) :=
  [("layers.0.feed_forward.w1.weight", ones [3; 2]%nat);
   ("norm.weight", ones [3]%nat);
   ("output.weight", ones [2; 2]%nat)].

(** A shard with an unrecognized name under [layers] before a known one. *)
Definition unknown_field_shard : list (string * @Tensor spec_float) :=
  [("layers.0.feed_forward.w1.weight", ones [3; 2]%nat);
   ("layers.0.foo", ones [2]%nat);
   ("norm.weight", ones [2]%nat)].

(** The layout [convert] derives for [raw] and a hidden width of 3. *)
Definition env (target : string) : Env :=
  match load_params raw with
  | Ok params =>
      match getBlockOffsets (<["hidden_dim" := PInt 3]> params) target with
      | Ok bo => mkEnv target 16 8 16 28 bo 196 16384
      | Raise _ => mkEnv target 0 0 0 0 [] 0 0
      end
  | Raise _ => mkEnv target 0 0 0 0 [] 0 0
  end.
End Demo.

Definition sum_Z (l : list Z) : Z := fold_left Z.add l 0.

(** The block table in closed form: each field's size, its offset (the sum
    of the sizes before it in [block_fields]) and the block total. *)
Definition block_table (sizes : list Z) : list (string * Z) :=
  let offsets := map (fun j => sum_Z (firstn j sizes)) (seq 0 (length sizes)) in
  combine block_fields sizes
  ++ combine (map (fun k => k +:+ "_offset") block_fields) offsets
  ++ [("_total", sum_Z sizes)].

(** The nine rows of the per-layer table: encoding and element count. *)
Definition block_rows (dim kvDim hidden_dim : pynum) (enc : string)
  : list (string * pynum) :=
  [("float32", dim); ("float32", dim);
   (enc, pmul dim dim); (enc, pmul dim kvDim); (enc, pmul dim kvDim);
   (enc, pmul dim dim);
   (enc, pmul dim hidden_dim); (enc, pmul hidden_dim dim);
   (enc, pmul dim hidden_dim)].

(** The hyperparameters [convert] holds for [Demo.raw] once the hidden
    width 3 is known. *)
Definition demo_params : gmap string pynum :=
  match load_params Demo.raw with
  | Ok params => <["hidden_dim" := PInt 3]> params
  | Raise _ => ∅
  end.

(** Two shards of a two-way tensor-parallel checkpoint (integer elements):
    a row-split [wq], a column-split [wo] and a replicated norm. *)
Definition merge_shards : list (list (string * @Tensor Z)) :=
  [[("layers.0.attention.wq.weight", mkTensor [1; 2]%nat [1; 2]);
    ("layers.0.attention.wo.weight", mkTensor [2; 1]%nat [5; 6]);
    ("norm.weight", mkTensor [2]%nat [9; 9])];
   [("layers.0.attention.wq.weight", mkTensor [1; 2]%nat [3; 4]);
    ("layers.0.attention.wo.weight", mkTensor [2; 1]%nat [7; 8]);
    ("norm.weight", mkTensor [2]%nat [0; 0])]].

(** ** What a merge leaves behind, name by name *)
Section MergeRelations.
Context {F : Type}.

(** Every shard maps [name] as before. *)
Definition same_at (name : string) (ms ms' : list (list (string * @Tensor F))) : Prop :=
  Forall2 (fun m m' => dict_get name m' = dict_get name m) ms ms'.

(** No shard maps [name] any more. *)
Definition removed_at (name : string) (ms : list (list (string * @Tensor F))) : Prop :=
  Forall (fun m => dict_get name m = Raise (KeyError name)) ms.

(** Shards are dicts: no key occurs twice. *)
Definition well_keyed (ms : list (list (string * @Tensor F))) : Prop :=
  Forall (fun m => List.NoDup (dict_keys m)) ms.

(** The slices are taken as they are: one shard, or a 1-D first slice. *)
Definition verbatim (tensors : list (@Tensor F)) (t0 : @Tensor F) : bool :=
  (length tensors =? 1)%nat || (length (shape t0) =? 1)%nat.

(** What [toDict] does for [name], given the shards [ms] it started from:
    the merged dict [sd'] and the shards [ms'] it leaves. *)
Definition merged_as (name : string) (ms : list (list (string * @Tensor F)))
    (sd' : list (string * @Tensor F)) (ms' : list (list (string * @Tensor F))) : Prop :=
  exists tensors t0 rest,
    mapM (dict_get name) ms = Ok tensors
    /\ tensors = t0 :: rest
    /\ if verbatim tensors t0
       then dict_get name sd' = Ok t0 /\ same_at name ms ms'
       else exists t,
              torch_cat tensors (if is_axis_1 name then 1%nat else 0%nat) = Ok t
              /\ dict_get name sd' = Ok t
              /\ removed_at name ms'.
End MergeRelations.

(** ** What the properties below are stated with *)

(** The bytes a file received, in the order they were written. *)
Definition stream (f : File) : list Z := concat (map snd (wlog f)).

(** The integer that little-endian bytes denote, and the signed reading
    of four of them, [struct.unpack('i', b)]. *)
Fixpoint le_value (b : list Z) : Z :=
  match b with
  | [] => 0
  | x :: b' => x + 256 * le_value b'
  end.

Definition unpack_i (b : list Z) : Z :=
  let u := le_value b in
  if u <? 2 ^ 31 then u else u - 2 ^ 32.

(** The [k]-th four-byte field of a packed buffer. *)
Definition field_bytes (k : nat) (buffer : list Z) : list Z :=
  firstn 4 (skipn (4 * k) buffer).

(** The three encodings. *)
Definition float_types : list string := ["float16"; "float32"; "q40"].

(** ** The command line (lines 210 to 233) *)

(** [s.split('/')] *)
Fixpoint split_slash (s : string) : list string :=
  match s with
  | EmptyString => [EmptyString]
  | String c s' =>
      if Ascii.eqb c "/"%char then EmptyString :: split_slash s'
      else match split_slash s' with
           | p :: ps => String c p :: ps
           | [] => [String c EmptyString]
           end
  end.

(** A slash among the characters of a string. *)
Definition has_slash (s : string) : Prop :=
  In "/"%char (list_ascii_of_string s).

(** How the script ends: [usage()] leaves through [exit(1)], otherwise
    [convert] is called with these three arguments. *)
Inductive command :=
| Exit (code : Z)
| Convert (modelPath outputFileName targetFloatType : string).

Definition usage : command := Exit 1.

(** The block under [if __name__ == '__main__'], on [sys.argv]. *)
Definition main (argv : list string) : command :=
  if (length argv <? 3)%nat then usage
  else
    let modelPath := nth 1 argv "" in
    let targetFloatType := nth 2 argv "" in
    if String.eqb modelPath ""
       || negb (existsb (String.eqb targetFloatType) float_types)
    then usage
    else
      let modelName := List.last (split_slash modelPath) "" in
      let outputFileName :=
        "dllama_" +:+ modelName +:+ "_" +:+ targetFloatType +:+ "2.bin" in
      Convert modelPath outputFileName targetFloatType.

(** ** The outer loop of [quantizeQ40] seen from the groups alone *)
Section GroupBuffers.
Context {F : Type} {FA : FloatArith F} {FP : FloatPack F}.

(** The buffer the loop body builds for one group, or the exception that
    [int] raises on the way. *)
Definition group_buffer (g : list F) : outcome (list Z) :=
  let! st := for_range (quantize_pair g (invScale_of g)) (seq 0 16)
               (pack_e (delta_of g), 2) in
  Ok (fst st).

(** Group after group: one write per buffer, until one raises. *)
Fixpoint write_groups (gs : list (list F)) (nBytes : Z) : IO Z :=
  match gs with
  | [] => ret nBytes
  | g :: gs' =>
      let* b := lift (group_buffer g) in
      let* _ := write b in
      write_groups gs' (nBytes + 18)
  end.
End GroupBuffers.

(** ** The tensors outside the layers (lines 177 to 192) *)

(** Where a tensor outside the layers goes: start of its region, encoding,
    size. *)
Definition top_level_region (env : Env) (layerName : string)
  : option (Z * string * Z) :=
  if String.eqb layerName "tok_embeddings.weight" then
    Some (headerOffset env, "float32", tokenEmbeddingBytes env)
  else if String.eqb layerName "norm.weight" then
    Some (afterBlocksOffset env, "float32", rmsFinalBytes env)
  else if String.eqb layerName "output.weight" then
    Some (afterBlocksOffset env + rmsFinalBytes env + ropeBytes env,
          targetFloatType env, wclsBytes env)
  else None.

(** * Properties *)

(** ** Bytes and nibbles *)

Lemma py_min_spec (a b : Z) : py_min a b = Z.min a b.
Proof. unfold py_min. destruct (Z.ltb_spec b a); lia. Qed.

Lemma land_15_mod (k : Z) : Z.land k 15 = k mod 16.
Proof. change 15 with (Z.ones 4). rewrite Z.land_ones by lia. reflexivity. Qed.

Lemma lor_shiftl_4 (a b : Z) :
  0 <= a < 16 -> 0 <= b -> Z.lor a (Z.shiftl b 4) = a + 16 * b.
Proof.
  intros Ha Hb.
  rewrite Z.shiftl_mul_pow2 by lia.
  assert (Hland : Z.land a (b * 2 ^ 4) = 0).
  { apply Z.bits_inj'. intros n Hn. rewrite Z.land_spec, Z.bits_0.
    destruct (Z.lt_ge_cases n 4) as [Hlt | Hge].
    - rewrite Z.mul_pow2_bits_low by lia. apply andb_false_r.
    - destruct (Z.eq_dec a 0) as [-> | Hne].
      + rewrite Z.bits_0. reflexivity.
      + rewrite (Z.bits_above_log2 a n); [reflexivity | lia |].
        apply Z.lt_le_trans with 4; [| lia].
        apply Z.log2_lt_pow2; lia. }
  rewrite <- Z.lxor_lor by exact Hland.
  rewrite <- Z.add_nocarry_lxor by exact Hland. lia.
Qed.

Lemma nibble_byte_split (lo hi : Z) :
  nibble_byte lo hi = lo mod 16 + 16 * (hi mod 16).
Proof.
  unfold nibble_byte. rewrite !land_15_mod.
  apply lor_shiftl_4.
  - apply Z.mod_pos_bound; lia.
  - apply Z.mod_pos_bound; lia.
Qed.

Lemma nibble_byte_range (lo hi : Z) : 0 <= nibble_byte lo hi <= 255.
Proof.
  rewrite nibble_byte_split.
  pose proof (Z.mod_pos_bound lo 16). pose proof (Z.mod_pos_bound hi 16). lia.
Qed.

Lemma nibble_byte_low (lo hi : Z) : nibble_byte lo hi mod 16 = lo mod 16.
Proof.
  rewrite nibble_byte_split.
  rewrite (Z.mul_comm 16 (hi mod 16)), Z.mod_add by lia.
  apply Z.mod_mod; lia.
Qed.

Lemma nibble_byte_high (lo hi : Z) : nibble_byte lo hi / 16 = hi mod 16.
Proof.
  rewrite nibble_byte_split.
  rewrite (Z.mul_comm 16 (hi mod 16)), Z.div_add by lia.
  rewrite (Z.div_small (lo mod 16)); [lia |].
  apply Z.mod_pos_bound; lia.
Qed.

Lemma pack_B_nibble_byte (lo hi : Z) :
  pack_B (nibble_byte lo hi) = Ok [nibble_byte lo hi].
Proof.
  unfold pack_B. pose proof (nibble_byte_range lo hi) as Hr.
  destruct (Z.leb_spec 0 (nibble_byte lo hi)); [| lia].
  destruct (Z.leb_spec (nibble_byte lo hi) 255); [| lia].
  reflexivity.
Qed.

Lemma le_bytes_length (w : nat) (bits : Z) : length (le_bytes w bits) = w.
Proof. revert bits. induction w as [| w IH]; intros bits; simpl; [| rewrite IH]; reflexivity. Qed.

(** ** The quantizer *)
Section QuantizerFacts.
Context {F : Type} {FA : FloatArith F} {FP : FloatPack F}.

Lemma pack_e_length (x : F) : length (pack_e x) = 2%nat.
Proof. apply le_bytes_length. Qed.

Lemma pack_f_length (x : F) : length (pack_f x) = 4%nat.
Proof. apply le_bytes_length. Qed.

Lemma truncates_Ok (x : F) : truncates x = true -> ftrunc x = Ok (trunc_val x).
Proof. unfold truncates, trunc_val. destruct (ftrunc x); [reflexivity | discriminate]. Qed.

Lemma quantize_pair_Ok (group : list F) (id : F) (buffer : list Z) (n : Z) (i : nat) :
  truncates (fadd (fmul (nth i group f_zero) id) f_8_5) = true ->
  truncates (fadd (fmul (nth (i + 16) group f_zero) id) f_8_5) = true ->
  quantize_pair group id (buffer, n) i = Ok (buffer ++ [pair_byte group id i], n + 1).
Proof.
  intros H0 H1. unfold quantize_pair.
  rewrite (truncates_Ok _ H0). simpl.
  rewrite (truncates_Ok _ H1). simpl.
  rewrite !py_min_spec. fold (nibble_byte
    (Z.min 15 (trunc_val (fadd (fmul (nth i group f_zero) id) f_8_5)))
    (Z.min 15 (trunc_val (fadd (fmul (nth (i + 16) group f_zero) id) f_8_5)))).
  rewrite pack_B_nibble_byte. reflexivity.
Qed.

Lemma for_range_pairs (group : list F) (id : F) (idxs : list nat) :
  forall (buffer : list Z) (n : Z),
    (forall i, In i idxs ->
       truncates (fadd (fmul (nth i group f_zero) id) f_8_5) = true /\
       truncates (fadd (fmul (nth (i + 16) group f_zero) id) f_8_5) = true) ->
    for_range (quantize_pair group id) idxs (buffer, n)
    = Ok (buffer ++ map (pair_byte group id) idxs, n + Z.of_nat (length idxs)).
Proof.
  induction idxs as [| i idxs IH]; intros buffer n Hfin.
  - simpl. rewrite app_nil_r, Z.add_0_r. reflexivity.
  - destruct (Hfin i (or_introl eq_refl)) as [H0 H1].
    cbn [for_range]. rewrite (quantize_pair_Ok _ _ _ _ _ H0 H1). cbn [obind].
    rewrite IH by (intros j Hj; apply Hfin; right; exact Hj).
    rewrite <- app_assoc. cbn [map length app].
    f_equal. f_equal. lia.
Qed.

Lemma finite_group_nth (g : list F) (i : nat) :
  finite_group g = true -> (i < length g)%nat ->
  truncates (scaled g (nth i g f_zero)) = true.
Proof.
  unfold finite_group. rewrite forallb_forall. intros Hall Hi.
  apply Hall. apply nth_In. exact Hi.
Qed.

Lemma Q40_byte_pair (g : list F) (i : nat) :
  Q40_byte g i = pair_byte g (invScale_of g) i.
Proof. reflexivity. Qed.

(** One iteration of the outer loop on a finite group: the spec's 18 bytes
    are written in one piece. *)
Lemma quantize_group_Ok (absMax : list F) (nBytes : Z) (gi : nat)
    (g : list F) (f : File) :
  nth gi absMax f_zero = absMax_of g ->
  length g = 32%nat ->
  finite_group g = true ->
  quantize_group absMax nBytes gi g f
  = (Ok (nBytes + 18), file_write (Q40_group g) f).
Proof.
  intros Habs Hlen Hfin. unfold quantize_group, bind, lift.
  rewrite Habs. fold (delta_of g). fold (invScale_of g).
  rewrite for_range_pairs.
  - cbn [fst snd write length seq]. unfold ret, Q40_group.
    change (map (Q40_byte g)) with (map (pair_byte g (invScale_of g))).
    f_equal. f_equal. lia.
  - intros i Hi. apply in_seq in Hi.
    split; apply (finite_group_nth g); rewrite ?Hlen; try assumption; lia.
Qed.

Lemma write_all_cons (b : list Z) (bufs : list (list Z)) (f : File) :
  write_all (b :: bufs) f = write_all bufs (file_write b f).
Proof. reflexivity. Qed.

Lemma for_groups_Ok (absMax : list F) (gs : list (list F)) :
  forall (k : nat) (nBytes : Z) (f : File),
    (forall j, (j < length gs)%nat ->
       nth (k + j) absMax f_zero = absMax_of (nth j gs [])) ->
    Forall (fun g => length g = 32%nat) gs ->
    forallb finite_group gs = true ->
    for_groups absMax (combine (seq k (length gs)) gs) nBytes f
    = (Ok (nBytes + 18 * Z.of_nat (length gs)),
       write_all (map Q40_group gs) f).
Proof.
  induction gs as [| g gs IH]; intros k nBytes f Habs Hlen Hfin.
  - cbn. rewrite Z.add_0_r. reflexivity.
  - inversion Hlen as [| ? ? Hg Hgs]; subst.
    cbn [forallb] in Hfin. apply andb_prop in Hfin as [Hfg Hfgs].
    cbn [length seq combine for_groups]. unfold bind.
    rewrite (quantize_group_Ok absMax nBytes k g f).
    + rewrite (IH (S k)).
      * cbn [map]. rewrite write_all_cons. f_equal. f_equal. lia.
      * intros j Hj. specialize (Habs (S j)). cbn [length nth] in Habs.
        rewrite <- Habs by lia. f_equal. lia.
      * exact Hgs.
      * exact Hfgs.
    + specialize (Habs 0%nat). cbn [length nth] in Habs.
      rewrite <- Habs by lia. f_equal. lia.
    + exact Hg.
    + exact Hfg.
Qed.

Lemma np_where_absMax (gs : list (list F)) :
  np_where
    (map (fun p => fgt (fneg (fst p)) (snd p))
         (combine (map np_min gs) (map np_max gs)))
    (map np_min gs) (map np_max gs)
  = map absMax_of gs.
Proof.
  induction gs as [| g gs IH]; [reflexivity |].
  cbn [map combine np_where fst snd]. rewrite IH. reflexivity.
Qed.
End QuantizerFacts.

Section ReshapeFacts.
Context {F : Type} {FA : FloatArith F} {FP : FloatPack F}.

Lemma reshape_length (n : nat) (x : list F) :
  length (reshape n x) = Nat.div (length x) n.
Proof. unfold reshape. rewrite length_map, length_seq. reflexivity. Qed.

Lemma reshape_nth (n k : nat) (x : list F) :
  (k < Nat.div (length x) n)%nat ->
  nth k (reshape n x) [] = firstn n (skipn (k * n) x).
Proof.
  intros Hk. unfold reshape.
  rewrite (nth_indep _ [] ((fun g => firstn n (skipn (g * n) x)) O))
    by (rewrite length_map, length_seq; exact Hk).
  rewrite (map_nth (fun g => firstn n (skipn (g * n) x))).
  rewrite seq_nth by exact Hk. reflexivity.
Qed.

Lemma reshape_In (n : nat) (x g : list F) :
  In g (reshape n x) ->
  exists k, (k < Nat.div (length x) n)%nat /\ g = firstn n (skipn (k * n) x).
Proof.
  unfold reshape. rewrite in_map_iff. intros [k [Hg Hk]].
  apply in_seq in Hk. exists k. split; [lia | symmetry; exact Hg].
Qed.

Lemma reshape_group_length (n : nat) (x : list F) :
  (0 < n)%nat -> Forall (fun g => length g = n) (reshape n x).
Proof.
  intros Hn. apply List.Forall_forall. intros g Hg.
  apply reshape_In in Hg as [k [Hk ->]].
  rewrite length_firstn, length_skipn.
  pose proof (Nat.Div0.mul_div_le (length x) n) as Hle.
  assert ((k + 1) * n <= n * Nat.div (length x) n)%nat by nia.
  lia.
Qed.

Lemma reshape_elements (n k j : nat) (x : list F) :
  (k < Nat.div (length x) n)%nat -> (j < n)%nat ->
  nth j (nth k (reshape n x) []) f_zero = nth (n * k + j) x f_zero.
Proof.
  intros Hk Hj. rewrite reshape_nth by exact Hk.
  rewrite nth_firstn.
  destruct (Nat.ltb_spec j n); [| lia].
  rewrite nth_skipn. f_equal. lia.
Qed.

Lemma Q40_group_length (g : list F) : length (Q40_group g) = 18%nat.
Proof.
  unfold Q40_group. rewrite length_app, pack_e_length, length_map, length_seq.
  reflexivity.
Qed.

Lemma Q40_group_delta (g : list F) : firstn 2 (Q40_group g) = pack_e (delta_of g).
Proof.
  unfold Q40_group.
  rewrite firstn_app, pack_e_length. cbn [Nat.sub firstn].
  rewrite app_nil_r. apply firstn_all2. rewrite pack_e_length. lia.
Qed.

Lemma Q40_group_byte (g : list F) (i : nat) :
  (i < 16)%nat -> nth (2 + i) (Q40_group g) 0 = Q40_byte g i.
Proof.
  intros Hi. unfold Q40_group.
  rewrite app_nth2 by (rewrite pack_e_length; lia).
  rewrite pack_e_length.
  replace (2 + i - 2)%nat with i by lia.
  rewrite (nth_indep _ 0 (Q40_byte g O)) by (rewrite length_map, length_seq; exact Hi).
  rewrite (map_nth (Q40_byte g)), seq_nth by exact Hi. reflexivity.
Qed.

Lemma bytes_written_write (b : list Z) (f : File) :
  bytes_written (file_write b f) = bytes_written f + Z.of_nat (length b).
Proof.
  unfold bytes_written, file_write. cbn [wlog].
  induction (wlog f) as [| w l IH]; cbn [app fold_right snd]; lia.
Qed.

Lemma write_all_bytes (bufs : list (list Z)) :
  forall f : File,
    bytes_written (write_all bufs f)
    = bytes_written f + Z.of_nat (length (concat bufs))
    /\ pos (write_all bufs f) = pos f + Z.of_nat (length (concat bufs)).
Proof.
  induction bufs as [| b bufs IH]; intros f.
  - cbn. lia.
  - rewrite write_all_cons. destruct (IH (file_write b f)) as [IHb IHp].
    rewrite IHb, IHp, bytes_written_write. cbn [concat pos file_write].
    rewrite length_app. lia.
Qed.

Lemma Q40_groups_length (gs : list (list F)) :
  Z.of_nat (length (concat (map Q40_group gs))) = 18 * Z.of_nat (length gs).
Proof.
  induction gs as [| g gs IH]; [reflexivity |].
  cbn [map concat length]. rewrite length_app, Q40_group_length. lia.
Qed.

(** The quantizer on an array of finite groups, as one equation. *)
Lemma quantizeQ40_Ok (x : list F) (f : File) :
  Z.of_nat (length x) mod 32 = 0 ->
  forallb finite_group (reshape 32 x) = true ->
  quantizeQ40 x f
  = (Ok (Z.of_nat (length x) / 32 * 18),
     write_all (map Q40_group (reshape 32 x)) f).
Proof.
  intros Hmod Hfin. unfold quantizeQ40.
  rewrite Hmod. cbn [Z.eqb negb].
  rewrite np_where_absMax. unfold enumerate.
  rewrite (for_groups_Ok (map absMax_of (reshape 32 x)) (reshape 32 x) 0 0 f).
  - rewrite reshape_length, Nat2Z.inj_div. f_equal. f_equal.
    change (Z.of_nat 32) with 32. lia.
  - intros j Hj. cbn [Nat.add].
    rewrite (nth_indep _ f_zero (absMax_of [])) by (rewrite length_map; exact Hj).
    apply (map_nth absMax_of).
  - apply reshape_group_length. lia.
  - exact Hfin.
Qed.
End ReshapeFacts.

Section QuantizerClaims.
Context {F : Type} {FA : FloatArith F} {FP : FloatPack F}.

(** C1 (amended).  For every input array whose length is a multiple of 32
    and whose scaled values are all finite, [quantizeQ40] returns
    [(L/32)*18] and writes, for each consecutive group of 32 values, the
    18 bytes of the specification: [absMax] is [gmin] when [-gmin > gmax]
    and [gmax] otherwise, [delta = absMax / -8], the inverse scale is 0
    when [delta] is 0 and [1/delta] otherwise, the first two bytes hold
    [delta] in half precision, and byte [i] holds
    [min(15, trunc(group[i]*invScale + 8.5))] in its low nibble and the
    same for [group[i+16]] in its high nibble. *)
Theorem quantizeQ40_groups (x : list F) (f : File) :
  Z.of_nat (length x) mod 32 = 0 ->
  forallb finite_group (reshape 32 x) = true ->
  quantizeQ40 x f
  = (Ok (Z.of_nat (length x) / 32 * 18),
     write_all (map Q40_group (reshape 32 x)) f)
  /\ (forall k j, (k < Nat.div (length x) 32)%nat -> (j < 32)%nat ->
        nth j (nth k (reshape 32 x) []) f_zero = nth (32 * k + j) x f_zero)
  /\ (forall g, In g (reshape 32 x) ->
        absMax_of g
        = (if fgt (fneg (np_min g)) (np_max g) then np_min g else np_max g)
        /\ delta_of g = fdiv (absMax_of g) f_neg8
        /\ invScale_of g
           = (if truthy (delta_of g) then fdiv f_one (delta_of g) else f_zero)
        /\ length (Q40_group g) = 18%nat
        /\ firstn 2 (Q40_group g) = pack_e (delta_of g)
        /\ forall i, (i < 16)%nat ->
             let lo := Z.min 15 (trunc_val
                         (fadd (fmul (nth i g f_zero) (invScale_of g)) f_8_5)) in
             let hi := Z.min 15 (trunc_val
                         (fadd (fmul (nth (i + 16) g f_zero) (invScale_of g)) f_8_5)) in
             let b := nth (2 + i) (Q40_group g) 0 in
             b = Z.lor (Z.land lo 15) (Z.shiftl (Z.land hi 15) 4)
             /\ b mod 16 = lo mod 16 /\ b / 16 = hi mod 16).
Proof.
  intros Hmod Hfin. split; [| split].
  - apply quantizeQ40_Ok; assumption.
  - intros k j Hk Hj. apply reshape_elements; assumption.
  - intros g _.
    split; [reflexivity |]. split; [reflexivity |]. split; [reflexivity |].
    split; [apply Q40_group_length |]. split; [apply Q40_group_delta |].
    intros i Hi lo hi b. subst b. rewrite Q40_group_byte by exact Hi.
    split; [reflexivity |].
    split; [apply nibble_byte_low | apply nibble_byte_high].
Qed.

Lemma concat_fixed_length {A B} (w : nat) (p : A -> list B) (d : list A) :
  (forall a, length (p a) = w) ->
  length (concat (map p d)) = (w * length d)%nat.
Proof.
  intros Hw. induction d as [| a d IH]; cbn [map concat length]; [lia |].
  rewrite length_app, Hw, IH. lia.
Qed.

(** C4 (amended).  For each of the three encodings and every tensor of [n]
    elements (for q40: [n] a multiple of 32 and every scaled value
    finite), [exportTensor] returns [getBytes n enc] and that many bytes
    reach the file. *)
Theorem exportTensor_getBytes (tensor : @Tensor F) (floatType : string) (f : File) :
  In floatType ["float32"; "float16"; "q40"] ->
  (floatType = "q40" ->
     Z.of_nat (length (data tensor)) mod 32 = 0
     /\ forallb finite_group (reshape 32 (data tensor)) = true) ->
  exists (b : Z) (f' : File),
    exportTensor tensor floatType f = (Ok b, f')
    /\ getBytes (PInt (Z.of_nat (length (data tensor)))) floatType = Ok b
    /\ bytes_written f' = bytes_written f + b
    /\ pos f' = pos f + b.
Proof.
  intros Hin Hq.
  destruct Hin as [<- | [<- | [<- | []]]].
  - exists (Z.of_nat (length (data tensor)) * 4), (file_write (concat (map pack_f (data tensor))) f).
    unfold exportTensor, getBytes, bind, write, ret. cbn [String.eqb Ascii.eqb Bool.eqb pint pmul].
    rewrite bytes_written_write. cbn [pos file_write].
    rewrite (concat_fixed_length 4 pack_f) by apply pack_f_length.
    repeat split; try (f_equal; f_equal); lia.
  - exists (Z.of_nat (length (data tensor)) * 2), (file_write (concat (map pack_e (data tensor))) f).
    unfold exportTensor, getBytes, bind, write, ret. cbn [String.eqb Ascii.eqb Bool.eqb pint pmul].
    rewrite bytes_written_write. cbn [pos file_write].
    rewrite (concat_fixed_length 2 pack_e) by apply pack_e_length.
    repeat split; try (f_equal; f_equal); lia.
  - destruct (Hq eq_refl) as [Hmod Hfin].
    exists (Z.of_nat (length (data tensor)) / 32 * 18),
           (write_all (map Q40_group (reshape 32 (data tensor))) f).
    unfold exportTensor, getBytes. cbn [String.eqb Ascii.eqb Bool.eqb].
    rewrite quantizeQ40_Ok by assumption.
    destruct (write_all_bytes (map Q40_group (reshape 32 (data tensor))) f) as [Hb Hp].
    rewrite Hb, Hp, Q40_groups_length, reshape_length, Nat2Z.inj_div.
    change (Z.of_nat 32) with 32.
    repeat split; try reflexivity; lia.
Qed.
End QuantizerClaims.

(** C1, the claim as stated fails: a group that holds an infinity makes
    [int] raise, and nothing is emitted for it. *)
Lemma quantizeQ40_infinity_raises :
  Z.of_nat (length B32.inf_group) mod 32 = 0
  /\ quantizeQ40 B32.inf_group file_empty = (Raise ValueError, file_empty).
Proof. split; vm_compute; reflexivity. Qed.

Lemma quantizeQ40_groups_witness :
  Z.of_nat (length B32.ramp) mod 32 = 0
  /\ forallb finite_group (reshape 32 B32.ramp) = true
  /\ quantizeQ40 B32.ramp file_empty
     = (Ok 18,
        mkFile 18 [(0, [192; 193; 91; 90; 90; 74; 73; 57; 57; 56; 40; 40; 39;
                        23; 23; 22; 6; 6])]).
Proof.
  split; [reflexivity |]. split; [vm_compute; reflexivity |].
  destruct (quantizeQ40_groups B32.ramp file_empty) as [Hq _];
    [reflexivity | vm_compute; reflexivity |].
  rewrite Hq. vm_compute. reflexivity.
Defined.

(** C4, the claim as stated fails: the q40 size of 32 elements is 18 bytes,
    but on a group that holds an infinity [exportTensor] raises and no byte
    reaches the file. *)
Lemma exportTensor_infinity_raises :
  Z.of_nat (length B32.inf_group) mod 32 = 0
  /\ getBytes (PInt 32) "q40" = Ok 18
  /\ exportTensor (mkTensor [32%nat] B32.inf_group) "q40" file_empty
     = (Raise ValueError, file_empty).
Proof. repeat split; vm_compute; reflexivity. Qed.

Lemma exportTensor_getBytes_witness :
  In "q40" ["float32"; "float16"; "q40"]
  /\ Z.of_nat (length B32.ramp) mod 32 = 0
  /\ forallb finite_group (reshape 32 B32.ramp) = true
  /\ exists (b : Z) (f' : File),
       exportTensor (mkTensor [32%nat] B32.ramp) "q40" file_empty = (Ok b, f')
       /\ getBytes (PInt 32) "q40" = Ok b
       /\ bytes_written f' = b
       /\ pos f' = b.
Proof.
  split; [right; right; left; reflexivity |].
  split; [reflexivity |]. split; [vm_compute; reflexivity |].
  apply (exportTensor_getBytes (mkTensor [32%nat] B32.ramp) "q40" file_empty).
  - right; right; left; reflexivity.
  - intros _. split; [reflexivity | vm_compute; reflexivity].
Defined.

(** ** The quantizer in exact arithmetic *)
Module ExactFacts.
Import Exact.
Local Open Scope Q_scope.

Lemma qmax_ge (x y : Q) : x <= qmax x y /\ y <= qmax x y.
Proof.
  unfold qmax. destruct (Qle_bool x y) eqn:E.
  - apply Qle_bool_iff in E. split; [exact E | apply Qle_refl].
  - split; [apply Qle_refl |].
    apply Qlt_le_weak, Qnot_le_lt. intros Hle.
    apply Qle_bool_iff in Hle. congruence.
Qed.

Lemma qmin_le (x y : Q) : qmin x y <= x /\ qmin x y <= y.
Proof.
  unfold qmin. destruct (Qle_bool y x) eqn:E.
  - apply Qle_bool_iff in E. split; [exact E | apply Qle_refl].
  - split; [apply Qle_refl |].
    apply Qlt_le_weak, Qnot_le_lt. intros Hle.
    apply Qle_bool_iff in Hle. congruence.
Qed.

Lemma fold_qmax_ge (vs : list Q) :
  forall v, v <= fold_left qmax vs v
            /\ forall u, In u vs -> u <= fold_left qmax vs v.
Proof.
  induction vs as [| w vs IH]; intros v; cbn [fold_left].
  - split; [apply Qle_refl | intros u []].
  - destruct (IH (qmax v w)) as [Hacc Hin].
    destruct (qmax_ge v w) as [Hv Hw].
    split; [eapply Qle_trans; eassumption |].
    intros u [<- | Hu]; [eapply Qle_trans; eassumption | apply Hin, Hu].
Qed.

Lemma fold_qmin_le (vs : list Q) :
  forall v, fold_left qmin vs v <= v
            /\ forall u, In u vs -> fold_left qmin vs v <= u.
Proof.
  induction vs as [| w vs IH]; intros v; cbn [fold_left].
  - split; [apply Qle_refl | intros u []].
  - destruct (IH (qmin v w)) as [Hacc Hin].
    destruct (qmin_le v w) as [Hv Hw].
    split; [eapply Qle_trans; eassumption |].
    intros u [<- | Hu]; [eapply Qle_trans; eassumption | apply Hin, Hu].
Qed.

Lemma np_max_ge (g : list Q) (v : Q) : In v g -> v <= np_max g.
Proof.
  destruct g as [| w vs]; [intros [] |].
  cbn [np_max]. change (@fmax Q arith) with qmax.
  destruct (fold_qmax_ge vs w) as [Hw Hvs].
  intros [<- | Hv]; [exact Hw | apply Hvs, Hv].
Qed.

Lemma np_min_le (g : list Q) (v : Q) : In v g -> np_min g <= v.
Proof.
  destruct g as [| w vs]; [intros [] |].
  cbn [np_min]. change (@fmin Q arith) with qmin.
  destruct (fold_qmin_le vs w) as [Hw Hvs].
  intros [<- | Hv]; [exact Hw | apply Hvs, Hv].
Qed.

Lemma scaled_eq (g : list Q) (v : Q) :
  scaled g v
  = v * (if negb (Qeq_bool (absMax_of g / (-8 # 1)) 0)
         then 1 / (absMax_of g / (-8 # 1)) else 0) + (17 # 2).
Proof. reflexivity. Qed.

Lemma absMax_eq (g : list Q) :
  absMax_of g
  = if negb (Qle_bool (- np_min g) (np_max g)) then np_min g else np_max g.
Proof. reflexivity. Qed.

(** In exact arithmetic the value with the largest magnitude maps to 0.5
    and every other value of the group lies above it. *)
Lemma scaled_ge_half (g : list Q) (v : Q) : In v g -> (1 # 2) <= scaled g v.
Proof.
  intros Hv. rewrite scaled_eq.
  pose proof (np_max_ge g v Hv) as Hmax.
  pose proof (np_min_le g v Hv) as Hmin.
  destruct (Qeq_bool (absMax_of g / (-8 # 1)) 0) eqn:Ed; cbn [negb].
  - lra.
  - apply Qeq_bool_neq in Ed.
    assert (Ha : ~ absMax_of g == 0).
    { intros Hz. apply Ed. rewrite Hz. reflexivity. }
    assert (Hinv : 1 / (absMax_of g / (-8 # 1)) == (-8 # 1) * / absMax_of g).
    { field. exact Ha. }
    rewrite Hinv.
    pose proof (Qmult_inv_r _ Ha) as Hr.
    revert Ha Hr. rewrite absMax_eq.
    destruct (Qle_bool (- np_min g) (np_max g)) eqn:Ec; cbn [negb]; intros Ha Hr.
    + apply Qle_bool_iff in Ec.
      assert (0 < np_max g) by (destruct (Qlt_le_dec 0 (np_max g)); [assumption | exfalso; apply Ha; lra]).
      assert (0 < / np_max g) by nra.
      nra.
    + assert (np_max g < - np_min g).
      { apply Qnot_le_lt. intros Hle. apply Qle_bool_iff in Hle. congruence. }
      assert (np_min g < 0) by lra.
      assert (/ np_min g < 0) by nra.
      nra.
Qed.

Lemma Qtrunc_nonneg (q : Q) : 0 <= q -> (0 <= Qtrunc q)%Z.
Proof.
  intros Hq. unfold Qtrunc. apply Z.quot_pos; [| lia].
  unfold Qle in Hq. cbn in Hq. lia.
Qed.

Lemma q_index_range (g : list Q) (v : Q) :
  In v g -> (0 <= q_index g v <= 15)%Z.
Proof.
  intros Hv. unfold q_index, trunc_val. cbn [ftrunc arith].
  pose proof (scaled_ge_half g v Hv) as Hs.
  assert (0 <= Qtrunc (scaled g v))%Z by (apply Qtrunc_nonneg; lra).
  lia.
Qed.
End ExactFacts.

(** ** The quantizer in rounded arithmetic *)
Module RoundedFacts.
Import Exact.
Local Open Scope Q_scope.

Section Rnd.
Variable rnd : Q -> Q.
Hypothesis Hrnd : Rounded.accurate rnd.

Lemma rnd_pos (x : Q) : 0 <= x -> (63 # 64) * x <= rnd x /\ rnd x <= (65 # 64) * x.
Proof.
  intros Hx. pose proof (Hrnd x) as Hr.
  rewrite (Qabs_pos x Hx) in Hr.
  apply Qabs_Qle_condition in Hr. destruct Hr. split; lra.
Qed.

Lemma rnd_neg (x : Q) : x <= 0 -> (65 # 64) * x <= rnd x /\ rnd x <= (63 # 64) * x.
Proof.
  intros Hx. pose proof (Hrnd x) as Hr.
  rewrite (Qabs_neg x Hx) in Hr.
  apply Qabs_Qle_condition in Hr. destruct Hr. split; lra.
Qed.

(** The chain [delta], [id], product, sum of the quantizer for a value [v]
    on the side of [a], the extreme of largest magnitude. *)
Lemma rounded_chain (a v : Q) :
  ~ a == 0 ->
  (0 < a -> v <= a) -> (a < 0 -> a <= v) ->
  ~ rnd (a / (-8 # 1)) == 0 ->
  0 <= rnd (rnd (v * rnd (1 / rnd (a / (-8 # 1)))) + (17 # 2)).
Proof.
  intros Ha Hpos Hneg Hd.
  set (delta := rnd (a / (-8 # 1))) in *.
  set (id := rnd (1 / delta)).
  assert (Hx1 : a / (-8 # 1) == - (a * (1 # 8))) by field.
  pose proof (Qmult_inv_r delta Hd) as Hinv.
  assert (Hx2 : 1 / delta == / delta) by (field; exact Hd).
  destruct (Qlt_le_dec 0 a) as [Hap | Han].
  - specialize (Hpos Hap). clear Hneg.
    destruct (rnd_neg (a / (-8 # 1))) as [Hd1 Hd2]; [lra |].
    fold delta in Hd1, Hd2.
    assert (Hdn : delta < 0) by lra.
    assert (Hin : / delta < 0) by nra.
    destruct (rnd_neg (1 / delta)) as [Hi1 Hi2]; [lra |].
    fold id in Hi1, Hi2.
    assert (Hidn : id < 0) by lra.
    assert (Hb : a * (- id) <= (520 # 63)).
    { assert (H4' : ((63 # 64) * (a * (1 # 8))) * (- / delta)
                    <= (- delta) * (- / delta))
        by (apply Qmult_le_compat_r; lra).
      assert (H4 : a * (- / delta) <= (512 # 63)) by lra.
      assert (H5 : a * (- id) <= a * ((65 # 64) * (- / delta)))
        by (rewrite !(Qmult_comm a); apply Qmult_le_compat_r; lra).
      lra. }
    destruct (Qlt_le_dec v 0) as [Hv | Hv].
    + assert (0 <= v * id) by nra.
      destruct (rnd_pos (v * id)) as [Hp1 _]; [assumption |].
      destruct (rnd_pos (rnd (v * id) + (17 # 2))) as [Hs1 _]; nra.
    + assert (Hx3 : - (520 # 63) <= v * id) by nra.
      assert (v * id <= 0) by nra.
      destruct (rnd_neg (v * id)) as [Hp1 _]; [assumption |].
      destruct (rnd_pos (rnd (v * id) + (17 # 2))) as [Hs1 _]; lra.
  - assert (Han' : a < 0).
    { destruct (Qlt_le_dec a 0); [assumption | exfalso; apply Ha; lra]. }
    specialize (Hneg Han'). clear Hpos.
    destruct (rnd_pos (a / (-8 # 1))) as [Hd1 Hd2]; [lra |].
    fold delta in Hd1, Hd2.
    assert (Hdp : 0 < delta) by lra.
    assert (Hin : 0 < / delta) by nra.
    destruct (rnd_pos (1 / delta)) as [Hi1 Hi2]; [lra |].
    fold id in Hi1, Hi2.
    assert (Hidp : 0 < id) by lra.
    assert (Hb : (- a) * id <= (520 # 63)).
    { assert (H4' : ((63 # 64) * ((- a) * (1 # 8))) * / delta <= delta * / delta)
        by (apply Qmult_le_compat_r; lra).
      assert (H4 : (- a) * / delta <= (512 # 63)) by lra.
      assert (H5 : (- a) * id <= (- a) * ((65 # 64) * / delta))
        by (rewrite !(Qmult_comm (- a)); apply Qmult_le_compat_r; lra).
      lra. }
    destruct (Qlt_le_dec 0 v) as [Hv | Hv].
    + assert (0 <= v * id) by nra.
      destruct (rnd_pos (v * id)) as [Hp1 _]; [assumption |].
      destruct (rnd_pos (rnd (v * id) + (17 # 2))) as [Hs1 _]; nra.
    + assert (Hx3 : - (520 # 63) <= v * id) by nra.
      assert (v * id <= 0) by nra.
      destruct (rnd_neg (v * id)) as [Hp1 _]; [assumption |].
      destruct (rnd_pos (rnd (v * id) + (17 # 2))) as [Hs1 _]; lra.
Qed.

Lemma rnd_zero (x : Q) : x == 0 -> rnd x == 0.
Proof.
  intros Hx. destruct (rnd_pos x) as [H1 H2]; [lra |]. lra.
Qed.

Lemma rounded_scaled_eq (g : list Q) (v : Q) :
  @scaled Q (Rounded.arith rnd) g v
  = rnd (rnd (v * (if negb (Qeq_bool (rnd (@absMax_of Q (Rounded.arith rnd) g / (-8 # 1))) 0)
                   then rnd (1 / rnd (@absMax_of Q (Rounded.arith rnd) g / (-8 # 1)))
                   else 0))
         + (17 # 2)).
Proof. reflexivity. Qed.

(** Rounding does not change which extreme is chosen. *)
Lemma rounded_absMax (g : list Q) :
  @absMax_of Q (Rounded.arith rnd) g = @absMax_of Q Exact.arith g.
Proof. reflexivity. Qed.

(** With rounding after every operation the scaled value stays
    non-negative, so its truncation does too. *)
Lemma rounded_scaled_nonneg (g : list Q) (v : Q) :
  In v g -> 0 <= @scaled Q (Rounded.arith rnd) g v.
Proof.
  intros Hv. rewrite rounded_scaled_eq, rounded_absMax.
  pose proof (ExactFacts.np_max_ge g v Hv) as Hmax.
  pose proof (ExactFacts.np_min_le g v Hv) as Hmin.
  destruct (Qeq_bool (rnd (absMax_of g / (-8 # 1))) 0) eqn:Ed; cbn [negb].
  - destruct (rnd_pos (rnd (v * 0) + (17 # 2))) as [H1 _].
    + pose proof (rnd_zero (v * 0) ltac:(lra)). lra.
    + pose proof (rnd_zero (v * 0) ltac:(lra)). lra.
  - apply Qeq_bool_neq in Ed.
    assert (Ha : ~ absMax_of g == 0).
    { intros Hz. apply Ed. apply rnd_zero. rewrite Hz. reflexivity. }
    apply rounded_chain; [exact Ha | | | exact Ed].
    + intros Hpos. revert Hpos. rewrite ExactFacts.absMax_eq.
      destruct (Qle_bool (- np_min g) (np_max g)) eqn:Ec; cbn [negb]; intros Hpos.
      * exact Hmax.
      * assert (np_max g < - np_min g).
        { apply Qnot_le_lt. intros Hle. apply Qle_bool_iff in Hle. congruence. }
        lra.
    + intros Hneg. revert Hneg. rewrite ExactFacts.absMax_eq.
      destruct (Qle_bool (- np_min g) (np_max g)) eqn:Ec; cbn [negb]; intros Hneg.
      * apply Qle_bool_iff in Ec. lra.
      * exact Hmin.
Qed.

Lemma rounded_q_index_range (g : list Q) (v : Q) :
  In v g -> (0 <= @q_index Q (Rounded.arith rnd) g v <= 15)%Z.
Proof.
  intros Hv. unfold q_index, trunc_val. cbn [ftrunc Rounded.arith].
  pose proof (rounded_scaled_nonneg g v Hv) as Hs.
  pose proof (ExactFacts.Qtrunc_nonneg _ Hs). lia.
Qed.
End Rnd.
End RoundedFacts.

Section NibbleFacts.
Context {F : Type} {FA : FloatArith F}.

(** What one iteration of the inner loop appends: both truncations
    succeeded, and the byte holds the two indices modulo 16. *)
Lemma quantize_pair_inv (group : list F) (id : F) (buffer buffer' : list Z)
    (n n' : Z) (i : nat) :
  quantize_pair group id (buffer, n) i = Ok (buffer', n') ->
  exists t0 t1 b,
    ftrunc (fadd (fmul (nth i group f_zero) id) f_8_5) = Ok t0
    /\ ftrunc (fadd (fmul (nth (i + 16) group f_zero) id) f_8_5) = Ok t1
    /\ buffer' = buffer ++ [b]
    /\ b mod 16 = Z.min 15 t0 mod 16
    /\ b / 16 = Z.min 15 t1 mod 16.
Proof.
  unfold quantize_pair.
  destruct (ftrunc (fadd (fmul (nth i group f_zero) id) f_8_5)) as [t0 |] eqn:E0;
    [| discriminate].
  destruct (ftrunc (fadd (fmul (nth (i + 16) group f_zero) id) f_8_5)) as [t1 |] eqn:E1;
    [| discriminate].
  cbn [obind]. rewrite !py_min_spec.
  fold (nibble_byte (Z.min 15 t0) (Z.min 15 t1)).
  rewrite pack_B_nibble_byte. cbn [obind]. intros [= <- <-].
  exists t0, t1, (nibble_byte (Z.min 15 t0) (Z.min 15 t1)).
  repeat split; [apply nibble_byte_low | apply nibble_byte_high].
Qed.
End NibbleFacts.




(** ** Sizes *)

(** C3 (amended).  For every element count [n], [getBytes] returns [4*n]
    for float32, [2*n] for float16 and [floor(n/32)*18] for q40; it never
    fails on a known encoding, whatever [n mod 32] is. *)
Theorem getBytes_sizes (n : Z) :
  getBytes (PInt n) "float32" = Ok (4 * n)
  /\ getBytes (PInt n) "float16" = Ok (2 * n)
  /\ getBytes (PInt n) "q40" = Ok (n / 32 * 18)
  /\ (n mod 32 = 0 -> 32 * (n / 32) = n).
Proof.
  unfold getBytes. cbn [String.eqb Ascii.eqb Bool.eqb pfloordiv is_zero Z.eqb obind pmul pint].
  repeat split; try (f_equal; lia).
  intros Hmod. pose proof (Z.div_mod n 32 ltac:(lia)). lia.
Qed.

(** C3, the claim as stated fails: 33 is no multiple of 32, and [getBytes]
    returns 18 for it instead of failing. *)
Lemma getBytes_q40_no_check :
  33 mod 32 <> 0 /\ getBytes (PInt 33) "q40" = Ok 18.
Proof. split; [discriminate | reflexivity]. Qed.

(** ** What a successful export returns *)
Section ExportFacts.
Context {F : Type} {FA : FloatArith F} {FP : FloatPack F}.

Lemma for_range_inv (group : list F) (id : F) (idxs : list nat) :
  forall (buffer buffer' : list Z) (n n' : Z),
    for_range (quantize_pair group id) idxs (buffer, n) = Ok (buffer', n') ->
    length buffer' = (length buffer + length idxs)%nat
    /\ n' = n + Z.of_nat (length idxs).
Proof.
  induction idxs as [| i idxs IH]; intros buffer buffer' n n' Hr.
  - cbn in Hr. injection Hr as <- <-. cbn [length]. lia.
  - cbn [for_range] in Hr.
    destruct (quantize_pair group id (buffer, n) i) as [[b1 n1] |] eqn:E;
      [| discriminate].
    cbn [obind] in Hr.
    destruct (quantize_pair_inv _ _ _ _ _ _ _ E) as (t0 & t1 & b & _ & _ & -> & _ & _).
    assert (n1 = n + 1) as ->.
    { unfold quantize_pair in E.
      destruct (ftrunc _) in E; [| discriminate]. cbn [obind] in E.
      destruct (ftrunc _) in E; [| discriminate]. cbn [obind] in E.
      destruct (pack_B _) in E; [| discriminate]. cbn [obind] in E.
      congruence. }
    destruct (IH _ _ _ _ Hr) as [Hl Hn].
    rewrite Hl, Hn, length_app. cbn [length]. lia.
Qed.

Lemma quantize_group_inv (absMax : list F) (nBytes n : Z) (gi : nat)
    (g : list F) (f f' : File) :
  quantize_group absMax nBytes gi g f = (Ok n, f') ->
  n = nBytes + 18 /\ exists b, length b = 18%nat /\ f' = file_write b f.
Proof.
  unfold quantize_group, bind, lift.
  destruct (for_range _ _ _) as [[b nb] |] eqn:E; [| discriminate].
  apply for_range_inv in E as [Hl Hn].
  cbn [fst snd write ret]. intros [= <- <-].
  rewrite pack_e_length in Hl. cbn [length seq] in Hl, Hn.
  split; [lia |]. exists b. split; [exact Hl | reflexivity].
Qed.

Lemma for_groups_inv (absMax : list F) (gs : list (nat * list F)) :
  forall (nBytes n : Z) (f f' : File),
    for_groups absMax gs nBytes f = (Ok n, f') ->
    n = nBytes + 18 * Z.of_nat (length gs)
    /\ bytes_written f' = bytes_written f + 18 * Z.of_nat (length gs).
Proof.
  induction gs as [| [gi g] gs IH]; intros nBytes n f f' Hr.
  - cbn in Hr. injection Hr as <- <-. cbn [length]. lia.
  - cbn [for_groups] in Hr. unfold bind in Hr.
    destruct (quantize_group absMax nBytes gi g f) as [[n1 |] f1] eqn:E;
      [| discriminate].
    apply quantize_group_inv in E as [-> (b & Hb & ->)].
    apply IH in Hr as [-> Hw].
    rewrite Hw, bytes_written_write, Hb. cbn [length]. lia.
Qed.

Lemma quantizeQ40_inv (x : list F) (n : Z) (f f' : File) :
  quantizeQ40 x f = (Ok n, f') ->
  0 <= n /\ bytes_written f' = bytes_written f + n.
Proof.
  unfold quantizeQ40.
  destruct (negb _); [discriminate |].
  intros Hr. apply for_groups_inv in Hr as [-> Hw]. lia.
Qed.

(** [exportTensor] returns the number of bytes it wrote. *)
Lemma exportTensor_inv (tensor : @Tensor F) (floatType : string) (n : Z)
    (f f' : File) :
  exportTensor tensor floatType f = (Ok n, f') ->
  0 <= n /\ bytes_written f' = bytes_written f + n.
Proof.
  unfold exportTensor, bind, write, ret.
  destruct (String.eqb floatType "float16").
  { intros [= <- <-]. rewrite bytes_written_write. lia. }
  destruct (String.eqb floatType "float32").
  { intros [= <- <-]. rewrite bytes_written_write. lia. }
  destruct (String.eqb floatType "q40"); [apply quantizeQ40_inv | discriminate].
Qed.
End ExportFacts.

(** ** The write scheduler *)
Section SchedulerFacts.
Context {F : Type} {FA : FloatArith F} {FP : FloatPack F}.

Lemma seek_inv (o : Z) (f f' : File) (u : unit) :
  seek o f = (Ok u, f') ->
  0 <= o /\ f' = mkFile o (wlog f) /\ bytes_written f' = bytes_written f.
Proof.
  unfold seek, file_seek. destruct u. destruct (Z.ltb_spec o 0); [discriminate |].
  intros [= <-]. split; [lia | split; reflexivity].
Qed.

Lemma seek_raise (o : Z) (f f' : File) (e : error) :
  seek o f = (Raise e, f') -> f' = f.
Proof.
  unfold seek, file_seek. destruct (o <? 0); [| discriminate].
  intros [= _ <-]. reflexivity.
Qed.

Lemma seek_export_inv (o : Z) (tensor : @Tensor F) (floatType : string)
    (size p : Z) (r : option Z * Z) (f f' : File) :
  seek_export o tensor floatType size p f = (Ok r, f') ->
  exists n, r = (Some size, p + n) /\ 0 <= n
            /\ bytes_written f' = bytes_written f + n
            /\ exportTensor tensor floatType (mkFile o (wlog f)) = (Ok n, f').
Proof.
  unfold seek_export, bind, ret.
  destruct (seek o f) as [[[] |] f1] eqn:Es; [| discriminate].
  apply seek_inv in Es as (_ & -> & Hb).
  destruct (exportTensor _ _ _) as [[n |] f2] eqn:Ee; [| discriminate].
  intros [= <- <-]. exists n.
  destruct (exportTensor_inv _ _ _ _ _ Ee) as [Hn Hw].
  repeat split; assumption.
Qed.
End SchedulerFacts.



Lemma bind_lift_Ok {A B} (a : A) (k : A -> IO B) (f : File) :
  bind (lift (Ok a)) k f = k a f.
Proof. reflexivity. Qed.

Lemma bind_lift_Raise {A B} (e : error) (k : A -> IO B) (f : File) :
  bind (lift (Raise e)) k f = (Raise e, f).
Proof. reflexivity. Qed.

Lemma bind_run {A B} (c : IO A) (k : A -> IO B) (f : File) :
  bind c k f
  = match c f with
    | (Ok a, f1) => k a f1
    | (Raise e, f1) => (Raise e, f1)
    end.
Proof. reflexivity. Qed.

Ltac io_ok := cbv beta iota; rewrite bind_lift_Ok; cbv beta iota.
Ltac io_raise := cbv beta iota; rewrite bind_lift_Raise; discriminate.

Section DispatchFacts.
Context {F : Type} {FA : FloatArith F} {FP : FloatPack F}.

(** The per-layer branch, once the name has parsed and the table has its
    three entries. *)
Lemma dispatch_layers (env : Env) (st : Sched) (layerName si field : string)
    (tensor : @Tensor F) (p i size off total : Z) (f : File) :
  split_dot 2 layerName = ["layers"; si; field] ->
  py_int si = Ok i ->
  dict_get field (blockOffsets env) = Ok size ->
  dict_get (field +:+ "_offset") (blockOffsets env) = Ok off ->
  dict_get "_total" (blockOffsets env) = Ok total ->
  dispatch env st layerName tensor p f
  = seek_export
      (headerOffset env + tokenEmbeddingBytes env + total * i + off + p)
      tensor
      (if String.eqb field "attention_norm.weight"
          || String.eqb field "ffn_norm.weight"
       then "float32" else targetFloatType env)
      size p f.
Proof.
  intros Hs Hi Hsz Hoff Htot. unfold dispatch. rewrite Hs.
  cbn [list_item nth_error]. io_ok.
  change (String.eqb "layers" "layers") with true. cbv iota.
  io_ok. rewrite Hi. io_ok. io_ok.
  rewrite Hsz, Hoff, Htot. io_ok. io_ok. io_ok.
  reflexivity.
Qed.

Lemma split_dot_head (n : nat) (s : string) :
  exists p0 rest, split_dot n s = p0 :: rest.
Proof.
  destruct n as [| n]; cbn [split_dot]; [eauto |].
  destruct (cut_dot s) as [[a b] |]; eauto.
Qed.

(** Every successful branch either is the [rope.freqs] skip or wrote [n]
    bytes and advanced the progress by [n]. *)
Lemma dispatch_inv (env : Env) (st : Sched) (layerName : string)
    (tensor : @Tensor F) (p : Z) (size : option Z) (p' : Z) (f f' : File) :
  dispatch env st layerName tensor p f = (Ok (size, p'), f') ->
  (layerName = "rope.freqs" /\ p' = -1 /\ f' = f /\ size = layerSize st)
  \/ (exists n s, size = Some s /\ 0 <= n /\ p' = p + n
                  /\ bytes_written f' = bytes_written f + n).
Proof.
  unfold dispatch.
  destruct (split_dot_head 2 layerName) as (p0 & rest & ->).
  cbn [list_item nth_error]. io_ok.
  destruct (String.eqb p0 "layers").
  - destruct rest as [| p1 rest]; cbn [list_item nth_error]; [io_raise | io_ok].
    destruct (py_int p1) as [index |]; [io_ok | io_raise].
    destruct rest as [| p2 rest]; cbn [list_item nth_error]; [io_raise | io_ok].
    destruct (dict_get p2 (blockOffsets env)) as [lsize |]; [io_ok | io_raise].
    destruct (dict_get (p2 +:+ "_offset") (blockOffsets env)) as [off |];
      [io_ok | io_raise].
    destruct (dict_get "_total" (blockOffsets env)) as [total |]; [io_ok | io_raise].
    intros Hr. right.
    apply (seek_export_inv _ tensor _ lsize p (size, p') f f') in Hr
      as (n & [= -> ->] & Hn & Hw & _).
    exists n, lsize. repeat split; assumption.
  - destruct (String.eqb layerName "tok_embeddings.weight").
    { intros Hr. right.
      apply (seek_export_inv _ tensor _ (tokenEmbeddingBytes env) p (size, p') f f') in Hr
        as (n & [= -> ->] & Hn & Hw & _).
      exists n, (tokenEmbeddingBytes env). repeat split; assumption. }
    destruct (String.eqb layerName "norm.weight").
    { intros Hr. right.
      apply (seek_export_inv _ tensor _ (rmsFinalBytes env) p (size, p') f f') in Hr
        as (n & [= -> ->] & Hn & Hw & _).
      exists n, (rmsFinalBytes env). repeat split; assumption. }
    destruct (String.eqb_spec layerName "rope.freqs") as [-> | _].
    { unfold ret. intros [= <- <- <-]. left. repeat split. }
    destruct (String.eqb layerName "output.weight").
    { intros Hr. right.
      apply (seek_export_inv _ tensor _ (wclsBytes env) p (size, p') f f') in Hr
        as (n & [= -> ->] & Hn & Hw & _).
      exists n, (wclsBytes env). repeat split; assumption. }
    discriminate.
Qed.
End DispatchFacts.

Section ProgressClaims.
Context {F : Type} {FA : FloatArith F} {FP : FloatPack F}.

Lemma get_processed_insert (st : Sched) (name : string) (v : Z) (size : option Z) :
  get_processed (mkSched (<[name := v]> (layerProcessedBytes st)) size) name
  = if v =? 0 then 0 else v.
Proof. unfold get_processed. cbn [layerProcessedBytes]. rewrite lookup_insert_eq. reflexivity. Qed.

End ProgressClaims.



(** ** The block table *)

Lemma add_offsets_table (rms ffn q k v wo w1 w2 w3 : Z) :
  (let! r := add_offsets block_fields
               (combine block_fields [rms; ffn; q; k; v; wo; w1; w2; w3]) 0 in
   Ok (dict_set "_total" (snd r) (fst r)))
  = Ok (block_table [rms; ffn; q; k; v; wo; w1; w2; w3]).
Proof. vm_compute. reflexivity. Qed.

(** [getBlockOffsets] computes the sizes of the nine rows and lays them out
    back to back. *)
Lemma getBlockOffsets_table (params : gmap string pynum) (target : string)
    (bo : list (string * Z)) :
  getBlockOffsets params target = Ok bo ->
  exists dim n_kv_heads n_heads hidden_dim kvDim sizes,
    params !! "dim" = Some dim
    /\ params !! "n_kv_heads" = Some n_kv_heads
    /\ params !! "n_heads" = Some n_heads
    /\ params !! "hidden_dim" = Some hidden_dim
    /\ ptruediv (pmul dim n_kv_heads) n_heads = Ok kvDim
    /\ mapM (fun r => getBytes (snd r) (fst r))
            (block_rows dim kvDim hidden_dim target) = Ok sizes
    /\ length sizes = 9%nat
    /\ bo = block_table sizes.
Proof.
  unfold getBlockOffsets, getitem.
  destruct (params !! "dim") as [dim |] eqn:Hd; [| discriminate]. cbn [obind].
  destruct (params !! "n_kv_heads") as [nkv |] eqn:Hkv; [| discriminate]. cbn [obind].
  destruct (params !! "n_heads") as [nh |] eqn:Hnh; [| discriminate]. cbn [obind].
  destruct (ptruediv (pmul dim nkv) nh) as [kvDim |] eqn:Ek; [| discriminate]. cbn [obind].
  destruct (getBytes dim "float32") as [rms |] eqn:E0; [| discriminate]. cbn [obind].
  destruct (getBytes (pmul dim dim) target) as [q |] eqn:E1; [| discriminate]. cbn [obind].
  destruct (getBytes (pmul dim kvDim) target) as [k |] eqn:E2; [| discriminate]. cbn [obind].
  destruct (params !! "hidden_dim") as [hd |] eqn:Hh; [| discriminate]. cbn [obind].
  destruct (getBytes (pmul dim hd) target) as [w1 |] eqn:E3; [| discriminate]. cbn [obind].
  destruct (getBytes (pmul hd dim) target) as [w2 |] eqn:E4; [| discriminate]. cbn [obind].
  rewrite add_offsets_table. intros [= <-].
  exists dim, nkv, nh, hd, kvDim, [rms; rms; q; k; k; q; w1; w2; w1].
  split; [reflexivity |]. split; [reflexivity |]. split; [reflexivity |].
  split; [reflexivity |]. split; [exact Ek |].
  split; [| split; reflexivity].
  unfold block_rows. cbn [mapM fst snd].
  rewrite E0, E1, E2, E3, E4. reflexivity.
Qed.


Lemma block_table_lookup (sizes : list Z) (j : nat) (field : string) :
  length sizes = 9%nat ->
  nth_error block_fields j = Some field ->
  dict_get field (block_table sizes) = Ok (nth j sizes 0)
  /\ dict_get (field +:+ "_offset") (block_table sizes) = Ok (sum_Z (firstn j sizes))
  /\ dict_get "_total" (block_table sizes) = Ok (sum_Z sizes)
  /\ (String.eqb field "attention_norm.weight" || String.eqb field "ffn_norm.weight"
      = (j <? 2)%nat).
Proof.
  intros Hlen Hj.
  do 9 (destruct sizes as [| ?s sizes]; [discriminate |]).
  destruct sizes; [| discriminate]. clear Hlen.
  do 9 (destruct j as [| j];
        [injection Hj as <-; repeat split; vm_compute; reflexivity |]).
  destruct j; discriminate.
Qed.

Section OffsetClaims.
Context {F : Type} {FA : FloatArith F} {FP : FloatPack F}.

End OffsetClaims.


(** ** Unrecognized names *)

Lemma dict_get_not_in {V} (k : string) (d : list (string * V)) :
  ~ In k (dict_keys d) -> dict_get k d = Raise (KeyError k).
Proof.
  induction d as [| [k' v] d IH]; cbn [dict_get dict_keys map fst In]; [reflexivity |].
  intros Hn. destruct (String.eqb_spec k' k) as [-> | Hne].
  - exfalso. apply Hn. left. reflexivity.
  - apply IH. intros Hin. apply Hn. right. exact Hin.
Qed.

Lemma dict_get_in_keys {V} (k : string) (d : list (string * V)) (v : V) :
  dict_get k d = Ok v -> In k (dict_keys d).
Proof.
  induction d as [| [k' v'] d IH]; cbn [dict_get dict_keys map fst In]; [discriminate |].
  destruct (String.eqb_spec k' k) as [-> | Hne]; [left; reflexivity |].
  intros Hg. right. apply IH, Hg.
Qed.

Lemma block_table_keys (sizes : list Z) :
  length sizes = 9%nat ->
  dict_keys (block_table sizes)
  = block_fields ++ map (fun k => k +:+ "_offset") block_fields ++ ["_total"].
Proof.
  intros Hlen.
  do 9 (destruct sizes as [| ?s sizes]; [discriminate |]).
  destruct sizes; [| discriminate]. reflexivity.
Qed.

(** A name that is in the table without being one of the nine fields has
    no offset entry of its own. *)
Lemma block_table_no_offset (sizes : list Z) (field : string) (v : Z) :
  length sizes = 9%nat ->
  ~ In field block_fields ->
  dict_get field (block_table sizes) = Ok v ->
  dict_get (field +:+ "_offset") (block_table sizes)
  = Raise (KeyError (field +:+ "_offset")).
Proof.
  intros Hlen Hnf Hg. apply dict_get_in_keys in Hg.
  rewrite block_table_keys in Hg by exact Hlen.
  apply dict_get_not_in. rewrite block_table_keys by exact Hlen.
  apply in_app_or in Hg as [Hg | Hg]; [contradiction |].
  cbn [map block_fields app In] in Hg.
  repeat (destruct Hg as [<- | Hg];
          [cbn; intros Hin;
           repeat (destruct Hin as [Hin | Hin]; [discriminate |]); exact Hin |]).
  destruct Hg.
Qed.

Lemma split_dot_length (n : nat) : forall s, (length (split_dot n s) <= S n)%nat.
Proof.
  induction n as [| n IH]; intros s; cbn [split_dot length]; [lia |].
  destruct (cut_dot s) as [[a b] |]; cbn [length]; [| lia].
  specialize (IH b). lia.
Qed.

Lemma parse_digits_error (s : string) :
  forall acc d e, parse_digits s acc d = Raise e -> e = ValueError.
Proof.
  induction s as [| c s IH]; intros acc d e; cbn [parse_digits].
  - destruct d; congruence.
  - destruct (digit_of c); [apply IH |].
    destruct (Ascii.eqb c "_").
    + destruct d; [apply IH | congruence].
    + destruct (d && _); congruence.
Qed.

Lemma py_int_error (s : string) (e : error) : py_int s = Raise e -> e = ValueError.
Proof.
  unfold py_int. destruct (lstrip s) as [| c s']; [congruence |].
  destruct (Ascii.eqb c "-").
  { destruct (parse_digits s' 0 false) eqn:E; cbn [obind]; [discriminate |].
    intros [= <-]. eapply parse_digits_error, E. }
  destruct (Ascii.eqb c "+"); apply parse_digits_error.
Qed.

Lemma dict_get_error {V} (k : string) (d : list (string * V)) (e : error) :
  dict_get k d = Raise e -> e = KeyError k.
Proof.
  induction d as [| [k' v] d IH]; cbn [dict_get]; [congruence |].
  destruct (String.eqb k' k); [discriminate | exact IH].
Qed.

Section UnknownNames.
Context {F : Type} {FA : FloatArith F} {FP : FloatPack F}.

Lemma dispatch_unknown (env : Env) (st : Sched) (layerName : string)
    (tensor : @Tensor F) (p : Z) (f : File) (sizes : list Z) :
  blockOffsets env = block_table sizes ->
  length sizes = 9%nat ->
  ~ In layerName top_level_names ->
  ~ (exists si i field,
       split_dot 2 layerName = ["layers"; si; field]
       /\ py_int si = Ok i /\ In field block_fields) ->
  exists e,
    dispatch env st layerName tensor p f = (Raise e, f)
    /\ (nth 0 (split_dot 2 layerName) "" <> "layers" ->
        e = Exception ("Unknown layer: " +:+ layerName))
    /\ (nth 0 (split_dot 2 layerName) "" = "layers" ->
        e = IndexError \/ e = ValueError \/ exists k, e = KeyError k).
Proof.
  intros Hbo Hlen Htop Hform. unfold dispatch.
  pose proof (split_dot_length 2 layerName) as Hparts.
  destruct (split_dot_head 2 layerName) as (p0 & rest & Hs).
  rewrite Hs in Hparts, Hform |- *.
  cbn [list_item nth_error nth]. io_ok.
  destruct (String.eqb_spec p0 "layers") as [-> | Hp0].
  - destruct rest as [| p1 rest]; cbn [list_item nth_error].
    { exists IndexError. rewrite bind_lift_Raise.
      split; [reflexivity |]. split; [congruence | intros _; left; reflexivity]. }
    io_ok. destruct (py_int p1) as [i | e] eqn:Ei.
    2:{ exists e. rewrite bind_lift_Raise. apply py_int_error in Ei as ->.
        split; [reflexivity |].
        split; [congruence | intros _; right; left; reflexivity]. }
    io_ok. destruct rest as [| p2 rest]; cbn [list_item nth_error].
    { exists IndexError. rewrite bind_lift_Raise.
      split; [reflexivity |]. split; [congruence | intros _; left; reflexivity]. }
    io_ok. destruct rest as [| ? ?]; [| cbn [length] in Hparts; lia].
    rewrite Hbo.
    destruct (dict_get p2 (block_table sizes)) as [size | e] eqn:Eg.
    2:{ exists e. rewrite bind_lift_Raise. apply dict_get_error in Eg as ->.
        split; [reflexivity |].
        split; [congruence | intros _; right; right; eauto]. }
    io_ok. rewrite (block_table_no_offset sizes p2 size Hlen); [| | exact Eg].
    + exists (KeyError (p2 +:+ "_offset")). rewrite bind_lift_Raise.
      split; [reflexivity |].
      split; [congruence | intros _; right; right; eauto].
    + intros Hin. apply Hform. exists p1, i, p2. repeat split; assumption.
  - exists (Exception ("Unknown layer: " +:+ layerName)).
    unfold top_level_names in Htop. cbn [In] in Htop.
    destruct (String.eqb_spec layerName "tok_embeddings.weight"); [exfalso; auto 6 |].
    destruct (String.eqb_spec layerName "norm.weight"); [exfalso; auto 6 |].
    destruct (String.eqb_spec layerName "rope.freqs"); [exfalso; auto 6 |].
    destruct (String.eqb_spec layerName "output.weight"); [exfalso; auto 6 |].
    split; [reflexivity |]. split; [reflexivity | congruence].
Qed.


(** An exception while a shard's tensors are exported ends [convert]: the
    shards after it are not read. *)
Lemma convert_shards_abort (target : string) (tok rms wcls : Z)
    (params : gmap string pynum) (env : Env) (st : Sched)
    (model : list (string * @Tensor F)) (rest : list (list (string * @Tensor F)))
    (md : list (string * @Tensor F) * list (list (string * @Tensor F)))
    (e : error) (f f' : File) :
  toDict [model] = Ok md ->
  export_layers env st (fst md) f = (Raise e, f') ->
  convert_shards target tok rms wcls params (Some env) st (model :: rest) f
  = (Raise e, f').
Proof.
  intros Hmd Hex. cbn [convert_shards]. rewrite Hmd. io_ok.
  unfold bind at 1. unfold ret at 1. cbn [fst snd].
  unfold bind. rewrite Hex. reflexivity.
Qed.
End UnknownNames.



(** ** Ordered dicts *)
Section DictFacts.
Context {V : Type}.

Lemma dict_get_set_eq (k : string) (v : V) (d : list (string * V)) :
  dict_get k (dict_set k v d) = Ok v.
Proof.
  induction d as [| [k' v'] d IH]; cbn [dict_set dict_get].
  - rewrite String.eqb_refl. reflexivity.
  - destruct (String.eqb_spec k' k) as [-> | Hne]; cbn [dict_get].
    + rewrite String.eqb_refl. reflexivity.
    + destruct (String.eqb_spec k' k); [contradiction | exact IH].
Qed.

Lemma dict_get_set_ne (k k' : string) (v : V) (d : list (string * V)) :
  k <> k' -> dict_get k (dict_set k' v d) = dict_get k d.
Proof.
  intros Hne. induction d as [| [k0 v0] d IH]; cbn [dict_set dict_get].
  - destruct (String.eqb_spec k' k); [congruence | reflexivity].
  - destruct (String.eqb_spec k0 k') as [-> | Hk0]; cbn [dict_get].
    + destruct (String.eqb_spec k' k); [congruence | reflexivity].
    + destruct (String.eqb_spec k0 k); [reflexivity | exact IH].
Qed.

Lemma dict_del_get_ne (k k' : string) (d d' : list (string * V)) :
  dict_del k' d = Ok d' -> k <> k' -> dict_get k d' = dict_get k d.
Proof.
  revert d'. induction d as [| [k0 v0] d IH]; intros d'; cbn [dict_del dict_get];
    [discriminate |].
  destruct (String.eqb_spec k0 k') as [-> | Hk0].
  - intros [= <-] Hne. destruct (String.eqb_spec k' k); [congruence | reflexivity].
  - destruct (dict_del k' d) as [r |]; [| discriminate]. cbn [obind].
    intros [= <-] Hne. cbn [dict_get].
    destruct (String.eqb_spec k0 k); [reflexivity | apply IH; [reflexivity | exact Hne]].
Qed.

Lemma dict_del_keys (k : string) (d d' : list (string * V)) :
  dict_del k d = Ok d' ->
  forall x, In x (dict_keys d') -> In x (dict_keys d).
Proof.
  revert d'. induction d as [| [k0 v0] d IH]; intros d'; cbn [dict_del];
    [discriminate |].
  destruct (String.eqb_spec k0 k) as [-> | Hk0].
  - intros [= <-] x Hx. right. exact Hx.
  - destruct (dict_del k d) as [r |]; [| discriminate]. cbn [obind].
    intros [= <-] x. cbn [dict_keys map fst In].
    intros [Hx | Hx]; [left; exact Hx | right; apply (IH r eq_refl), Hx].
Qed.

Lemma dict_del_NoDup (k : string) (d d' : list (string * V)) :
  dict_del k d = Ok d' -> List.NoDup (dict_keys d) -> List.NoDup (dict_keys d').
Proof.
  revert d'. induction d as [| [k0 v0] d IH]; intros d'; cbn [dict_del];
    [discriminate |].
  cbn [dict_keys map fst]. intros Hdel Hnd.
  apply List.NoDup_cons_iff in Hnd as [Hk0 Hnd].
  destruct (String.eqb_spec k0 k) as [-> | Hne].
  - injection Hdel as <-. exact Hnd.
  - destruct (dict_del k d) as [r |] eqn:Er; [| discriminate]. cbn [obind] in Hdel.
    injection Hdel as <-. cbn [dict_keys map fst].
    apply List.NoDup_cons.
    + intros Hin. apply Hk0. apply (dict_del_keys k d r Er), Hin.
    + apply (IH r eq_refl Hnd).
Qed.

Lemma dict_del_get_eq (k : string) (d d' : list (string * V)) :
  dict_del k d = Ok d' -> List.NoDup (dict_keys d) ->
  dict_get k d' = Raise (KeyError k).
Proof.
  revert d'. induction d as [| [k0 v0] d IH]; intros d'; cbn [dict_del];
    [discriminate |].
  cbn [dict_keys map fst]. intros Hdel Hnd.
  apply List.NoDup_cons_iff in Hnd as [Hk0 Hnd].
  destruct (String.eqb_spec k0 k) as [-> | Hne].
  - injection Hdel as <-. apply dict_get_not_in. exact Hk0.
  - destruct (dict_del k d) as [r |] eqn:Er; [| discriminate]. cbn [obind] in Hdel.
    injection Hdel as <-. cbn [dict_get].
    destruct (String.eqb_spec k0 k); [contradiction |].
    apply (IH r eq_refl Hnd).
Qed.
End DictFacts.

(** ** The shard merger *)
Section MergerFacts.
Context {F : Type}.
Implicit Types (ms : list (list (string * @Tensor F))) (sd : list (string * @Tensor F)).

Lemma same_at_refl (name : string) ms : same_at name ms ms.
Proof. induction ms; constructor; [reflexivity | assumption]. Qed.

Lemma same_at_trans (name : string) ms1 ms2 ms3 :
  same_at name ms1 ms2 -> same_at name ms2 ms3 -> same_at name ms1 ms3.
Proof.
  intros H12. revert ms3. induction H12 as [| m1 m2 l1 l2 Hm _ IH]; intros ms3 H23.
  - inversion H23. constructor.
  - inversion H23 as [| ? m3 ? l3 Hm' Hl']; subst. constructor.
    + congruence.
    + apply IH, Hl'.
Qed.

Lemma same_at_mapM (name : string) ms ms' :
  same_at name ms ms' -> mapM (dict_get name) ms' = mapM (dict_get name) ms.
Proof.
  induction 1 as [| m m' l l' Hm _ IH]; [reflexivity |].
  cbn [mapM]. rewrite Hm, IH. reflexivity.
Qed.

Lemma mapM_del_other (name k : string) ms ms' :
  mapM (dict_del k) ms = Ok ms' -> name <> k -> same_at name ms ms'.
Proof.
  revert ms'. induction ms as [| m ms IH]; intros ms'; cbn [mapM].
  - intros [= <-] _. constructor.
  - destruct (dict_del k m) as [m' |] eqn:Em; [| discriminate]. cbn [obind].
    destruct (mapM (dict_del k) ms) as [r |]; [| discriminate]. cbn [obind].
    intros [= <-] Hne. constructor.
    + eapply dict_del_get_ne; eassumption.
    + apply IH; [reflexivity | exact Hne].
Qed.

Lemma mapM_del_self (name : string) ms ms' :
  mapM (dict_del name) ms = Ok ms' -> well_keyed ms -> removed_at name ms'.
Proof.
  revert ms'. induction ms as [| m ms IH]; intros ms'; cbn [mapM].
  - intros [= <-] _. constructor.
  - destruct (dict_del name m) as [m' |] eqn:Em; [| discriminate]. cbn [obind].
    destruct (mapM (dict_del name) ms) as [r |]; [| discriminate]. cbn [obind].
    intros [= <-] Hwk. inversion Hwk as [| ? ? Hm Hms]; subst. constructor.
    + eapply dict_del_get_eq; eassumption.
    + apply IH; [reflexivity | exact Hms].
Qed.

Lemma mapM_del_well_keyed (k : string) ms ms' :
  mapM (dict_del k) ms = Ok ms' -> well_keyed ms -> well_keyed ms'.
Proof.
  revert ms'. induction ms as [| m ms IH]; intros ms'; cbn [mapM].
  - intros [= <-] _. constructor.
  - destruct (dict_del k m) as [m' |] eqn:Em; [| discriminate]. cbn [obind].
    destruct (mapM (dict_del k) ms) as [r |]; [| discriminate]. cbn [obind].
    intros [= <-] Hwk. inversion Hwk as [| ? ? Hm Hms]; subst. constructor.
    + eapply dict_del_NoDup; eassumption.
    + apply IH; [reflexivity | exact Hms].
Qed.

Lemma removed_at_same (name : string) ms ms' :
  removed_at name ms -> same_at name ms ms' -> removed_at name ms'.
Proof.
  intros Hr Hs. induction Hs as [| m m' l l' Hm _ IH]; [constructor |].
  inversion Hr as [| ? ? Hrm Hrl]; subst. constructor.
  - congruence.
  - apply IH, Hrl.
Qed.

(** One iteration of the loop, seen from the name it merges. *)
Lemma toDict_name_self (name : string) sd ms sd' ms' :
  toDict_name name (sd, ms) = Ok (sd', ms') ->
  well_keyed ms ->
  merged_as name ms sd' ms' /\ well_keyed ms'.
Proof.
  unfold toDict_name, merged_as.
  destruct (mapM (dict_get name) ms) as [tensors |] eqn:Et; [| discriminate].
  cbn [obind]. destruct tensors as [| t0 rest]; [discriminate |].
  fold (verbatim (t0 :: rest) t0).
  destruct (verbatim (t0 :: rest) t0) eqn:Ev.
  - intros [= <- <-] Hwk. split; [| exact Hwk].
    exists (t0 :: rest), t0, rest. rewrite Ev.
    repeat split. + apply dict_get_set_eq. + apply same_at_refl.
  - destruct (torch_cat (t0 :: rest) _) as [t |] eqn:Ec; [| discriminate].
    cbn [obind].
    destruct (mapM (dict_del name) ms) as [r |] eqn:Ed; [| discriminate].
    cbn [obind]. intros [= <- <-] Hwk.
    split; [| eapply mapM_del_well_keyed; eassumption].
    exists (t0 :: rest), t0, rest. rewrite Ev.
    split; [reflexivity |]. split; [reflexivity |].
    exists t. split; [exact Ec |]. split; [apply dict_get_set_eq |].
    eapply mapM_del_self; eassumption.
Qed.

(** One iteration of the loop, seen from another name. *)
Lemma toDict_name_other (name k : string) sd ms sd' ms' :
  toDict_name k (sd, ms) = Ok (sd', ms') ->
  name <> k ->
  dict_get name sd' = dict_get name sd /\ same_at name ms ms'.
Proof.
  unfold toDict_name.
  destruct (mapM (dict_get k) ms) as [tensors |]; [| discriminate].
  cbn [obind]. destruct tensors as [| t0 rest]; [discriminate |].
  destruct (_ || _).
  - intros [= <- <-] Hne. split; [apply dict_get_set_ne, Hne | apply same_at_refl].
  - destruct (torch_cat _ _) as [t |]; [| discriminate]. cbn [obind].
    destruct (mapM (dict_del k) ms) as [r |] eqn:Ed; [| discriminate].
    cbn [obind]. intros [= <- <-] Hne.
    split; [apply dict_get_set_ne, Hne | eapply mapM_del_other; eassumption].
Qed.

Lemma merged_as_shift (name : string) ms0 ms1 sd' ms' :
  same_at name ms0 ms1 -> merged_as name ms1 sd' ms' -> merged_as name ms0 sd' ms'.
Proof.
  intros Hs (tensors & t0 & rest & Hm & Ht & Hr).
  exists tensors, t0, rest.
  rewrite <- (same_at_mapM name ms0 ms1 Hs). split; [exact Hm |].
  split; [exact Ht |].
  destruct (verbatim tensors t0); [| exact Hr].
  destruct Hr as [Hg Hs']. split; [exact Hg |].
  eapply same_at_trans; eassumption.
Qed.

Lemma merged_as_keep (name : string) ms sd1 ms1 sd' ms' :
  merged_as name ms sd1 ms1 ->
  dict_get name sd' = dict_get name sd1 -> same_at name ms1 ms' ->
  merged_as name ms sd' ms'.
Proof.
  intros (tensors & t0 & rest & Hm & Ht & Hr) Hsd Hms.
  exists tensors, t0, rest. split; [exact Hm |]. split; [exact Ht |].
  destruct (verbatim tensors t0).
  - destruct Hr as [Hg Hs]. split; [congruence |].
    eapply same_at_trans; eassumption.
  - destruct Hr as (t & Hc & Hg & Hrm). exists t.
    split; [exact Hc |]. split; [congruence |].
    eapply removed_at_same; eassumption.
Qed.

(** The loop, for one name: untouched when the name is not in the list,
    merged as the rule says when it is. *)
Lemma toDict_loop_spec (name : string) (names : list string) :
  forall sd ms sd' ms',
    toDict_loop names (sd, ms) = Ok (sd', ms') ->
    List.NoDup names -> well_keyed ms ->
    (~ In name names ->
     dict_get name sd' = dict_get name sd /\ same_at name ms ms')
    /\ (In name names -> merged_as name ms sd' ms').
Proof.
  induction names as [| k names IH]; intros sd ms sd' ms' Hl Hnd Hwk.
  - cbn in Hl. injection Hl as <- <-.
    split; [intros _; split; [reflexivity | apply same_at_refl] | intros []].
  - cbn [toDict_loop] in Hl.
    destruct (toDict_name k (sd, ms)) as [[sd1 ms1] |] eqn:Ek; [| discriminate].
    cbn [obind] in Hl.
    apply List.NoDup_cons_iff in Hnd as [Hk Hnd].
    destruct (toDict_name_self k sd ms sd1 ms1 Ek Hwk) as [Hself Hwk1].
    destruct (IH sd1 ms1 sd' ms' Hl Hnd Hwk1) as [IHout IHin].
    split.
    + intros Hnot.
      assert (Hne : name <> k) by (intros ->; apply Hnot; left; reflexivity).
      destruct (toDict_name_other name k _ _ _ _ Ek Hne) as [Hsd Hms].
      destruct IHout as [Hsd' Hms']; [intros Hin; apply Hnot; right; exact Hin |].
      split; [congruence | eapply same_at_trans; eassumption].
    + intros [-> | Hin].
      * destruct IHout as [Hsd' Hms']; [exact Hk |].
        eapply merged_as_keep; eassumption.
      * assert (Hne : name <> k) by (intros ->; contradiction).
        destruct (toDict_name_other name k _ _ _ _ Ek Hne) as [_ Hms].
        eapply merged_as_shift; [exact Hms | apply IHin, Hin].
Qed.

(** [toDict] as a whole, for a name of the first shard. *)
Lemma toDict_spec (name : string) ms sd' ms' :
  toDict ms = Ok (sd', ms') ->
  well_keyed ms ->
  In name (dict_keys (hd [] ms)) ->
  merged_as name ms sd' ms'.
Proof.
  unfold toDict. destruct ms as [| m0 ms]; [discriminate |].
  intros Hl Hwk Hin. cbn [hd] in Hin.
  inversion Hwk as [| ? ? Hm0 _]; subst.
  exact (proj2 (toDict_loop_spec name (dict_keys m0) [] (m0 :: ms) sd' ms' Hl Hm0 Hwk) Hin).
Qed.
End MergerFacts.

Lemma mapM_length {A B} (g : A -> outcome B) (l : list A) (l' : list B) :
  mapM g l = Ok l' -> length l' = length l.
Proof.
  revert l'. induction l as [| a l IH]; intros l'; cbn [mapM].
  - intros [= <-]. reflexivity.
  - destruct (g a); [| discriminate]. cbn [obind].
    destruct (mapM g l) as [r |]; [| discriminate]. cbn [obind].
    intros [= <-]. cbn [length]. f_equal. apply IH. reflexivity.
Qed.

Section MergerClaims.
Context {F : Type}.

(** C6.  For a name of the first shard, once [toDict] returns: when the
    first slice is 1-D the merged value is the first shard's slice, whatever
    the other shards hold; when there are two or more slices and the first
    has rank 2 or more, the merged value is [torch.cat] of the slices along
    axis 1 if the name starts with [tok_embeddings.] or ends with
    [.attention.wo.weight] or [.feed_forward.w2.weight], and along axis 0
    otherwise. *)
Theorem merge_axis_rule (models : list (list (string * @Tensor F)))
    (sd : list (string * @Tensor F)) (models' : list (list (string * @Tensor F)))
    (name : string) :
  toDict models = Ok (sd, models') ->
  well_keyed models ->
  In name (dict_keys (hd [] models)) ->
  exists tensors t0 rest,
    mapM (dict_get name) models = Ok tensors
    /\ tensors = t0 :: rest
    /\ length tensors = length models
    /\ (length (shape t0) = 1%nat -> dict_get name sd = Ok t0)
    /\ ((2 <= length models)%nat -> (2 <= length (shape t0))%nat ->
        let axis :=
          if startswith name "tok_embeddings."
             || endswith name ".attention.wo.weight"
             || endswith name ".feed_forward.w2.weight"
          then 1%nat else 0%nat in
        exists t, torch_cat tensors axis = Ok t /\ dict_get name sd = Ok t).
Proof.
  intros Hd Hwk Hin.
  destruct (toDict_spec name models sd models' Hd Hwk Hin)
    as (tensors & t0 & rest & Hm & Ht & Hr).
  pose proof (mapM_length _ _ _ Hm) as Hlen.
  exists tensors, t0, rest. do 3 (split; [assumption |]).
  unfold verbatim in Hr. split.
  - intros H1. rewrite H1, orb_true_r in Hr. apply Hr.
  - intros H2 Hrank. cbv zeta. rewrite Hlen in Hr.
    destruct (Nat.eqb_spec (length models) 1); [lia |].
    destruct (Nat.eqb_spec (length (shape t0)) 1); [lia |].
    cbn [orb] in Hr. destruct Hr as (t & Hc & Hg & _).
    exists t. split; assumption.
Qed.

(** C9 (amended).  Once [toDict] returns, a name merged by concatenation
    (two or more shards, first slice not 1-D) is in no shard any more; a
    name taken as it is (one shard, or a 1-D first slice) stays in every
    shard, and the merged dict holds the first shard's slice itself. *)
Theorem merge_release_rule (models : list (list (string * @Tensor F)))
    (sd : list (string * @Tensor F)) (models' : list (list (string * @Tensor F)))
    (name : string) :
  toDict models = Ok (sd, models') ->
  well_keyed models ->
  In name (dict_keys (hd [] models)) ->
  exists tensors t0 rest,
    mapM (dict_get name) models = Ok tensors
    /\ tensors = t0 :: rest
    /\ ((length models =? 1)%nat || (length (shape t0) =? 1)%nat = false ->
        Forall (fun m' => dict_get name m' = Raise (KeyError name)) models')
    /\ ((length models =? 1)%nat || (length (shape t0) =? 1)%nat = true ->
        dict_get name sd = Ok t0
        /\ Forall2 (fun m m' => dict_get name m' = dict_get name m) models models').
Proof.
  intros Hd Hwk Hin.
  destruct (toDict_spec name models sd models' Hd Hwk Hin)
    as (tensors & t0 & rest & Hm & Ht & Hr).
  pose proof (mapM_length _ _ _ Hm) as Hlen.
  exists tensors, t0, rest. do 2 (split; [assumption |]).
  unfold verbatim in Hr. rewrite Hlen in Hr.
  split; intros Hv; rewrite Hv in Hr.
  - destruct Hr as (t & _ & _ & Hrm). exact Hrm.
  - exact Hr.
Qed.
End MergerClaims.

Lemma merge_shards_well_keyed : well_keyed merge_shards.
Proof.
  repeat constructor; cbn; intros H;
    repeat (destruct H as [H | H]; [discriminate |]); exact H.
Qed.

Lemma merge_axis_rule_witness :
  let sd :=
    [("layers.0.attention.wq.weight", mkTensor [2; 2]%nat [1; 2; 3; 4]);
     ("layers.0.attention.wo.weight", mkTensor [2; 2]%nat [5; 7; 6; 8]);
     ("norm.weight", mkTensor [2]%nat [9; 9])] in
  let name := "layers.0.attention.wo.weight" in
  toDict merge_shards
  = Ok (sd, [[("norm.weight", mkTensor [2]%nat [9; 9])];
             [("norm.weight", mkTensor [2]%nat [0; 0])]])
  /\ well_keyed merge_shards
  /\ In name (dict_keys (hd [] merge_shards))
  /\ exists t,
       torch_cat [mkTensor [2; 1]%nat [5; 6]; mkTensor [2; 1]%nat [7; 8]]
         (if startswith name "tok_embeddings."
             || endswith name ".attention.wo.weight"
             || endswith name ".feed_forward.w2.weight"
          then 1%nat else 0%nat) = Ok t
       /\ dict_get name sd = Ok t.
Proof.
  cbv zeta.
  assert (H1 : toDict merge_shards
    = Ok ([("layers.0.attention.wq.weight", mkTensor [2; 2]%nat [1; 2; 3; 4]);
           ("layers.0.attention.wo.weight", mkTensor [2; 2]%nat [5; 7; 6; 8]);
           ("norm.weight", mkTensor [2]%nat [9; 9])],
          [[("norm.weight", mkTensor [2]%nat [9; 9])];
           [("norm.weight", mkTensor [2]%nat [0; 0])]])) by reflexivity.
  assert (H3 : In "layers.0.attention.wo.weight" (dict_keys (hd [] merge_shards)))
    by (right; left; reflexivity).
  split; [exact H1 |]. split; [exact merge_shards_well_keyed |].
  split; [exact H3 |].
  destruct (merge_axis_rule merge_shards _ _ "layers.0.attention.wo.weight"
              H1 merge_shards_well_keyed H3)
    as (tensors & t0 & rest & Hm & Ht & _ & _ & Hcat).
  cbn in Hm. injection Hm as <-. injection Ht as <- _.
  apply Hcat; cbn; lia.
Defined.

(** C9, the claim as stated fails: the 1-D [norm.weight] is still in both
    shards after the merge, and the merged dict holds the first shard's
    slice. *)
Lemma norm_slices_are_kept :
  exists sd ms',
    toDict merge_shards = Ok (sd, ms')
    /\ map (dict_get "norm.weight") ms'
       = [Ok (mkTensor [2]%nat [9; 9]); Ok (mkTensor [2]%nat [0; 0])]
    /\ dict_get "norm.weight" sd = Ok (mkTensor [2]%nat [9; 9]).
Proof. eexists. eexists. split; [reflexivity |]. split; reflexivity. Qed.

Lemma merge_release_rule_witness :
  well_keyed merge_shards
  /\ In "layers.0.attention.wq.weight" (dict_keys (hd [] merge_shards))
  /\ exists sd ms',
       toDict merge_shards = Ok (sd, ms')
       /\ Forall (fun m' => dict_get "layers.0.attention.wq.weight" m'
                            = Raise (KeyError "layers.0.attention.wq.weight")) ms'.
Proof.
  assert (H3 : In "layers.0.attention.wq.weight" (dict_keys (hd [] merge_shards)))
    by (left; reflexivity).
  split; [exact merge_shards_well_keyed |]. split; [exact H3 |].
  destruct (toDict merge_shards) as [[sd ms'] |] eqn:E; [| discriminate].
  exists sd, ms'. split; [reflexivity |].
  destruct (merge_release_rule merge_shards sd ms' "layers.0.attention.wq.weight"
              E merge_shards_well_keyed H3)
    as (tensors & t0 & rest & Hm & Ht & Hrel & _).
  apply Hrel. cbn in Hm. injection Hm as <-. injection Ht as <- _. reflexivity.
Defined.

(** ** The file only grows *)

Lemma appends_ret {A} (a : A) : appends (ret a).
Proof. intros f r f' [= <- <-]. exists []. symmetry. apply app_nil_r. Qed.

Lemma appends_throw {A} (e : error) : appends (@throw A e).
Proof. intros f r f' [= <- <-]. exists []. symmetry. apply app_nil_r. Qed.

Lemma appends_lift {A} (c : outcome A) : appends (lift c).
Proof. intros f r f' [= <- <-]. exists []. symmetry. apply app_nil_r. Qed.

Lemma appends_write (b : list Z) : appends (write b).
Proof. intros f r f' [= <- <-]. exists [(pos f, b)]. reflexivity. Qed.

Lemma appends_seek (o : Z) : appends (seek o).
Proof.
  intros f r f'. unfold seek, file_seek.
  destruct (o <? 0); intros [= <- <-]; exists []; symmetry; apply app_nil_r.
Qed.

Lemma appends_bind {A B} (c : IO A) (k : A -> IO B) :
  appends c -> (forall a, appends (k a)) -> appends (bind c k).
Proof.
  intros Hc Hk f r f'. unfold bind.
  destruct (c f) as [[a | e] f1] eqn:Ec.
  - intros Hr. destruct (Hc _ _ _ Ec) as [m1 H1].
    destruct (Hk a _ _ _ Hr) as [m2 H2].
    exists (m1 ++ m2). rewrite H2, H1. symmetry. apply app_assoc.
  - intros [= <- <-]. exact (Hc _ _ _ Ec).
Qed.

Ltac appends_tac :=
  repeat first
    [ apply appends_ret | apply appends_throw | apply appends_lift
    | apply appends_write | apply appends_seek
    | apply appends_bind; [| intros ?] ].

Section AppendFacts.
Context {F : Type} {FA : FloatArith F} {FP : FloatPack F}.

Lemma appends_for_groups (absMax : list F) (gs : list (nat * list F)) :
  forall nBytes, appends (for_groups absMax gs nBytes).
Proof.
  induction gs as [| [gi g] gs IH]; intros nBytes; cbn [for_groups].
  - apply appends_ret.
  - apply appends_bind; [| intros n'; apply IH].
    unfold quantize_group. appends_tac.
Qed.

Lemma appends_exportTensor (tensor : @Tensor F) (floatType : string) :
  appends (exportTensor tensor floatType).
Proof.
  unfold exportTensor.
  destruct (String.eqb floatType "float16"); [appends_tac |].
  destruct (String.eqb floatType "float32"); [appends_tac |].
  destruct (String.eqb floatType "q40"); [| apply appends_throw].
  unfold quantizeQ40. destruct (negb _); [apply appends_throw |].
  apply appends_for_groups.
Qed.

Lemma appends_dispatch (env : Env) (st : Sched) (layerName : string)
    (tensor : @Tensor F) (p : Z) :
  appends (dispatch env st layerName tensor p).
Proof.
  unfold dispatch. apply appends_bind; [apply appends_lift | intros p0].
  destruct (String.eqb p0 "layers").
  { repeat (apply appends_bind; [first [apply appends_lift | apply appends_seek
                                        | apply appends_exportTensor] | intros ?]).
    apply appends_ret. }
  repeat match goal with
         | |- appends (if ?b then _ else _) => destruct b
         end;
    repeat (apply appends_bind; [first [apply appends_lift | apply appends_seek
                                        | apply appends_exportTensor] | intros ?]);
    first [apply appends_ret | apply appends_throw].
Qed.

Lemma appends_export_layer (env : Env) (st : Sched) (layerName : string)
    (tensor : @Tensor F) :
  appends (export_layer env st layerName tensor).
Proof.
  unfold export_layer. destruct (_ =? -1); [apply appends_ret |].
  apply appends_bind; [apply appends_dispatch | intros [size p']].
  destruct size; [apply appends_ret | apply appends_throw].
Qed.

Lemma appends_export_layers (env : Env) (modelDict : list (string * @Tensor F)) :
  forall st, appends (export_layers env st modelDict).
Proof.
  induction modelDict as [| [name t] rest IH]; intros st; cbn [export_layers].
  - apply appends_ret.
  - apply appends_bind; [apply appends_export_layer | intros st'; apply IH].
Qed.

Lemma appends_convert_shards (target : string) (tok rms wcls : Z)
    (shards : list (list (string * @Tensor F))) :
  forall params e st,
    appends (convert_shards target tok rms wcls params (Some e) st shards).
Proof.
  induction shards as [| model rest IH]; intros params e st; cbn [convert_shards].
  - apply appends_ret.
  - apply appends_bind; [apply appends_lift | intros md].
    apply appends_bind; [apply appends_ret | intros pe].
    apply appends_bind; [apply appends_export_layers | intros st'].
    apply IH.
Qed.
End AppendFacts.

(** ** The header *)

Lemma pack_i_length (n : Z) (l : list Z) : pack_i n = Ok l -> length l = 4%nat.
Proof.
  unfold pack_i. destruct (_ && _); [| discriminate].
  intros [= <-]. reflexivity.
Qed.

Lemma pack_i_num_length (v : pynum) (l : list Z) :
  pack_i_num v = Ok l -> length l = 4%nat.
Proof. destruct v; cbn [pack_i_num]; [apply pack_i_length | discriminate]. Qed.

(** A header that is written has 28 bytes, and its last four are the
    [max_seq_len] entry of the params. *)
Lemma writeHeader_inv (p : gmap string pynum) (v : pynum) (n : Z) (f f' : File) :
  writeHeader p f = (Ok n, f') ->
  p !! "max_seq_len" = Some v ->
  exists header,
    f' = file_write header f /\ n = 28 /\ length header = 28%nat
    /\ pack_i_num v = Ok (skipn 24 header).
Proof.
  intros Hw Hv. unfold writeHeader in Hw.
  destruct (mapM (getitem p) header_keys) as [vals |] eqn:Ev;
    [| rewrite bind_lift_Raise in Hw; discriminate].
  rewrite bind_lift_Ok in Hw. cbv beta in Hw.
  destruct (mapM pack_i_num vals) as [fields |] eqn:Ef;
    [| rewrite bind_lift_Raise in Hw; discriminate].
  rewrite bind_lift_Ok in Hw. cbv beta in Hw.
  unfold bind, write, ret in Hw. injection Hw as <- <-.
  unfold header_keys in Ev. cbn [mapM] in Ev. unfold getitem in Ev. rewrite Hv in Ev.
  repeat (match type of Ev with
          | context [match ?x with Some _ => _ | None => _ end] =>
              destruct x; cbn [obind] in Ev; [| discriminate]
          end).
  injection Ev as <-. cbn [mapM] in Ef.
  repeat (match type of Ef with
          | context [pack_i_num ?x] =>
              let l := fresh "l" in let E := fresh "E" in
              destruct (pack_i_num x) as [l |] eqn:E; cbn [obind] in Ef;
              [apply pack_i_num_length in E as ? | discriminate]
          end).
  injection Ef as <-.
  exists (concat [l; l0; l1; l2; l3; l4; l5]).
  cbn [concat]. rewrite !length_app. cbn [length].
  split; [reflexivity |]. split; [lia |]. split; [lia |].
  rewrite app_nil_r.
  do 6 (rewrite skipn_app;
        match goal with
        | |- context [skipn ?k ?x ++ _] =>
            rewrite (skipn_all2 (n := k) x) by lia; cbn [app]
        end;
        match goal with
        | H : length ?x = 4%nat |- context [(?k - length ?x)%nat] =>
            rewrite H; change (k - 4)%nat with (Nat.sub k 4); cbn [Nat.sub]
        end).
  reflexivity.
Qed.

Lemma load_params_max_seq_len (raw params : gmap string pynum) :
  load_params raw = Ok params ->
  params !! "max_seq_len" = Some (PInt 2048)
  /\ exists head_size, params !! "head_size" = Some head_size.
Proof.
  unfold load_params.
  destruct (getitem raw "vocab_size") as [vs |]; [| discriminate]. cbn [obind].
  destruct (plt vs (PInt 1)); [discriminate |].
  destruct (match raw !! "n_kv_heads" with
            | Some v => if ptruthy v then Ok v else getitem raw "n_heads"
            | None => getitem raw "n_heads"
            end) as [nkv |]; [| discriminate]. cbn [obind].
  destruct (getitem _ "dim") as [dim |]; [| discriminate]. cbn [obind].
  destruct (getitem _ "n_heads") as [nh |]; [| discriminate]. cbn [obind].
  destruct (ptruediv dim nh) as [hs |]; [| discriminate]. cbn [obind].
  intros [= <-]. split; [apply lookup_insert_eq |].
  exists hs. rewrite lookup_insert_ne by discriminate. apply lookup_insert_eq.
Qed.

Lemma writeHeader_raise (p : gmap string pynum) (e : error) (f f' : File) :
  writeHeader p f = (Raise e, f') -> f' = f.
Proof.
  unfold writeHeader.
  destruct (mapM (getitem p) header_keys) as [vals |];
    [rewrite bind_lift_Ok; cbv beta | rewrite bind_lift_Raise; congruence].
  destruct (mapM pack_i_num vals) as [fields |];
    [rewrite bind_lift_Ok; cbv beta | rewrite bind_lift_Raise; congruence].
  unfold bind, write, ret. discriminate.
Qed.

Section HeaderFacts.
Context {F : Type} {FA : FloatArith F} {FP : FloatPack F}.

(** Lines 151 to 157 write the header and nothing else; when they return,
    the rope size has been computed from the [max_seq_len] entry. *)
Lemma write_layout_inv (params : gmap string pynum) (target : string)
    (tok rms wcls : Z) (modelDict : list (string * @Tensor F))
    (r : outcome (gmap string pynum * Env)) (f f' : File) (v hs : pynum) :
  params !! "max_seq_len" = Some v ->
  params !! "head_size" = Some hs ->
  write_layout params target tok rms wcls modelDict f = (r, f') ->
  ((exists e, r = Raise e) /\ f' = f)
  \/ (exists header,
        f' = file_write header f
        /\ length header = 28%nat
        /\ pack_i_num v = Ok (skipn 24 header)
        /\ forall params' env,
             r = Ok (params', env) ->
             headerOffset env = 28
             /\ params' !! "max_seq_len" = Some v
             /\ exists half rope,
                  ptruediv (pmul v hs) (PInt 2) = Ok half
                  /\ getBytes half "float32" = Ok rope
                  /\ ropeBytes env = rope * 2).
Proof.
  intros Hmax Hhs Hw. unfold write_layout in Hw.
  destruct (dict_get _ modelDict) as [w1 |];
    [| rewrite bind_lift_Raise in Hw; injection Hw as <- <-; left; eauto].
  rewrite bind_lift_Ok in Hw; cbv beta in Hw.
  destruct (list_item (shape w1) 0) as [h |];
    [| rewrite bind_lift_Raise in Hw; injection Hw as <- <-; left; eauto].
  rewrite bind_lift_Ok in Hw; cbv beta in Hw.
  unfold bind at 1 in Hw.
  destruct (writeHeader _ f) as [[n |] f1] eqn:Eh.
  2:{ apply writeHeader_raise in Eh as ->. injection Hw as <- <-. left; eauto. }
  assert (Hmax' : (<["hidden_dim" := PInt (Z.of_nat h)]> params) !! "max_seq_len"
                  = Some v)
    by (rewrite lookup_insert_ne by discriminate; exact Hmax).
  assert (Hhs' : (<["hidden_dim" := PInt (Z.of_nat h)]> params) !! "head_size"
                 = Some hs)
    by (rewrite lookup_insert_ne by discriminate; exact Hhs).
  destruct (writeHeader_inv _ _ _ _ _ Eh Hmax') as (header & -> & -> & Hlen & Hpack).
  right. exists header.
  assert (Hraise : forall e, r = Raise e -> f' = file_write header f ->
            f' = file_write header f /\ length header = 28%nat
            /\ pack_i_num v = Ok (skipn 24 header)
            /\ forall params' env,
                 r = Ok (params', env) ->
                 headerOffset env = 28
                 /\ params' !! "max_seq_len" = Some v
                 /\ exists half rope,
                      ptruediv (pmul v hs) (PInt 2) = Ok half
                      /\ getBytes half "float32" = Ok rope
                      /\ ropeBytes env = rope * 2).
  { intros e -> Hf. split; [exact Hf |]. split; [exact Hlen |].
    split; [exact Hpack |]. intros ? ? [=]. }
  destruct (getBlockOffsets _ target) as [bo |];
    [| rewrite bind_lift_Raise in Hw; injection Hw as <- <-; eapply Hraise; reflexivity].
  rewrite bind_lift_Ok in Hw; cbv beta in Hw.
  destruct (dict_get "_total" bo) as [total |];
    [| rewrite bind_lift_Raise in Hw; injection Hw as <- <-; eapply Hraise; reflexivity].
  rewrite bind_lift_Ok in Hw; cbv beta in Hw.
  destruct (getitem _ "n_layers") as [nl |];
    [| rewrite bind_lift_Raise in Hw; injection Hw as <- <-; eapply Hraise; reflexivity].
  rewrite bind_lift_Ok in Hw; cbv beta in Hw.
  unfold getitem at 1 in Hw. rewrite Hmax' in Hw.
  rewrite bind_lift_Ok in Hw; cbv beta in Hw.
  unfold getitem at 1 in Hw. rewrite Hhs' in Hw.
  rewrite bind_lift_Ok in Hw; cbv beta in Hw.
  destruct (ptruediv (pmul v hs) (PInt 2)) as [half |] eqn:Ehalf;
    [| rewrite bind_lift_Raise in Hw; injection Hw as <- <-; eapply Hraise; reflexivity].
  rewrite bind_lift_Ok in Hw; cbv beta in Hw.
  destruct (getBytes half "float32") as [rope |] eqn:Erope;
    [| rewrite bind_lift_Raise in Hw; injection Hw as <- <-; eapply Hraise; reflexivity].
  rewrite bind_lift_Ok in Hw; cbv beta in Hw.
  unfold ret in Hw. injection Hw as <- <-.
  split; [reflexivity |]. split; [exact Hlen |]. split; [exact Hpack |].
  intros params' env [= <- <-]. cbn [headerOffset ropeBytes].
  split; [reflexivity |]. split; [exact Hmax' |].
  exists half, rope. repeat split; assumption.
Qed.

(** Whatever a run of [convert] does, the first thing it writes, if it
    writes at all, is a 28-byte header that ends in the integer 2048. *)
Lemma convert_header_first (raw : gmap string pynum)
    (shards : list (list (string * @Tensor F))) (target : string) (f : File) :
  wlog (snd (convert raw shards target f)) = wlog f
  \/ exists header more,
       wlog (snd (convert raw shards target f)) = wlog f ++ (pos f, header) :: more
       /\ length header = 28%nat
       /\ skipn 24 header = [0; 8; 0; 0].
Proof.
  unfold convert.
  destruct (load_params raw) as [params |] eqn:El; [| left; reflexivity].
  destruct (load_params_max_seq_len raw params El) as [Hmax [hs Hhs]].
  rewrite bind_lift_Ok; cbv beta.
  destruct (getitem params "vocab_size") as [vs |]; [| left; reflexivity].
  rewrite bind_lift_Ok; cbv beta.
  destruct (getitem params "dim") as [dim |]; [| left; reflexivity].
  rewrite bind_lift_Ok; cbv beta.
  destruct (getBytes (pmul vs dim) "float32") as [tok |]; [| left; reflexivity].
  rewrite bind_lift_Ok; cbv beta.
  destruct (getBytes dim "float32") as [rms |]; [| left; reflexivity].
  rewrite bind_lift_Ok; cbv beta.
  destruct (getBytes (pmul vs dim) target) as [wcls |]; [| left; reflexivity].
  rewrite bind_lift_Ok; cbv beta.
  destruct shards as [| model rest]; [left; reflexivity |].
  cbn [convert_shards].
  destruct (toDict [model]) as [md |]; [| left; reflexivity].
  rewrite bind_lift_Ok; cbv beta.
  rewrite (bind_run (write_layout params target tok rms wcls (fst md))).
  destruct (write_layout params target tok rms wcls (fst md) f) as [r1 f1] eqn:Ew.
  destruct (write_layout_inv _ _ _ _ _ _ _ _ _ _ _ Hmax Hhs Ew)
    as [[[e ->] ->] | (header & -> & Hlen & Hpack & _)]; [left; reflexivity |].
  right. exists header.
  change (pack_i_num (PInt 2048)) with (@Ok (list Z) [0; 8; 0; 0]) in Hpack.
  injection Hpack as Hpack.
  destruct r1 as [pe | e];
    [| exists []; split; [reflexivity | split; [assumption | congruence]]].
  destruct (bind (export_layers (snd pe) (mkSched ∅ None) (fst md))
              (fun st' => convert_shards target tok rms wcls (fst pe)
                            (Some (snd pe)) st' rest)
              (file_write header f)) as [r2 f2] eqn:E2.
  assert (Happ : appends
            (bind (export_layers (snd pe) (mkSched ∅ None) (fst md))
               (fun st' => convert_shards target tok rms wcls (fst pe)
                             (Some (snd pe)) st' rest))).
  { apply appends_bind; [apply appends_export_layers |].
    intros st'. apply appends_convert_shards. }
  destruct (Happ _ _ _ E2) as [more Hmore].
  exists more. cbn [snd]. rewrite Hmore. cbn [wlog file_write].
  rewrite <- app_assoc. cbn [app].
  repeat split; [assumption | congruence].
Qed.
End HeaderFacts.

Section HeaderClaims.
Context {F : Type} {FA : FloatArith F} {FP : FloatPack F}.

(** C10.  Whatever [params.json] holds, the params [convert] works with
    have [max_seq_len = 2048]; so the header, which is the first thing a run
    writes if it writes at all, has 2048 as its seventh integer (bytes 0, 8,
    0, 0), and the size of the reserved rope region is computed from 2048:
    [2 * getBytes(2048 * head_size / 2, float32)]. *)
Theorem max_seq_len_is_2048 (raw : gmap string pynum) :
  (forall params, load_params raw = Ok params ->
                  params !! "max_seq_len" = Some (PInt 2048))
  /\ (forall (shards : list (list (string * @Tensor F))) (target : string)
         (f : File),
         wlog (snd (convert raw shards target f)) = wlog f
         \/ exists header more,
              wlog (snd (convert raw shards target f))
              = wlog f ++ (pos f, header) :: more
              /\ length header = 28%nat
              /\ skipn 24 header = [0; 8; 0; 0])
  /\ (forall params (target : string) (tok rms wcls : Z)
         (modelDict : list (string * @Tensor F)) (f f' : File)
         (params' : gmap string pynum) (env : Env),
         load_params raw = Ok params ->
         write_layout params target tok rms wcls modelDict f
         = (Ok (params', env), f') ->
         exists head_size half rope,
           params !! "head_size" = Some head_size
           /\ ptruediv (pmul (PInt 2048) head_size) (PInt 2) = Ok half
           /\ getBytes half "float32" = Ok rope
           /\ ropeBytes env = rope * 2).
Proof.
  split; [| split].
  - intros params Hl. apply (load_params_max_seq_len raw params Hl).
  - intros shards target f. apply convert_header_first.
  - intros params target tok rms wcls modelDict f f' params' env Hl Hw.
    destruct (load_params_max_seq_len raw params Hl) as [Hmax [hs Hhs]].
    destruct (write_layout_inv _ _ _ _ _ _ _ _ _ _ _ Hmax Hhs Hw)
      as [[[e He] _] | (header & _ & _ & _ & Hok)]; [discriminate |].
    destruct (Hok params' env eq_refl) as (_ & _ & half & rope & H1 & H2 & H3).
    exists hs, half, rope. repeat split; assumption.
Qed.
End HeaderClaims.

Lemma max_seq_len_is_2048_witness :
  Demo.raw !! "max_seq_len" = Some (PInt 7)
  /\ load_params Demo.raw
     = Ok (<["max_seq_len" := PInt 2048]>
             (<["head_size" := PFloat 2]>
                (<["n_kv_heads" := PInt 1]> Demo.raw)))
  /\ (<["max_seq_len" := PInt 2048]>
        (<["head_size" := PFloat 2]>
           (<["n_kv_heads" := PInt 1]> Demo.raw))) !! "max_seq_len"
     = Some (PInt 2048)
  /\ nth 0 (wlog (snd (convert Demo.raw [Demo.overshoot_shard] "float32" file_empty)))
         (0, [])
     = (0, [2; 0; 0; 0; 3; 0; 0; 0; 1; 0; 0; 0; 1; 0; 0; 0; 1; 0; 0; 0;
            2; 0; 0; 0; 0; 8; 0; 0])
  /\ ropeBytes (Demo.env "float32") = 16384.
Proof.
  assert (H1 : load_params Demo.raw
               = Ok (<["max_seq_len" := PInt 2048]>
                       (<["head_size" := PFloat 2]>
                          (<["n_kv_heads" := PInt 1]> Demo.raw))))
    by (vm_compute; reflexivity).
  split; [vm_compute; reflexivity |]. split; [exact H1 |].
  split; [exact (proj1 (max_seq_len_is_2048 (F := spec_float) Demo.raw) _ H1) |].
  repeat split; vm_compute; reflexivity.
Defined.

(** * Further properties *)

(** ** The quantizer, group by group *)
Section GroupFacts.
Context {F : Type} {FA : FloatArith F} {FP : FloatPack F}.

Lemma quantize_pair_shift (group : list F) (id : F) (buf : list Z) (n m : Z) (i : nat) :
  quantize_pair group id (buf, n + m) i
  = let! st := quantize_pair group id (buf, n) i in Ok (fst st, snd st + m).
Proof.
  unfold quantize_pair.
  destruct (ftrunc (fadd (fmul (nth i group f_zero) id) f_8_5)); [| reflexivity].
  cbn [obind].
  destruct (ftrunc (fadd (fmul (nth (i + 16) group f_zero) id) f_8_5)); [| reflexivity].
  cbn [obind].
  destruct (pack_B _); cbn [obind fst snd]; [| reflexivity].
  f_equal. f_equal. lia.
Qed.

Lemma for_range_shift (group : list F) (id : F) (idxs : list nat) :
  forall (buf : list Z) (n m : Z),
    for_range (quantize_pair group id) idxs (buf, n + m)
    = let! st := for_range (quantize_pair group id) idxs (buf, n) in
      Ok (fst st, snd st + m).
Proof.
  induction idxs as [| i idxs IH]; intros buf n m.
  - reflexivity.
  - cbn [for_range]. rewrite quantize_pair_shift.
    destruct (quantize_pair group id (buf, n) i) as [[b c] | e]; [| reflexivity].
    cbn [obind fst snd]. apply IH.
Qed.

Lemma quantize_group_buffer (absMax : list F) (nBytes : Z) (gi : nat)
    (g : list F) (f : File) :
  nth gi absMax f_zero = absMax_of g ->
  quantize_group absMax nBytes gi g f
  = match group_buffer g with
    | Ok b => (Ok (nBytes + 18), file_write b f)
    | Raise e => (Raise e, f)
    end.
Proof.
  intros Habs. unfold quantize_group, group_buffer, bind, lift.
  rewrite Habs. fold (delta_of g). fold (invScale_of g).
  replace (nBytes + 2) with (2 + nBytes) by lia.
  rewrite for_range_shift.
  destruct (for_range (quantize_pair g (invScale_of g)) (seq 0 16)
              (pack_e (delta_of g), 2)) as [[b c] | e] eqn:Hrun; [| reflexivity].
  apply for_range_inv in Hrun as [_ Hc]. rewrite length_seq in Hc.
  cbn [obind fst snd]. unfold write, ret. f_equal. f_equal. lia.
Qed.

Lemma for_groups_write_groups (absMax : list F) (gs : list (list F)) :
  forall (k : nat) (nBytes : Z) (f : File),
    (forall j, (j < length gs)%nat ->
       nth (k + j) absMax f_zero = absMax_of (nth j gs [])) ->
    for_groups absMax (combine (seq k (length gs)) gs) nBytes f
    = write_groups gs nBytes f.
Proof.
  induction gs as [| g gs IH]; intros k nBytes f Habs.
  - reflexivity.
  - cbn [length seq combine for_groups write_groups]. unfold bind, lift, write.
    rewrite (quantize_group_buffer absMax nBytes k g f).
    + destruct (group_buffer g) as [b | e]; [| reflexivity].
      apply (IH (S k)). intros j Hj.
      specialize (Habs (S j)). cbn [length nth] in Habs.
      rewrite <- Habs by lia. f_equal. lia.
    + specialize (Habs 0%nat). cbn [length nth] in Habs.
      rewrite <- Habs by lia. f_equal. lia.
Qed.

(** [quantizeQ40] is the assertion followed by the loop over the groups. *)
Lemma quantizeQ40_write_groups (x : list F) (f : File) :
  quantizeQ40 x f
  = if Z.of_nat (length x) mod 32 =? 0
    then write_groups (reshape 32 x) 0 f
    else (Raise AssertionError, f).
Proof.
  unfold quantizeQ40.
  destruct (Z.of_nat (length x) mod 32 =? 0); cbn [negb]; [| reflexivity].
  rewrite np_where_absMax. unfold enumerate.
  apply for_groups_write_groups.
  intros j Hj. cbn [Nat.add].
  rewrite (nth_indep _ f_zero (absMax_of [])) by (rewrite length_map; exact Hj).
  apply (map_nth absMax_of).
Qed.

Lemma group_buffer_finite (g : list F) :
  length g = 32%nat -> finite_group g = true -> group_buffer g = Ok (Q40_group g).
Proof.
  intros Hlen Hfin. unfold group_buffer.
  rewrite for_range_pairs.
  - reflexivity.
  - intros i Hi. apply in_seq in Hi.
    split; apply (finite_group_nth g); rewrite ?Hlen; try assumption; lia.
Qed.

Lemma truncates_Raise (x : F) : truncates x = false -> exists e, ftrunc x = Raise e.
Proof.
  unfold truncates. destruct (ftrunc x) as [t | e]; [discriminate |].
  intros _. exists e. reflexivity.
Qed.

(** The loop over the pairs raises as soon as one of its scaled values has
    no integer part, with the exception [int] raised. *)
Lemma for_range_pairs_Raise (group : list F) (id : F) (idxs : list nat) :
  forall (buf : list Z) (n : Z),
    (exists i, In i idxs
               /\ (truncates (fadd (fmul (nth i group f_zero) id) f_8_5) = false
                   \/ truncates (fadd (fmul (nth (i + 16) group f_zero) id) f_8_5)
                      = false)) ->
    exists e y, for_range (quantize_pair group id) idxs (buf, n) = Raise e
                /\ ftrunc y = Raise e.
Proof.
  induction idxs as [| j idxs IH]; intros buf n [i [Hin Hbad]].
  - destruct Hin.
  - cbn [for_range].
    destruct (truncates (fadd (fmul (nth j group f_zero) id) f_8_5)) eqn:H0.
    + destruct (truncates (fadd (fmul (nth (j + 16) group f_zero) id) f_8_5)) eqn:H1.
      * rewrite (quantize_pair_Ok _ _ _ _ _ H0 H1). cbn [obind].
        apply IH. exists i. split; [| exact Hbad].
        destruct Hin as [<- | Hin]; [| exact Hin].
        destruct Hbad as [Hb | Hb]; congruence.
      * apply truncates_Raise in H1 as [e He].
        exists e, (fadd (fmul (nth (j + 16) group f_zero) id) f_8_5).
        split; [| exact He].
        unfold quantize_pair. rewrite (truncates_Ok _ H0). cbn [obind].
        rewrite He. reflexivity.
    + apply truncates_Raise in H0 as [e He].
      exists e, (fadd (fmul (nth j group f_zero) id) f_8_5).
      split; [| exact He].
      unfold quantize_pair. rewrite He. reflexivity.
Qed.

Lemma forallb_false {A} (p : A -> bool) (l : list A) :
  forallb p l = false -> exists v, In v l /\ p v = false.
Proof.
  induction l as [| a l IH]; [discriminate |].
  cbn [forallb]. destruct (p a) eqn:Hpa; cbn [andb].
  - intros H. destruct (IH H) as [v [Hv Hp]]. exists v. split; [right |]; assumption.
  - intros _. exists a. split; [left; reflexivity | exact Hpa].
Qed.

Lemma group_buffer_not_finite (g : list F) :
  length g = 32%nat -> finite_group g = false ->
  exists e y, group_buffer g = Raise e /\ ftrunc y = Raise e.
Proof.
  intros Hlen Hfin. unfold finite_group in Hfin.
  apply forallb_false in Hfin as [v [Hv Hbad]].
  apply (In_nth _ _ f_zero) in Hv as [i [Hi Hnth]].
  destruct (for_range_pairs_Raise g (invScale_of g) (seq 0 16)
              (pack_e (delta_of g)) 2) as [e [y [Hrun Hy]]].
  { destruct (Nat.lt_ge_cases i 16) as [Hlt | Hge].
    - exists i. split; [apply in_seq; lia |]. left.
      fold (scaled g (nth i g f_zero)). rewrite Hnth. exact Hbad.
    - exists (i - 16)%nat. split; [apply in_seq; lia |]. right.
      replace (i - 16 + 16)%nat with i by lia.
      fold (scaled g (nth i g f_zero)). rewrite Hnth. exact Hbad. }
  exists e, y. split; [| exact Hy].
  unfold group_buffer. rewrite Hrun. reflexivity.
Qed.

Lemma write_groups_finite (gs : list (list F)) :
  forall (n : Z) (f : File),
    Forall (fun g => length g = 32%nat) gs ->
    forallb finite_group gs = true ->
    write_groups gs n f
    = (Ok (n + 18 * Z.of_nat (length gs)), write_all (map Q40_group gs) f).
Proof.
  induction gs as [| g gs IH]; intros n f Hlen Hfin.
  - cbn. rewrite Z.add_0_r. reflexivity.
  - inversion Hlen as [| ? ? Hg Hgs]; subst.
    cbn [forallb] in Hfin. apply andb_prop in Hfin as [Hfg Hfgs].
    cbn [write_groups]. unfold bind, lift, write.
    rewrite (group_buffer_finite g Hg Hfg).
    rewrite IH by assumption.
    cbn [map length]. rewrite write_all_cons. f_equal. f_equal. lia.
Qed.

Lemma write_groups_app (gs1 gs2 : list (list F)) :
  forall (n : Z) (f : File),
    write_groups (gs1 ++ gs2) n f
    = match write_groups gs1 n f with
      | (Ok n', f') => write_groups gs2 n' f'
      | (Raise e, f') => (Raise e, f')
      end.
Proof.
  induction gs1 as [| g gs1 IH]; intros n f.
  - reflexivity.
  - cbn [app write_groups]. unfold bind, lift, write.
    destruct (group_buffer g) as [b | e]; [| reflexivity].
    apply IH.
Qed.

Lemma write_groups_shift (gs : list (list F)) :
  forall (n m : Z) (f : File),
    write_groups gs (n + m) f
    = match write_groups gs n f with
      | (Ok n', f') => (Ok (n' + m), f')
      | (Raise e, f') => (Raise e, f')
      end.
Proof.
  induction gs as [| g gs IH]; intros n m f.
  - reflexivity.
  - cbn [write_groups]. unfold bind, lift, write.
    destruct (group_buffer g) as [b | e]; [| reflexivity].
    replace (n + m + 18) with (n + 18 + m) by lia. apply IH.
Qed.

Lemma write_groups_stops (gs : list (list F)) (k : nat) :
  forall (n : Z) (f : File),
    Forall (fun g => length g = 32%nat) gs ->
    (k < length gs)%nat ->
    forallb finite_group (firstn k gs) = true ->
    finite_group (nth k gs []) = false ->
    exists e y,
      write_groups gs n f
      = (Raise e, write_all (map Q40_group (firstn k gs)) f)
      /\ ftrunc y = Raise e.
Proof.
  intros n f Hlen Hk Hfin Hbad.
  assert (Hsplit : write_groups gs n f
                   = write_groups (firstn k gs ++ skipn k gs) n f)
    by (rewrite firstn_skipn; reflexivity).
  rewrite write_groups_app in Hsplit.
  rewrite (write_groups_finite (firstn k gs)) in Hsplit; [| | exact Hfin].
  2:{ apply List.Forall_forall. intros g Hg.
      apply (proj1 (List.Forall_forall _ _) Hlen).
      rewrite <- (firstn_skipn k gs). apply in_or_app. left. exact Hg. }
  destruct (skipn k gs) as [| g rest] eqn:Hskip.
  { apply (f_equal (@length _)) in Hskip. rewrite length_skipn in Hskip.
    cbn in Hskip. lia. }
  assert (Hg : nth k gs [] = g).
  { rewrite <- (firstn_skipn k gs), Hskip.
    rewrite app_nth2 by (rewrite length_firstn; lia).
    rewrite length_firstn. replace (k - Nat.min k (length gs))%nat with 0%nat by lia.
    reflexivity. }
  rewrite Hg in Hbad.
  assert (Hlg : length g = 32%nat).
  { apply (proj1 (List.Forall_forall _ _) Hlen).
    rewrite <- (firstn_skipn k gs), Hskip. apply in_or_app. right. left. reflexivity. }
  destruct (group_buffer_not_finite g Hlg Hbad) as [e [y [He Hy]]].
  exists e, y. split; [| exact Hy].
  rewrite Hsplit. cbn [write_groups]. unfold bind, lift. rewrite He. reflexivity.
Qed.
End GroupFacts.

Lemma forallb_first_false {A} (p : A -> bool) (d : A) (l : list A) :
  forallb p l = false ->
  exists k, (k < length l)%nat
            /\ forallb p (firstn k l) = true /\ p (nth k l d) = false.
Proof.
  induction l as [| a l IH]; [discriminate |].
  cbn [forallb]. destruct (p a) eqn:Hpa; cbn [andb].
  - intros H. destruct (IH H) as [k [Hk [Hf Hb]]]. exists (S k).
    cbn [length firstn forallb nth]. rewrite Hpa.
    split; [lia |]. split; [exact Hf | exact Hb].
  - intros _. exists 0%nat. cbn [length firstn forallb nth].
    split; [lia |]. split; [reflexivity | exact Hpa].
Qed.

Lemma stream_write (b : list Z) (f : File) :
  stream (file_write b f) = stream f ++ b.
Proof.
  unfold stream, file_write. cbn [wlog].
  rewrite map_app, concat_app. cbn [map concat snd]. rewrite app_nil_r. reflexivity.
Qed.

Lemma map_seq_shift {A} (f g : nat -> A) (m : nat) :
  forall a b : nat,
    (forall j, (j < m)%nat -> f (a + j)%nat = g (b + j)%nat) ->
    map f (seq a m) = map g (seq b m).
Proof.
  induction m as [| m IH]; intros a b H; [reflexivity |].
  cbn [seq map]. f_equal.
  - specialize (H 0%nat). rewrite !Nat.add_0_r in H. apply H. lia.
  - apply IH. intros j Hj. specialize (H (S j)).
    replace (S a + j)%nat with (a + S j)%nat by lia.
    replace (S b + j)%nat with (b + S j)%nat by lia.
    apply H. lia.
Qed.

Section QuantizerFailures.
Context {F : Type} {FA : FloatArith F} {FP : FloatPack F}.

Lemma reshape_app (n q : nat) (x1 x2 : list F) :
  (0 < n)%nat -> length x1 = (q * n)%nat ->
  reshape n (x1 ++ x2) = reshape n x1 ++ reshape n x2.
Proof.
  intros Hn Hlen. unfold reshape.
  rewrite length_app, Hlen.
  rewrite Nat.div_add_l by lia. rewrite Nat.div_mul by lia.
  rewrite seq_app, map_app. cbn [Nat.add]. f_equal.
  - apply map_ext_in. intros g Hg. apply in_seq in Hg.
    rewrite skipn_app, firstn_app.
    rewrite length_skipn, Hlen.
    replace (n - (q * n - g * n))%nat with 0%nat by nia.
    cbn [firstn]. apply app_nil_r.
  - apply map_seq_shift. intros j Hj. cbn [Nat.add].
    rewrite skipn_app, Hlen.
    rewrite (skipn_all2 x1) by nia.
    replace ((q + j) * n - q * n)%nat with (j * n)%nat by nia.
    reflexivity.
Qed.

(** X1.  When the length is a multiple of 32, the first [k] groups are
    finite and group [k] holds a value whose scaled form has no integer
    part, [quantizeQ40] raises the exception of [int] after it has written
    the 18 bytes of each of the first [k] groups, and nothing of group [k]
    or of the groups after it. *)
Theorem quantizeQ40_stops_at_first_bad_group (x : list F) (k : nat) (f : File) :
  Z.of_nat (length x) mod 32 = 0 ->
  (k < length (reshape 32 x))%nat ->
  forallb finite_group (firstn k (reshape 32 x)) = true ->
  finite_group (nth k (reshape 32 x) []) = false ->
  exists e y,
    quantizeQ40 x f
    = (Raise e, write_all (map Q40_group (firstn k (reshape 32 x))) f)
    /\ ftrunc y = Raise e
    /\ bytes_written (write_all (map Q40_group (firstn k (reshape 32 x))) f)
       = bytes_written f + 18 * Z.of_nat k.
Proof.
  intros Hmod Hk Hfin Hbad.
  destruct (write_groups_stops (reshape 32 x) k 0 f) as [e [y [Hrun Hy]]];
    [apply reshape_group_length; lia | assumption | assumption | assumption |].
  exists e, y. split; [| split; [exact Hy |]].
  - rewrite quantizeQ40_write_groups, Hmod. exact Hrun.
  - destruct (write_all_bytes (map Q40_group (firstn k (reshape 32 x))) f) as [Hb _].
    rewrite Hb, Q40_groups_length, length_firstn. lia.
Qed.

(** X2.  [exportTensor] raises in three cases only: the encoding is none
    of the three (the exception of [getBytes], nothing written); the
    encoding is Q40 and the element count is no multiple of 32 (the
    assertion, nothing written); the encoding is Q40 and some group is
    not finite (the exception of [int], after the groups before the first
    such group were written).  Exports as float16 and float32 never
    raise. *)
Theorem exportTensor_raises_only (tensor : @Tensor F) (floatType : string)
    (e : error) (f f' : File) :
  exportTensor tensor floatType f = (Raise e, f') ->
  (~ In floatType float_types
   /\ e = Exception "Unknown float type" /\ f' = f
   /\ forall n, getBytes n floatType = Raise e)
  \/ (floatType = "q40"
      /\ Z.of_nat (length (data tensor)) mod 32 <> 0
      /\ e = AssertionError /\ f' = f)
  \/ (floatType = "q40"
      /\ Z.of_nat (length (data tensor)) mod 32 = 0
      /\ exists k y,
           (k < length (reshape 32 (data tensor)))%nat
           /\ forallb finite_group (firstn k (reshape 32 (data tensor))) = true
           /\ finite_group (nth k (reshape 32 (data tensor)) []) = false
           /\ f' = write_all (map Q40_group (firstn k (reshape 32 (data tensor)))) f
           /\ ftrunc y = Raise e).
Proof.
  unfold exportTensor.
  destruct (String.eqb floatType "float16") eqn:E16;
    [unfold bind, write, ret; discriminate |].
  destruct (String.eqb floatType "float32") eqn:E32;
    [unfold bind, write, ret; discriminate |].
  destruct (String.eqb floatType "q40") eqn:Eq.
  - apply String.eqb_eq in Eq. subst floatType.
    rewrite quantizeQ40_write_groups.
    destruct (Z.eqb_spec (Z.of_nat (length (data tensor)) mod 32) 0) as [Hmod | Hmod].
    + intros Hrun. right. right. split; [reflexivity |]. split; [exact Hmod |].
      pose proof (reshape_group_length 32 (data tensor) ltac:(lia)) as Hlen.
      destruct (forallb finite_group (reshape 32 (data tensor))) eqn:Hfin.
      * rewrite (write_groups_finite _ 0 f Hlen Hfin) in Hrun. discriminate.
      * apply (forallb_first_false _ []) in Hfin as [k [Hk [Hfirst Hbad]]].
        destruct (write_groups_stops _ k 0 f Hlen Hk Hfirst Hbad) as [e' [y [Hstop Hy]]].
        rewrite Hstop in Hrun. injection Hrun as <- <-.
        exists k, y.
        split; [exact Hk |]. split; [exact Hfirst |]. split; [exact Hbad |].
        split; [reflexivity | exact Hy].
    + intros Hrun. injection Hrun as <- <-. right. left.
      split; [reflexivity |]. split; [exact Hmod |]. split; reflexivity.
  - unfold throw. intros Hrun. injection Hrun as <- <-. left.
    split.
    + unfold float_types. intros [<- | [<- | [<- | []]]]; discriminate.
    + split; [reflexivity |]. split; [reflexivity |].
      intros n. unfold getBytes. rewrite E32, E16, Eq. reflexivity.
Qed.

(** X3.  Exporting a tensor in two slices, the second where the first
    ended, returns the same byte counts in total and leaves the same bytes
    in the file, at the same final position, as exporting the two slices as
    one tensor: in every encoding the output of a tensor is the output of
    its parts, one after the other. *)
Theorem exportTensor_slices_compose (t1 t2 : @Tensor F) (sh : list nat)
    (floatType : string) (n1 n2 : Z) (f f1 f2 : File) :
  exportTensor t1 floatType f = (Ok n1, f1) ->
  exportTensor t2 floatType f1 = (Ok n2, f2) ->
  exists f12,
    exportTensor (mkTensor sh (data t1 ++ data t2)) floatType f = (Ok (n1 + n2), f12)
    /\ pos f12 = pos f2
    /\ stream f12 = stream f2.
Proof.
  unfold exportTensor. cbn [data].
  destruct (String.eqb floatType "float16") eqn:E16.
  { unfold bind, write, ret. intros H1 H2.
    injection H1 as <- <-. injection H2 as <- <-.
    exists (file_write (concat (map pack_e (data t1 ++ data t2))) f).
    split; [| split].
    - rewrite map_app, concat_app, length_app, Nat2Z.inj_add. reflexivity.
    - cbn [pos file_write]. rewrite map_app, concat_app, length_app. lia.
    - rewrite !stream_write, map_app, concat_app, app_assoc. reflexivity. }
  destruct (String.eqb floatType "float32") eqn:E32.
  { unfold bind, write, ret. intros H1 H2.
    injection H1 as <- <-. injection H2 as <- <-.
    exists (file_write (concat (map pack_f (data t1 ++ data t2))) f).
    split; [| split].
    - rewrite map_app, concat_app, length_app, Nat2Z.inj_add. reflexivity.
    - cbn [pos file_write]. rewrite map_app, concat_app, length_app. lia.
    - rewrite !stream_write, map_app, concat_app, app_assoc. reflexivity. }
  destruct (String.eqb floatType "q40") eqn:Eq; [| unfold throw; discriminate].
  rewrite !quantizeQ40_write_groups.
  destruct (Z.eqb_spec (Z.of_nat (length (data t1)) mod 32) 0) as [Hm1 | Hm1];
    [| discriminate].
  destruct (Z.eqb_spec (Z.of_nat (length (data t2)) mod 32) 0) as [Hm2 | Hm2];
    [| discriminate].
  intros H1 H2. exists f2.
  split; [| split; reflexivity].
  assert (Hm : Z.of_nat (length (data t1 ++ data t2)) mod 32 = 0).
  { rewrite length_app, Nat2Z.inj_add, Z.add_mod, Hm1, Hm2 by lia. reflexivity. }
  rewrite Hm. cbn [Z.eqb].
  rewrite (reshape_app 32 (Nat.div (length (data t1)) 32)).
  - rewrite write_groups_app, H1.
    pose proof (write_groups_shift (reshape 32 (data t2)) 0 n1 f1) as Hs.
    rewrite H2 in Hs. change (0 + n1) with n1 in Hs. rewrite Hs.
    f_equal. f_equal. lia.
  - lia.
  - apply Nat2Z.inj. rewrite Nat2Z.inj_mul, Nat2Z.inj_div.
    change (Z.of_nat 32) with 32.
    pose proof (Z.div_mod (Z.of_nat (length (data t1))) 32 ltac:(lia)). lia.
Qed.
End QuantizerFailures.

Lemma quantizeQ40_stops_at_first_bad_group_witness :
  let x := B32.ramp ++ B32.inf_group ++ B32.ramp in
  Z.of_nat (length x) mod 32 = 0
  /\ forallb finite_group (firstn 1 (reshape 32 x)) = true
  /\ finite_group (nth 1 (reshape 32 x) []) = false
  /\ exists e (y : spec_float),
       quantizeQ40 x file_empty
       = (Raise e, write_all (map Q40_group (firstn 1 (reshape 32 x))) file_empty)
       /\ ftrunc y = Raise e
       /\ bytes_written (write_all (map Q40_group (firstn 1 (reshape 32 x))) file_empty)
          = bytes_written file_empty + 18 * Z.of_nat 1.
Proof.
  intros x. split; [reflexivity |].
  split; [vm_compute; reflexivity |]. split; [vm_compute; reflexivity |].
  apply (quantizeQ40_stops_at_first_bad_group x 1 file_empty).
  - reflexivity.
  - vm_compute. lia.
  - vm_compute. reflexivity.
  - vm_compute. reflexivity.
Defined.

Lemma exportTensor_raises_only_witness :
  let tensor := mkTensor [32%nat] B32.inf_group in
  exportTensor tensor "q40" file_empty = (Raise ValueError, file_empty)
  /\ ((~ In "q40" float_types
       /\ ValueError = Exception "Unknown float type" /\ file_empty = file_empty
       /\ forall n, getBytes n "q40" = Raise ValueError)
      \/ ("q40" = "q40"
          /\ Z.of_nat (length (data tensor)) mod 32 <> 0
          /\ ValueError = AssertionError /\ file_empty = file_empty)
      \/ ("q40" = "q40"
          /\ Z.of_nat (length (data tensor)) mod 32 = 0
          /\ exists k (y : spec_float),
               (k < length (reshape 32 (data tensor)))%nat
               /\ forallb finite_group (firstn k (reshape 32 (data tensor))) = true
               /\ finite_group (nth k (reshape 32 (data tensor)) []) = false
               /\ file_empty
                  = write_all (map Q40_group (firstn k (reshape 32 (data tensor))))
                      file_empty
               /\ ftrunc y = Raise ValueError)).
Proof.
  intros tensor. split; [vm_compute; reflexivity |].
  apply (exportTensor_raises_only tensor "q40" ValueError file_empty file_empty).
  vm_compute. reflexivity.
Defined.

Lemma exportTensor_slices_compose_witness :
  let t := mkTensor [32%nat] B32.ramp in
  let f1 := snd (exportTensor t "q40" file_empty) in
  let f2 := snd (exportTensor t "q40" f1) in
  exportTensor t "q40" file_empty = (Ok 18, f1)
  /\ exportTensor t "q40" f1 = (Ok 18, f2)
  /\ exists f12,
       exportTensor (mkTensor [64%nat] (data t ++ data t)) "q40" file_empty
       = (Ok (18 + 18), f12)
       /\ pos f12 = pos f2
       /\ stream f12 = stream f2.
Proof.
  intros t f1 f2.
  split; [vm_compute; reflexivity |]. split; [vm_compute; reflexivity |].
  apply (exportTensor_slices_compose t t [64%nat] "q40" 18 18 file_empty f1 f2).
  - vm_compute. reflexivity.
  - vm_compute. reflexivity.
Defined.

(** ** How far a stored index is from the value it stands for *)
Module ExactBounds.
Import Exact ExactFacts.
Local Open Scope Q_scope.

Lemma Qtrunc_floor (q : Q) : 0 <= q -> Qtrunc q = Qfloor q.
Proof.
  intros Hq. unfold Qtrunc, Qfloor. destruct q as [n d]. cbn [Qnum Qden].
  apply Z.quot_div_nonneg; [| lia].
  unfold Qle in Hq. cbn in Hq. lia.
Qed.

Lemma floor_between (s : Q) (t : Z) :
  inject_Z t <= s -> s < inject_Z t + 1 -> Qfloor s = t.
Proof.
  intros Hlo Hhi.
  pose proof (Qfloor_le s) as H1. pose proof (Qlt_floor s) as H2.
  rewrite inject_Z_plus in H2. change (inject_Z 1) with 1 in H2.
  assert (Hlt1 : inject_Z (Qfloor s) < inject_Z (t + 1)).
  { rewrite inject_Z_plus. change (inject_Z 1) with 1. lra. }
  assert (Hlt2 : inject_Z t < inject_Z (Qfloor s + 1)).
  { rewrite inject_Z_plus. change (inject_Z 1) with 1. lra. }
  rewrite <- Zlt_Qlt in Hlt1, Hlt2. lia.
Qed.

(** Every value of a group lies between the chosen extreme and its
    opposite. *)
Lemma absMax_bounds (g : list Q) (v : Q) :
  In v g ->
  (0 <= absMax_of g -> - absMax_of g <= v /\ v <= absMax_of g)
  /\ (absMax_of g <= 0 -> absMax_of g <= v /\ v <= - absMax_of g).
Proof.
  intros Hv.
  pose proof (np_max_ge g v Hv) as Hmax.
  pose proof (np_min_le g v Hv) as Hmin.
  rewrite absMax_eq.
  destruct (Qle_bool (- np_min g) (np_max g)) eqn:Ec; cbn [negb].
  - apply Qle_bool_iff in Ec. split; intros; split; lra.
  - assert (np_max g < - np_min g).
    { apply Qnot_le_lt. intros Hle. apply Qle_bool_iff in Hle. congruence. }
    split; intros; split; lra.
Qed.

Lemma scaled_le (g : list Q) (v : Q) : In v g -> scaled g v <= (33 # 2).
Proof.
  intros Hv. rewrite scaled_eq.
  destruct (absMax_bounds g v Hv) as [Hpos Hneg].
  destruct (Qeq_bool (absMax_of g / (-8 # 1)) 0) eqn:Ed; cbn [negb].
  - lra.
  - apply Qeq_bool_neq in Ed.
    assert (Ha : ~ absMax_of g == 0).
    { intros Hz. apply Ed. rewrite Hz. reflexivity. }
    assert (Hinv : 1 / (absMax_of g / (-8 # 1)) == (-8 # 1) * / absMax_of g).
    { field. exact Ha. }
    rewrite Hinv.
    pose proof (Qmult_inv_r _ Ha) as Hr.
    destruct (Qlt_le_dec 0 (absMax_of g)) as [Hp | Hn].
    + destruct (Hpos ltac:(lra)) as [Hlo Hhi].
      assert (0 < / absMax_of g) by nra.
      nra.
    + assert (absMax_of g < 0) by (destruct (Qlt_le_dec (absMax_of g) 0); [assumption | exfalso; apply Ha; lra]).
      destruct (Hneg ltac:(lra)) as [Hlo Hhi].
      assert (/ absMax_of g < 0) by nra.
      nra.
Qed.

Lemma delta_eq (g : list Q) : delta_of g = absMax_of g / (-8 # 1).
Proof. reflexivity. Qed.

(** The scaled value undoes the scale: [v = delta * (scaled - 8.5)]. *)
Lemma scaled_inverse (g : list Q) (v : Q) :
  In v g -> v == delta_of g * (scaled g v - (17 # 2)).
Proof.
  intros Hv. rewrite scaled_eq, delta_eq.
  destruct (absMax_bounds g v Hv) as [Hpos Hneg].
  destruct (Qeq_bool (absMax_of g / (-8 # 1)) 0) eqn:Ed; cbn [negb].
  - apply Qeq_bool_eq in Ed.
    assert (Ha : absMax_of g == 0).
    { assert (Hf : absMax_of g == (-8 # 1) * (absMax_of g / (-8 # 1)))
        by (field; discriminate).
      rewrite Ed in Hf. rewrite Hf. reflexivity. }
    rewrite Ed.
    destruct (Hpos ltac:(lra)). lra.
  - apply Qeq_bool_neq in Ed. field.
    intros Hz. apply Ed. rewrite Hz. reflexivity.
Qed.

Lemma q_index_floor (g : list Q) (v : Q) :
  In v g -> q_index g v = Z.min 15 (Qfloor (scaled g v)).
Proof.
  intros Hv. unfold q_index, trunc_val. cbn [ftrunc arith].
  rewrite Qtrunc_floor; [reflexivity |].
  pose proof (scaled_ge_half g v Hv). lra.
Qed.

Lemma absMax_reproduced (g : list Q) :
  In (absMax_of g) g ->
  inject_Z (q_index g (absMax_of g) - 8) * delta_of g == absMax_of g.
Proof.
  intros Hv. rewrite (q_index_floor g _ Hv), delta_eq.
  destruct (Qeq_bool (absMax_of g / (-8 # 1)) 0) eqn:Ed.
  - apply Qeq_bool_eq in Ed.
    assert (Hf : absMax_of g == (-8 # 1) * (absMax_of g / (-8 # 1)))
      by (field; discriminate).
    rewrite Ed in Hf. rewrite Ed. lra.
  - assert (Ha : ~ absMax_of g == 0).
    { apply Qeq_bool_neq in Ed. intros Hz. apply Ed. rewrite Hz. reflexivity. }
    assert (Hs : scaled g (absMax_of g) == 1 # 2).
    { rewrite scaled_eq, Ed. cbn [negb]. field. exact Ha. }
    assert (Hfl : Qfloor (scaled g (absMax_of g)) = 0%Z).
    { apply floor_between; rewrite Hs; change (inject_Z 0) with 0; lra. }
    rewrite Hfl. change (Z.min 15 0 - 8)%Z with (-8)%Z.
    change (inject_Z (-8)) with (-8 # 1). field.
Qed.



Lemma scaled_slope (g : list Q) (v : Q) :
  ~ absMax_of g == 0 ->
  scaled g v == v * ((-8 # 1) * / absMax_of g) + (17 # 2).
Proof.
  intros Ha. rewrite scaled_eq.
  destruct (Qeq_bool (absMax_of g / (-8 # 1)) 0) eqn:Ed; cbn [negb].
  - exfalso. apply Qeq_bool_eq in Ed. apply Ha.
    assert (Hf : absMax_of g == (-8 # 1) * (absMax_of g / (-8 # 1)))
      by (field; discriminate).
    rewrite Ed in Hf. rewrite Hf. reflexivity.
  - field. exact Ha.
Qed.


End ExactBounds.

(** ** The merged dict as a whole *)
Section MergedDict.
Context {F : Type}.

Lemma dict_set_new {V} (k : string) (v : V) (d : list (string * V)) :
  ~ In k (dict_keys d) -> dict_set k v d = d ++ [(k, v)].
Proof.
  induction d as [| [k' v'] d IH]; intros Hk; [reflexivity |].
  cbn [dict_set]. destruct (String.eqb_spec k' k) as [-> | Hne].
  - exfalso. apply Hk. left. reflexivity.
  - cbn [app]. f_equal. apply IH. intros Hin. apply Hk. right. exact Hin.
Qed.

Lemma dict_get_middle {V} (k : string) (v : V) (p s : list (string * V)) :
  ~ In k (dict_keys p) -> dict_get k (p ++ (k, v) :: s) = Ok v.
Proof.
  induction p as [| [k' v'] p IH]; intros Hk.
  - cbn [app dict_get]. rewrite String.eqb_refl. reflexivity.
  - cbn [app dict_get]. destruct (String.eqb_spec k' k) as [-> | Hne].
    + exfalso. apply Hk. left. reflexivity.
    + apply IH. intros Hin. apply Hk. right. exact Hin.
Qed.

Lemma toDict_loop_single (suffix : list (string * @Tensor F)) :
  forall prefix : list (string * @Tensor F),
    List.NoDup (dict_keys (prefix ++ suffix)) ->
    toDict_loop (dict_keys suffix) (prefix, [prefix ++ suffix])
    = Ok (prefix ++ suffix, [prefix ++ suffix]).
Proof.
  induction suffix as [| [name t] suffix IH]; intros prefix Hnd.
  - rewrite app_nil_r. reflexivity.
  - assert (Hnew : ~ In name (dict_keys prefix)).
    { unfold dict_keys in *. rewrite map_app in Hnd. cbn [map fst] in Hnd.
      apply List.NoDup_remove_2 in Hnd. intros Hin. apply Hnd.
      apply in_or_app. left. exact Hin. }
    cbn [dict_keys map fst toDict_loop]. unfold toDict_name.
    cbn [mapM]. rewrite (dict_get_middle name t prefix suffix Hnew).
    cbn [obind length Nat.eqb orb].
    rewrite (dict_set_new name t prefix Hnew).
    specialize (IH (prefix ++ [(name, t)])).
    rewrite <- app_assoc in IH. cbn [app] in IH.
    apply IH. exact Hnd.
Qed.

(** X5.  On a single shard [toDict] is the identity: the merged dict is
    the shard itself, name by name and in the same order, the shard is
    left as it was, and the call does not raise.  This is how [convert]
    calls it. *)
Theorem toDict_single_shard (model : list (string * @Tensor F)) :
  List.NoDup (dict_keys model) -> toDict [model] = Ok (model, [model]).
Proof.
  intros Hnd. unfold toDict.
  apply (toDict_loop_single model []). exact Hnd.
Qed.

Lemma toDict_name_keys (name : string) sd ms sd' ms' :
  toDict_name (F := F) name (sd, ms) = Ok (sd', ms') ->
  ~ In name (dict_keys sd) ->
  dict_keys sd' = dict_keys sd ++ [name].
Proof.
  unfold toDict_name. intros Hrun Hnew.
  destruct (mapM (dict_get name) ms) as [tensors |]; [| discriminate].
  cbn [obind] in Hrun. destruct tensors as [| t0 rest]; [discriminate |].
  assert (Hset : forall t : @Tensor F,
             dict_keys (dict_set name t sd) = dict_keys sd ++ [name]).
  { intros t. rewrite (dict_set_new name t sd Hnew).
    unfold dict_keys. rewrite map_app. reflexivity. }
  destruct (_ || _).
  - injection Hrun as <- <-. apply Hset.
  - destruct (torch_cat (t0 :: rest) _) as [t |]; [| discriminate].
    cbn [obind] in Hrun.
    destruct (mapM (dict_del name) ms) as [r |]; [| discriminate].
    cbn [obind] in Hrun. injection Hrun as <- <-. apply Hset.
Qed.

Lemma toDict_loop_keys (names : list string) :
  forall sd ms sd' ms',
    toDict_loop (F := F) names (sd, ms) = Ok (sd', ms') ->
    List.NoDup names ->
    (forall n, In n names -> ~ In n (dict_keys sd)) ->
    dict_keys sd' = dict_keys sd ++ names.
Proof.
  induction names as [| k names IH]; intros sd ms sd' ms' Hrun Hnd Hnew.
  - injection Hrun as <- <-. rewrite app_nil_r. reflexivity.
  - cbn [toDict_loop] in Hrun.
    destruct (toDict_name k (sd, ms)) as [[sd1 ms1] |] eqn:Ek; [| discriminate].
    cbn [obind] in Hrun.
    apply List.NoDup_cons_iff in Hnd as [Hk Hnd].
    pose proof (toDict_name_keys k sd ms sd1 ms1 Ek
                  (Hnew k (or_introl eq_refl))) as Hk1.
    rewrite (IH sd1 ms1 sd' ms' Hrun Hnd).
    + rewrite Hk1, <- app_assoc. reflexivity.
    + intros n Hn. rewrite Hk1. intros Hin.
      apply in_app_or in Hin as [Hin | [<- | []]].
      * exact (Hnew n (or_intror Hn) Hin).
      * exact (Hk Hn).
Qed.

Lemma mapM_Ok_each {A B} (g : A -> outcome B) (l : list A) (l' : list B) :
  mapM g l = Ok l' -> Forall (fun a => exists b, g a = Ok b) l.
Proof.
  revert l'. induction l as [| a l IH]; intros l' H; [constructor |].
  cbn [mapM] in H. destruct (g a) as [b |] eqn:Ea; [| discriminate].
  cbn [obind] in H. destruct (mapM g l) as [bs |]; [| discriminate].
  constructor; [exists b; exact Ea | eapply IH; reflexivity].
Qed.

(** X6.  When [toDict] returns, the merged dict has exactly the names of
    the first shard, in the first shard's order, and every one of these
    names is present in every shard: a name that a later shard lacks makes
    the call raise, and a name that only later shards hold is dropped. *)
Theorem toDict_names (models : list (list (string * @Tensor F)))
    (sd : list (string * @Tensor F)) (models' : list (list (string * @Tensor F))) :
  toDict models = Ok (sd, models') ->
  well_keyed models ->
  dict_keys sd = dict_keys (hd [] models)
  /\ forall name, In name (dict_keys (hd [] models)) ->
       Forall (fun m => In name (dict_keys m)) models.
Proof.
  intros Hrun Hwk. split.
  - unfold toDict in Hrun. destruct models as [| m0 rest]; [discriminate |].
    cbn [hd].
    apply (toDict_loop_keys (dict_keys m0) [] (m0 :: rest) sd models' Hrun).
    + inversion Hwk; assumption.
    + intros n _ [].
  - intros name Hname.
    destruct (toDict_spec name models sd models' Hrun Hwk Hname)
      as (tensors & t0 & rest & Hget & _).
    apply mapM_Ok_each in Hget.
    eapply List.Forall_impl; [| exact Hget].
    intros m [t Ht]. eapply dict_get_in_keys. exact Ht.
Qed.
End MergedDict.

Lemma toDict_single_shard_witness :
  let model := hd [] merge_shards in
  List.NoDup (dict_keys model) /\ toDict [model] = Ok (model, [model]).
Proof.
  intros model.
  assert (Hnd : List.NoDup (dict_keys model)).
  { unfold model, merge_shards, dict_keys. cbn [hd map fst].
    repeat (apply List.NoDup_cons; [cbn [In]; intros H; repeat (destruct H as [H | H]; [discriminate H |]); exact H |]).
    apply List.NoDup_nil. }
  split; [exact Hnd |].
  apply (toDict_single_shard model Hnd).
Defined.

Lemma toDict_names_witness :
  let sd :=
    [("layers.0.attention.wq.weight", mkTensor [2; 2]%nat [1; 2; 3; 4]);
     ("layers.0.attention.wo.weight", mkTensor [2; 2]%nat [5; 7; 6; 8]);
     ("norm.weight", mkTensor [2]%nat [9; 9])] in
  let ms' := [[("norm.weight", mkTensor [2]%nat [9; 9])];
              [("norm.weight", mkTensor [2]%nat [0; 0])]] in
  toDict merge_shards = Ok (sd, ms')
  /\ well_keyed merge_shards
  /\ dict_keys sd = dict_keys (hd [] merge_shards).
Proof.
  intros sd ms'.
  assert (Hrun : toDict merge_shards = Ok (sd, ms')) by (vm_compute; reflexivity).
  split; [exact Hrun |]. split; [exact merge_shards_well_keyed |].
  exact (proj1 (toDict_names merge_shards sd ms' Hrun merge_shards_well_keyed)).
Defined.

(** ** The header, field by field *)

Lemma le_value_le_bytes (w : nat) :
  forall u : Z, 0 <= u -> le_value (le_bytes w u) = u mod 256 ^ Z.of_nat w.
Proof.
  induction w as [| w IH]; intros u Hu.
  - cbn [le_bytes le_value]. change (256 ^ Z.of_nat 0) with 1. rewrite Z.mod_1_r. reflexivity.
  - cbn [le_bytes le_value].
    rewrite IH by (apply Z.shiftr_nonneg; exact Hu).
    change 255 with (Z.ones 8). rewrite Z.land_ones by lia.
    rewrite Z.shiftr_div_pow2 by lia. change (2 ^ 8) with 256.
    rewrite Nat2Z.inj_succ, Z.pow_succ_r by lia.
    rewrite Z.rem_mul_r by lia. reflexivity.
Qed.

Lemma le_bytes_range (w : nat) :
  forall u : Z, Forall (fun b => 0 <= b < 256) (le_bytes w u).
Proof.
  induction w as [| w IH]; intros u; cbn [le_bytes]; constructor.
  - change 255 with (Z.ones 8). rewrite Z.land_ones by lia.
    change (2 ^ 8) with 256. apply Z.mod_pos_bound. lia.
  - apply IH.
Qed.

(** [struct.unpack('i', struct.pack('i', n))] is [n]. *)
Lemma unpack_pack_i (n : Z) (b : list Z) : pack_i n = Ok b -> unpack_i b = n.
Proof.
  unfold pack_i. destruct (_ && _) eqn:Hr; [| discriminate].
  intros Hb. assert (Hb' : b = le_bytes 4 (n mod 2 ^ 32)) by congruence.
  clear Hb. subst b. apply andb_prop in Hr as [Hlo Hhi].
  apply Z.leb_le in Hlo. apply Z.ltb_lt in Hhi.
  unfold unpack_i. cbv zeta.
  rewrite le_value_le_bytes by (apply Z.mod_pos_bound; lia).
  change (256 ^ Z.of_nat 4) with (2 ^ 32).
  rewrite Z.mod_mod by lia.
  destruct (Z.ltb_spec (n mod 2 ^ 32) (2 ^ 31)) as [Hs | Hs].
  - destruct (Z.lt_ge_cases n 0) as [Hneg | Hpos].
    + rewrite <- (Z.mod_add n 1 (2 ^ 32)) in Hs by lia.
      rewrite Z.mod_small in Hs by lia. lia.
    + apply Z.mod_small. lia.
  - destruct (Z.lt_ge_cases n 0) as [Hneg | Hpos].
    + rewrite <- (Z.mod_add n 1 (2 ^ 32)) by lia.
      rewrite Z.mod_small by lia. lia.
    + rewrite Z.mod_small in Hs by lia. lia.
Qed.

Lemma field_bytes_0 (l rest : list Z) :
  length l = 4%nat -> field_bytes 0 (l ++ rest) = l.
Proof.
  intros Hl. unfold field_bytes. change (skipn (4 * 0) (l ++ rest)) with (l ++ rest).
  rewrite firstn_app, Hl. cbn [Nat.sub firstn]. rewrite app_nil_r.
  apply firstn_all2. lia.
Qed.

Lemma field_bytes_S (k : nat) (l rest : list Z) :
  length l = 4%nat -> field_bytes (S k) (l ++ rest) = field_bytes k rest.
Proof.
  intros Hl. unfold field_bytes.
  rewrite skipn_app, Hl. rewrite (skipn_all2 l) by lia.
  cbn [app]. f_equal. f_equal. lia.
Qed.

(** The fields that [struct.pack] lays down for the looked-up values. *)
Lemma packed_fields (p : gmap string pynum) (keys : list string) :
  forall (vals : list pynum) (fields : list (list Z)),
    mapM (getitem p) keys = Ok vals ->
    mapM pack_i_num vals = Ok fields ->
    length (concat fields) = (4 * length keys)%nat
    /\ Forall (fun b => 0 <= b < 256) (concat fields)
    /\ forall k key, nth_error keys k = Some key ->
         exists z, p !! key = Some (PInt z)
                   /\ pack_i z = Ok (field_bytes k (concat fields)).
Proof.
  induction keys as [| key0 keys IH]; intros vals fields Hv Hf.
  - injection Hv as <-. injection Hf as <-.
    split; [reflexivity |]. split; [constructor |].
    intros k key Hk. destruct k; discriminate.
  - cbn [mapM] in Hv. unfold getitem at 1 in Hv.
    destruct (p !! key0) as [v0 |] eqn:E0; [| discriminate]. cbn [obind] in Hv.
    destruct (mapM (getitem p) keys) as [vs |] eqn:Evs; [| discriminate].
    injection Hv as <-. cbn [mapM] in Hf.
    destruct (pack_i_num v0) as [l0 |] eqn:El0; [| discriminate]. cbn [obind] in Hf.
    destruct (mapM pack_i_num vs) as [ls |] eqn:Els; [| discriminate].
    injection Hf as <-.
    destruct (IH vs ls eq_refl Els) as [Hlen [Hrange Hfields]].
    pose proof (pack_i_num_length _ _ El0) as Hl0.
    cbn [concat length]. rewrite length_app, Hl0, Hlen.
    split; [lia |]. split.
    + apply Forall_app. split; [| exact Hrange].
      destruct v0 as [z0 | q0]; [| discriminate].
      cbn [pack_i_num] in El0. unfold pack_i in El0.
      destruct (_ && _); [| discriminate]. injection El0 as <-.
      apply (le_bytes_range 4 (z0 mod 2 ^ 32)).
    + intros k key Hk. destruct k as [| k].
      * injection Hk as <-. destruct v0 as [z0 | q0]; [| discriminate].
        exists z0. split; [exact E0 |].
        rewrite (field_bytes_0 l0 (concat ls) Hl0). exact El0.
      * rewrite (field_bytes_S k l0 (concat ls) Hl0). apply Hfields. exact Hk.
Qed.

Lemma mapM_Raise_first {A B} (g : A -> outcome B) (l : list A) (e : error) :
  mapM g l = Raise e -> exists a, In a l /\ g a = Raise e.
Proof.
  induction l as [| a l IH]; [discriminate |].
  cbn [mapM]. destruct (g a) as [b |] eqn:Ea.
  - cbn [obind]. destruct (mapM g l) as [bs |]; [discriminate |].
    cbn [obind]. intros [= <-]. destruct (IH eq_refl) as [a' [Hin Ha']].
    exists a'. split; [right; exact Hin | exact Ha'].
  - cbn [obind]. intros [= <-]. exists a. split; [left; reflexivity | exact Ea].
Qed.

Lemma mapM_total {A B} (g : A -> outcome B) (l : list A) :
  (forall a, In a l -> exists b, g a = Ok b) -> exists l', mapM g l = Ok l'.
Proof.
  induction l as [| a l IH]; intros H; [exists []; reflexivity |].
  destruct (H a (or_introl eq_refl)) as [b Hb].
  destruct IH as [l' Hl']; [intros a' Ha'; apply H; right; exact Ha' |].
  exists (b :: l'). cbn [mapM]. rewrite Hb, Hl'. reflexivity.
Qed.

Lemma mapM_In {A B} (g : A -> outcome B) (l : list A) (l' : list B) (b : B) :
  mapM g l = Ok l' -> In b l' -> exists a, In a l /\ g a = Ok b.
Proof.
  revert l'. induction l as [| a l IH]; intros l' H Hb.
  - injection H as <-. destruct Hb.
  - cbn [mapM] in H. destruct (g a) as [b0 |] eqn:Ea; [| discriminate].
    cbn [obind] in H. destruct (mapM g l) as [bs |]; [| discriminate].
    injection H as <-. destruct Hb as [<- | Hb].
    + exists a. split; [left; reflexivity | exact Ea].
    + destruct (IH bs eq_refl Hb) as [a' [Hin Ha']].
      exists a'. split; [right; exact Hin | exact Ha'].
Qed.

(** X7.  A header that [writeHeader] writes can be read back: it is one
    write of 28 bytes at the current position, the return value is 28, and
    the [k]-th group of four bytes, read as a little-endian signed integer,
    is the entry of the [k]-th of the seven keys [dim], [hidden_dim],
    [n_layers], [n_heads], [n_kv_heads], [vocab_size], [max_seq_len]. *)
Theorem writeHeader_round_trip (p : gmap string pynum) (n : Z) (f f' : File) :
  writeHeader p f = (Ok n, f') ->
  exists header,
    f' = file_write header f
    /\ n = 28
    /\ length header = 28%nat
    /\ Forall (fun b => 0 <= b < 256) header
    /\ forall k key, nth_error header_keys k = Some key ->
         p !! key = Some (PInt (unpack_i (field_bytes k header))).
Proof.
  intros Hw. unfold writeHeader in Hw.
  destruct (mapM (getitem p) header_keys) as [vals |] eqn:Ev;
    [| rewrite bind_lift_Raise in Hw; discriminate].
  rewrite bind_lift_Ok in Hw. cbv beta in Hw.
  destruct (mapM pack_i_num vals) as [fields |] eqn:Ef;
    [| rewrite bind_lift_Raise in Hw; discriminate].
  rewrite bind_lift_Ok in Hw. cbv beta in Hw.
  unfold bind, write, ret in Hw. injection Hw as <- <-.
  destruct (packed_fields p header_keys vals fields Ev Ef) as [Hlen [Hrange Hfields]].
  exists (concat fields).
  split; [reflexivity |]. split; [rewrite Hlen; reflexivity |].
  split; [exact Hlen |]. split; [exact Hrange |].
  intros k key Hk. destruct (Hfields k key Hk) as [z [Hz Hpack]].
  rewrite (unpack_pack_i z _ Hpack). exact Hz.
Qed.

(** X8.  [writeHeader] writes all of the header or nothing.  It returns
    when each of the seven keys holds an [int] that fits 32 bits.
    Otherwise it raises and the file is untouched: [KeyError] for a
    missing key, whatever the other entries are, and the error of
    [struct.pack] when all keys are present and one holds a float or an
    integer out of range. *)
Theorem writeHeader_all_or_nothing (p : gmap string pynum) (f : File) :
  ((forall key, In key header_keys ->
      exists z, p !! key = Some (PInt z) /\ - 2 ^ 31 <= z < 2 ^ 31) ->
   exists header, writeHeader p f = (Ok 28, file_write header f))
  /\ (forall e f',
        writeHeader p f = (Raise e, f') ->
        f' = f
        /\ ((exists key, In key header_keys /\ p !! key = None /\ e = KeyError key)
            \/ (e = StructError
                /\ (forall key, In key header_keys -> p !! key <> None)
                /\ exists key v, In key header_keys /\ p !! key = Some v
                                 /\ pack_i_num v = Raise StructError))).
Proof.
  split.
  - intros Hall.
    destruct (mapM_total (getitem p) header_keys) as [vals Hv].
    { intros key Hkey. destruct (Hall key Hkey) as [z [Hz _]].
      exists (PInt z). unfold getitem. rewrite Hz. reflexivity. }
    destruct (mapM_total pack_i_num vals) as [fields Hf].
    { intros v Hin. destruct (mapM_In _ _ _ _ Hv Hin) as [key [Hkey Hget]].
      destruct (Hall key Hkey) as [z [Hz Hr]].
      unfold getitem in Hget. rewrite Hz in Hget. injection Hget as <-.
      cbn [pack_i_num]. unfold pack_i.
      destruct (Z.leb_spec (- 2 ^ 31) z); [| lia].
      destruct (Z.ltb_spec z (2 ^ 31)); [| lia].
      eexists. reflexivity. }
    exists (concat fields). unfold writeHeader.
    rewrite Hv, bind_lift_Ok. cbv beta. rewrite Hf, bind_lift_Ok. cbv beta.
    unfold bind, write, ret.
    destruct (packed_fields p header_keys vals fields Hv Hf) as [Hlen _].
    rewrite Hlen. reflexivity.
  - intros e f' Hw. split; [eapply writeHeader_raise; exact Hw |].
    unfold writeHeader in Hw.
    destruct (mapM (getitem p) header_keys) as [vals |] eqn:Ev.
    + rewrite bind_lift_Ok in Hw. cbv beta in Hw.
      destruct (mapM pack_i_num vals) as [fields |] eqn:Ef.
      * rewrite bind_lift_Ok in Hw. unfold bind, write, ret in Hw. discriminate.
      * rewrite bind_lift_Raise in Hw. injection Hw as <- <-.
        destruct (mapM_Raise_first _ _ _ Ef) as [v [Hin Hv]].
        destruct (mapM_In _ _ _ _ Ev Hin) as [key [Hkey Hget]].
        assert (He : e0 = StructError).
        { destruct v as [z | q]; cbn [pack_i_num] in Hv.
          - unfold pack_i in Hv. destruct (_ && _); congruence.
          - congruence. }
        subst e0. right. split; [reflexivity |]. split.
        -- intros key' Hkey' Hnone.
           apply mapM_Ok_each in Ev.
           destruct (proj1 (List.Forall_forall _ _) Ev key' Hkey') as [b Hb].
           unfold getitem in Hb. rewrite Hnone in Hb. discriminate.
        -- exists key, v. split; [exact Hkey |]. split; [| exact Hv].
           unfold getitem in Hget. destruct (p !! key); congruence.
    + rewrite bind_lift_Raise in Hw. injection Hw as <- <-.
      destruct (mapM_Raise_first _ _ _ Ev) as [key [Hkey Hget]].
      left. exists key. split; [exact Hkey |].
      unfold getitem in Hget. destruct (p !! key); [discriminate |].
      split; [reflexivity | congruence].
Qed.

Lemma writeHeader_round_trip_witness :
  let f' := snd (writeHeader demo_params file_empty) in
  writeHeader demo_params file_empty = (Ok 28, f')
  /\ exists header,
       f' = file_write header file_empty
       /\ length header = 28%nat
       /\ demo_params !! "hidden_dim" = Some (PInt (unpack_i (field_bytes 1 header)))
       /\ demo_params !! "max_seq_len" = Some (PInt (unpack_i (field_bytes 6 header))).
Proof.
  intros f'.
  assert (H : writeHeader demo_params file_empty = (Ok 28, f'))
    by (vm_compute; reflexivity).
  split; [exact H |].
  destruct (writeHeader_round_trip demo_params 28 file_empty f' H)
    as (header & Hf & _ & Hlen & _ & Hfields).
  exists header. split; [exact Hf |]. split; [exact Hlen |].
  split; [exact (Hfields 1%nat "hidden_dim" eq_refl)
         | exact (Hfields 6%nat "max_seq_len" eq_refl)].
Defined.

Lemma writeHeader_all_or_nothing_witness :
  Demo.raw !! "hidden_dim" = None
  /\ writeHeader Demo.raw file_empty = (Raise (KeyError "hidden_dim"), file_empty)
  /\ exists key, In key header_keys /\ Demo.raw !! key = None.
Proof.
  assert (H : writeHeader Demo.raw file_empty
              = (Raise (KeyError "hidden_dim"), file_empty))
    by (vm_compute; reflexivity).
  split; [vm_compute; reflexivity |]. split; [exact H |].
  destruct (proj2 (writeHeader_all_or_nothing Demo.raw file_empty) _ _ H)
    as [_ [(key & Hkey & Hnone & _) | (He & _)]]; [| discriminate He].
  exists key. split; assumption.
Defined.

(** ** Sizes and the block table *)

Lemma in_float_types (ty : string) :
  In ty float_types
  <-> String.eqb ty "float32" || String.eqb ty "float16" || String.eqb ty "q40" = true.
Proof.
  unfold float_types. split.
  - intros [<- | [<- | [<- | []]]]; reflexivity.
  - intros H. apply orb_prop in H as [H | H]; [apply orb_prop in H as [H | H] |];
      apply String.eqb_eq in H; subst; cbn [In]; auto.
Qed.

Lemma getBytes_total (n : pynum) (ty : string) :
  In ty float_types -> exists b, getBytes n ty = Ok b.
Proof.
  unfold float_types. intros [<- | [<- | [<- | []]]];
    [eexists; reflexivity | eexists; reflexivity |].
  unfold getBytes. cbn [String.eqb Ascii.eqb Bool.eqb]. unfold pfloordiv.
  cbn [is_zero Z.eqb]. destruct n; eexists; reflexivity.
Qed.

Lemma getBytes_unknown (n : pynum) (ty : string) :
  ~ In ty float_types -> getBytes n ty = Raise (Exception "Unknown float type").
Proof.
  rewrite in_float_types. unfold getBytes.
  destruct (String.eqb ty "float32"); [intros H; exfalso; apply H; reflexivity |].
  destruct (String.eqb ty "float16"); [intros H; exfalso; apply H; reflexivity |].
  destruct (String.eqb ty "q40"); [intros H; exfalso; apply H; reflexivity |].
  reflexivity.
Qed.

Lemma getBytes_error (n : pynum) (ty : string) (e : error) :
  getBytes n ty = Raise e ->
  e = Exception "Unknown float type" /\ ~ In ty float_types.
Proof.
  destruct (in_dec string_dec ty float_types) as [Hin | Hnot].
  - destruct (getBytes_total n ty Hin) as [b ->]. discriminate.
  - rewrite (getBytes_unknown n ty Hnot). intros [= <-]. split; [reflexivity | exact Hnot].
Qed.

Lemma getBytes_split (a b : Z) (ty : string) :
  In ty float_types ->
  (ty = "q40" -> a mod 32 = 0) ->
  exists na nb,
    getBytes (PInt a) ty = Ok na
    /\ getBytes (PInt b) ty = Ok nb
    /\ getBytes (PInt (a + b)) ty = Ok (na + nb).
Proof.
  unfold float_types. intros [<- | [<- | [<- | []]]] Hq.
  - exists (a * 2), (b * 2). unfold getBytes. cbn [String.eqb Ascii.eqb Bool.eqb pmul pint].
    repeat split; f_equal; lia.
  - exists (a * 4), (b * 4). unfold getBytes. cbn [String.eqb Ascii.eqb Bool.eqb pmul pint].
    repeat split; f_equal; lia.
  - specialize (Hq eq_refl).
    exists (a / 32 * 18), (b / 32 * 18). unfold getBytes.
    cbn [String.eqb Ascii.eqb Bool.eqb pfloordiv is_zero Z.eqb obind pmul pint].
    split; [reflexivity |]. split; [reflexivity |]. f_equal.
    pose proof (Z.div_mod a 32 ltac:(lia)) as Ha.
    replace (a + b) with (b + a / 32 * 32) by lia.
    rewrite Z.div_add by lia. lia.
Qed.

Section PlannedSizes.
Context {F : Type} {FA : FloatArith F} {FP : FloatPack F}.

Lemma write_groups_count (gs : list (list F)) :
  forall (n n' : Z) (f f' : File),
    write_groups gs n f = (Ok n', f') -> n' = n + 18 * Z.of_nat (length gs).
Proof.
  induction gs as [| g gs IH]; intros n n' f f'.
  - intros [= <- <-]. cbn [length]. lia.
  - cbn [write_groups]. unfold bind, lift, write.
    destruct (group_buffer g) as [b | e]; [| discriminate].
    intros H. apply IH in H. cbn [length]. lia.
Qed.

(** A successful export returns what [getBytes] plans for the element
    count, and a Q40 export succeeds on whole groups only. *)
Lemma exportTensor_returns_planned (tensor : @Tensor F) (ty : string) (n : Z)
    (f f' : File) :
  exportTensor tensor ty f = (Ok n, f') ->
  In ty float_types
  /\ getBytes (PInt (Z.of_nat (length (data tensor)))) ty = Ok n
  /\ (ty = "q40" -> Z.of_nat (length (data tensor)) mod 32 = 0).
Proof.
  unfold exportTensor.
  destruct (String.eqb_spec ty "float16") as [-> | H16].
  { unfold bind, write, ret. intros [= <- <-].
    split; [left; reflexivity |]. split; [| discriminate].
    unfold getBytes. cbn [String.eqb Ascii.eqb Bool.eqb pmul pint].
    rewrite (concat_fixed_length 2 pack_e) by apply pack_e_length.
    f_equal. lia. }
  destruct (String.eqb_spec ty "float32") as [-> | H32].
  { unfold bind, write, ret. intros [= <- <-].
    split; [right; left; reflexivity |]. split; [| discriminate].
    unfold getBytes. cbn [String.eqb Ascii.eqb Bool.eqb pmul pint].
    rewrite (concat_fixed_length 4 pack_f) by apply pack_f_length.
    f_equal. lia. }
  destruct (String.eqb_spec ty "q40") as [-> | Hq]; [| unfold throw; discriminate].
  rewrite quantizeQ40_write_groups.
  destruct (Z.eqb_spec (Z.of_nat (length (data tensor)) mod 32) 0) as [Hm | Hm];
    [| discriminate].
  intros Hrun. apply write_groups_count in Hrun.
  split; [right; right; left; reflexivity |]. split; [| intros _; exact Hm].
  unfold getBytes.
  cbn [String.eqb Ascii.eqb Bool.eqb pfloordiv is_zero Z.eqb obind pmul pint].
  rewrite Hrun, reshape_length, Nat2Z.inj_div. f_equal.
  change (Z.of_nat 32) with 32. lia.
Qed.

(** X9.  When a tensor is exported in two slices and both exports return,
    the two return values add up to the size that [getBytes] plans for the
    whole tensor, in every encoding: the progress of a name reaches its
    expected size exactly when all its elements have been exported. *)
Theorem slices_fill_planned_size (t1 t2 : @Tensor F) (ty : string) (n1 n2 : Z)
    (f f1 f1' f2 : File) :
  exportTensor t1 ty f = (Ok n1, f1) ->
  exportTensor t2 ty f1' = (Ok n2, f2) ->
  getBytes (PInt (Z.of_nat (length (data t1) + length (data t2)))) ty
  = Ok (n1 + n2).
Proof.
  intros H1 H2.
  destruct (exportTensor_returns_planned _ _ _ _ _ H1) as [Hin [Hg1 Hq1]].
  destruct (exportTensor_returns_planned _ _ _ _ _ H2) as [_ [Hg2 _]].
  destruct (getBytes_split (Z.of_nat (length (data t1)))
              (Z.of_nat (length (data t2))) ty Hin Hq1) as (na & nb & Ha & Hb & Hab).
  rewrite Nat2Z.inj_add, Hab. congruence.
Qed.
End PlannedSizes.

Lemma slices_fill_planned_size_witness :
  let t1 := mkTensor [32%nat] B32.ramp in
  let t2 := Demo.ones [64%nat] in
  let f1 := snd (exportTensor t1 "q40" file_empty) in
  let f2 := snd (exportTensor t2 "q40" f1) in
  exportTensor t1 "q40" file_empty = (Ok 18, f1)
  /\ exportTensor t2 "q40" f1 = (Ok 36, f2)
  /\ getBytes (PInt 96) "q40" = Ok 54.
Proof.
  intros t1 t2 f1 f2.
  assert (H1 : exportTensor t1 "q40" file_empty = (Ok 18, f1)) by (vm_compute; reflexivity).
  assert (H2 : exportTensor t2 "q40" f1 = (Ok 36, f2)) by (vm_compute; reflexivity).
  split; [exact H1 |]. split; [exact H2 |].
  exact (slices_fill_planned_size t1 t2 "q40" 18 36 file_empty f1 f1 f2 H1 H2).
Defined.

Lemma getBlockOffsets_Ok (params : gmap string pynum) (target : string)
    (dim nkv nh hd : pynum) :
  params !! "dim" = Some dim ->
  params !! "n_kv_heads" = Some nkv ->
  params !! "n_heads" = Some nh ->
  params !! "hidden_dim" = Some hd ->
  is_zero nh = false ->
  In target float_types ->
  exists sizes,
    length sizes = 9%nat
    /\ getBlockOffsets params target = Ok (block_table sizes).
Proof.
  intros Hd Hkv Hnh Hh Hz Hin.
  unfold getBlockOffsets, getitem. rewrite Hd, Hkv, Hnh, Hh. cbn [obind].
  unfold ptruediv. rewrite Hz. cbn [obind].
  destruct (getBytes_total dim "float32") as [rms ->]; [right; left; reflexivity |].
  cbn [obind].
  destruct (getBytes_total (pmul dim dim) target Hin) as [q ->]. cbn [obind].
  destruct (getBytes_total
              (pmul dim (PFloat (Qred (to_Q (pmul dim nkv) / to_Q nh)))) target Hin)
    as [k ->]. cbn [obind].
  destruct (getBytes_total (pmul dim hd) target Hin) as [w1 ->]. cbn [obind].
  destruct (getBytes_total (pmul hd dim) target Hin) as [w2 ->]. cbn [obind].
  rewrite add_offsets_table.
  exists [rms; rms; q; k; k; q; w1; w2; w1]. split; reflexivity.
Qed.



(** ** The regions of a block *)

Lemma sum_Z_from (l : list Z) : forall a, fold_left Z.add l a = a + sum_Z l.
Proof.
  unfold sum_Z. induction l as [| x l IH]; intros a; cbn [fold_left]; [lia |].
  rewrite (IH (a + x)), (IH (0 + x)). lia.
Qed.

Lemma sum_Z_app (l1 l2 : list Z) : sum_Z (l1 ++ l2) = sum_Z l1 + sum_Z l2.
Proof.
  unfold sum_Z at 1. rewrite fold_left_app. fold (sum_Z l1). apply sum_Z_from.
Qed.

Lemma sum_Z_nonneg (l : list Z) : Forall (fun s => 0 <= s) l -> 0 <= sum_Z l.
Proof.
  induction 1 as [| x l Hx Hl IH]; [reflexivity |].
  change (x :: l) with ([x] ++ l). rewrite sum_Z_app.
  unfold sum_Z at 1. cbn [fold_left]. lia.
Qed.

Lemma sum_Z_firstn_S (l : list Z) (j : nat) :
  (j < length l)%nat ->
  sum_Z (firstn (S j) l) = sum_Z (firstn j l) + nth j l 0.
Proof.
  revert j. induction l as [| x l IH]; intros j Hj; [cbn in Hj; lia |].
  destruct j as [| j].
  - change (firstn 1 (x :: l)) with [x]. change (firstn 0 (x :: l)) with (@nil Z).
    unfold sum_Z. cbn [fold_left nth]. lia.
  - change (firstn (S (S j)) (x :: l)) with ([x] ++ firstn (S j) l).
    change (firstn (S j) (x :: l)) with ([x] ++ firstn j l).
    rewrite !sum_Z_app. cbn [nth]. rewrite IH by (cbn [length] in Hj; lia). lia.
Qed.

Lemma Forall_firstn_nonneg (l : list Z) (j : nat) :
  Forall (fun s => 0 <= s) l -> Forall (fun s => 0 <= s) (firstn j l).
Proof.
  intros Hl. apply List.Forall_forall. intros s Hs.
  apply (proj1 (List.Forall_forall _ _) Hl).
  rewrite <- (firstn_skipn j l). apply in_or_app. left. exact Hs.
Qed.

Lemma sum_Z_firstn_le (l : list Z) :
  Forall (fun s => 0 <= s) l ->
  forall j j' : nat, (j <= j')%nat -> sum_Z (firstn j l) <= sum_Z (firstn j' l).
Proof.
  induction 1 as [| x l Hx Hl IH]; intros j j' Hjj.
  - rewrite !firstn_nil. lia.
  - destruct j as [| j].
    + change (firstn 0 (x :: l)) with (@nil Z).
      apply (sum_Z_nonneg (firstn j' (x :: l))).
      apply Forall_firstn_nonneg. constructor; assumption.
    + destruct j' as [| j']; [lia |].
      change (firstn (S j) (x :: l)) with ([x] ++ firstn j l).
      change (firstn (S j') (x :: l)) with ([x] ++ firstn j' l).
      rewrite !sum_Z_app. specialize (IH j j' ltac:(lia)). lia.
Qed.

Local Open Scope Q_scope.

Lemma to_Q_pmul (a b : pynum) : to_Q (pmul a b) == to_Q a * to_Q b.
Proof.
  destruct a as [x | p], b as [y | q]; cbn [pmul to_Q];
    [rewrite inject_Z_mult; reflexivity | apply Qred_correct ..].
Qed.

Lemma pint_nonneg (n : pynum) : 0 <= to_Q n -> (0 <= pint n)%Z.
Proof.
  destruct n as [z | q]; cbn [to_Q pint].
  - intros H. change 0 with (inject_Z 0) in H. rewrite <- Zle_Qle in H. exact H.
  - apply ExactFacts.Qtrunc_nonneg.
Qed.

Lemma getBytes_nonneg (n : pynum) (ty : string) (b : Z) :
  0 <= to_Q n -> getBytes n ty = Ok b -> (0 <= b)%Z.
Proof.
  intros Hn. unfold getBytes.
  destruct (String.eqb ty "float32").
  { intros [= <-]. apply pint_nonneg. rewrite to_Q_pmul. cbn [to_Q].
    change (inject_Z 4) with (4 # 1). lra. }
  destruct (String.eqb ty "float16").
  { intros [= <-]. apply pint_nonneg. rewrite to_Q_pmul. cbn [to_Q].
    change (inject_Z 2) with (2 # 1). lra. }
  destruct (String.eqb ty "q40"); [| discriminate].
  unfold pfloordiv. cbn [is_zero Z.eqb].
  destruct n as [z | q]; cbn [obind]; intros Hb.
  - assert (Hb' : b = (z / 32 * 18)%Z) by (cbn [pmul pint] in Hb; congruence).
    subst b. cbn [to_Q] in Hn.
    change 0 with (inject_Z 0) in Hn. rewrite <- Zle_Qle in Hn.
    pose proof (Z.div_pos z 32 Hn ltac:(lia)). lia.
  - change (Ok (pint (pmul (PFloat (inject_Z (Qfloor (q / inject_Z 32))))
                           (PInt 18))) = Ok b) in Hb.
    injection Hb as Hb. subst b. cbn [to_Q] in Hn.
    apply (pint_nonneg (pmul (PFloat (inject_Z (Qfloor (q / inject_Z 32))))
                             (PInt 18))).
    rewrite to_Q_pmul. cbn [to_Q].
    assert (Hfl : (0 <= Qfloor (q / inject_Z 32))%Z).
    { change 0%Z with (Qfloor 0). apply Qfloor_resp_le.
      unfold Qdiv. change (/ inject_Z 32) with (1 # 32). lra. }
    rewrite Zle_Qle in Hfl. change (inject_Z 0) with 0 in Hfl.
    change (inject_Z 18) with (18 # 1). lra.
Qed.

Local Close Scope Q_scope.



(** ** Reading the hyperparameters *)

(** [params.get('n_kv_heads') or params['n_heads']] *)
Lemma n_kv_heads_default (raw : gmap string pynum) (nh : pynum) :
  raw !! "n_heads" = Some nh ->
  match raw !! "n_kv_heads" with
  | Some v => if ptruthy v then Ok v else getitem raw "n_heads"
  | None => getitem raw "n_heads"
  end
  = Ok (match raw !! "n_kv_heads" with
        | Some v => if is_zero v then nh else v
        | None => nh
        end).
Proof.
  intros Hnh. unfold getitem, ptruthy. rewrite Hnh.
  destruct (raw !! "n_kv_heads") as [v |]; [| reflexivity].
  destruct (is_zero v); reflexivity.
Qed.

Lemma load_params_iff (raw params : gmap string pynum) :
  load_params raw = Ok params
  <-> exists vocab_size dim n_heads,
        raw !! "vocab_size" = Some vocab_size
        /\ plt vocab_size (PInt 1) = false
        /\ raw !! "dim" = Some dim
        /\ raw !! "n_heads" = Some n_heads
        /\ is_zero n_heads = false
        /\ params
           = <["max_seq_len" := PInt 2048]>
               (<["head_size" := PFloat (Qred (to_Q dim / to_Q n_heads))]>
                  (<["n_kv_heads" :=
                       match raw !! "n_kv_heads" with
                       | Some v => if is_zero v then n_heads else v
                       | None => n_heads
                       end]> raw)).
Proof.
  unfold load_params. split.
  - unfold getitem at 1.
    destruct (raw !! "vocab_size") as [vs |] eqn:Hvs; [| discriminate]. cbn [obind].
    destruct (plt vs (PInt 1)) eqn:Hlt; [discriminate |].
    destruct (raw !! "n_heads") as [nh |] eqn:Hnh.
    + rewrite (n_kv_heads_default raw nh Hnh). cbn [obind].
      unfold getitem. rewrite !lookup_insert_ne by discriminate. rewrite Hnh.
      destruct (raw !! "dim") as [dim |] eqn:Hdim; [| discriminate]. cbn [obind].
      unfold ptruediv. destruct (is_zero nh) eqn:Hz; [discriminate |]. cbn [obind].
      intros [= <-]. exists vs, dim, nh.
      split; [reflexivity |]. split; [exact Hlt |]. split; [reflexivity |].
      split; [reflexivity |]. split; [exact Hz | reflexivity].
    + unfold getitem at 1 2. rewrite Hnh.
      destruct (raw !! "n_kv_heads") as [v |]; [destruct (ptruthy v) |];
        try discriminate.
      cbn [obind]. unfold getitem. rewrite !lookup_insert_ne by discriminate. rewrite Hnh.
      destruct (raw !! "dim"); discriminate.
  - intros (vs & dim & nh & Hvs & Hlt & Hdim & Hnh & Hz & ->).
    unfold getitem at 1. rewrite Hvs. cbn [obind]. rewrite Hlt.
    rewrite (n_kv_heads_default raw nh Hnh). cbn [obind].
    unfold getitem. rewrite !lookup_insert_ne by discriminate.
    rewrite Hdim, Hnh. cbn [obind]. unfold ptruediv. rewrite Hz. reflexivity.
Qed.







(** ** The tensors outside the layers *)
Section TopLevel.
Context {F : Type} {FA : FloatArith F} {FP : FloatPack F}.

Lemma dispatch_top_level (env : Env) (st : Sched) (layerName : string)
    (tensor : @Tensor F) (p base size : Z) (enc : string) (f : File) :
  top_level_region env layerName = Some (base, enc, size) ->
  dispatch env st layerName tensor p f
  = seek_export (base + p) tensor enc size p f.
Proof.
  unfold top_level_region.
  destruct (String.eqb_spec layerName "tok_embeddings.weight") as [-> | H1].
  { intros [= <- <- <-]. unfold dispatch.
    change (split_dot 2 "tok_embeddings.weight") with ["tok_embeddings"; "weight"].
    cbn [list_item nth_error]. io_ok. reflexivity. }
  destruct (String.eqb_spec layerName "norm.weight") as [-> | H2].
  { intros [= <- <- <-]. unfold dispatch.
    change (split_dot 2 "norm.weight") with ["norm"; "weight"].
    cbn [list_item nth_error]. io_ok. reflexivity. }
  destruct (String.eqb_spec layerName "output.weight") as [-> | H3];
    [| discriminate].
  intros [= <- <- <-]. unfold dispatch.
  change (split_dot 2 "output.weight") with ["output"; "weight"].
  cbn [list_item nth_error]. io_ok. reflexivity.
Qed.


(** X16.  [rope.freqs] is never written: no seek, no byte.  It is marked
    Complete when some tensor was handled before it in the run; as the
    first tensor of a run it aborts the run, since the size that line 196
    compares with was never assigned. *)
Theorem rope_freqs_is_skipped (env : Env) (st : Sched) (tensor : @Tensor F)
    (f : File) :
  (get_processed st "rope.freqs" <> -1 ->
   export_layer env st "rope.freqs" tensor f
   = match layerSize st with
     | None => (Raise UnboundLocalError, f)
     | Some size =>
         (Ok (mkSched (<["rope.freqs" := -1]> (layerProcessedBytes st))
                      (Some size)), f)
     end)
  /\ (forall rest,
        export_layers env (mkSched ∅ None) (("rope.freqs", tensor) :: rest) f
        = (Raise UnboundLocalError, f)).
Proof.
  assert (Hd : forall p, dispatch env st "rope.freqs" tensor p f
                         = (Ok (layerSize st, -1), f)).
  { intros p. unfold dispatch.
    change (split_dot 2 "rope.freqs") with ["rope"; "freqs"].
    cbn [list_item nth_error]. io_ok. reflexivity. }
  split.
  - intros Hnc. unfold export_layer.
    destruct (Z.eqb_spec (get_processed st "rope.freqs") (-1)) as [Hc | _];
      [contradiction |].
    unfold bind. rewrite Hd.
    destruct (layerSize st) as [size |]; [| reflexivity].
    destruct (-1 =? size); reflexivity.
  - intros rest. cbn [export_layers]. unfold bind at 1. unfold export_layer.
    change (get_processed (mkSched ∅ None) "rope.freqs") with 0.
    cbn [Z.eqb]. unfold bind at 1.
    assert (Hd0 : dispatch env (mkSched ∅ None) "rope.freqs" tensor 0 f
                  = (Ok (None, -1), f)).
    { unfold dispatch.
      change (split_dot 2 "rope.freqs") with ["rope"; "freqs"].
      cbn [list_item nth_error]. io_ok. reflexivity. }
    rewrite Hd0. reflexivity.
Qed.

(** X17.  The header is computed from the first shard's
    [layers.0.feed_forward.w1.weight]: when the first shard lacks that
    name, a run that would otherwise start stops with [KeyError] before a
    single byte is written, whatever the later shards hold; with no shard
    at all nothing is written, not even the header. *)
Theorem header_needs_first_ffn (raw : gmap string pynum)
    (model : list (string * @Tensor F)) (rest : list (list (string * @Tensor F)))
    (target : string) (f : File) :
  List.NoDup (dict_keys model) ->
  ~ In "layers.0.feed_forward.w1.weight" (dict_keys model) ->
  snd (convert raw [] target f) = f
  /\ convert raw (model :: rest) target f
     = match convert raw [] target f with
       | (Ok _, _) => (Raise (KeyError "layers.0.feed_forward.w1.weight"), f)
       | (Raise e, _) => (Raise e, f)
       end.
Proof.
  intros Hnd Hmiss. unfold convert.
  destruct (load_params raw) as [params |];
    [rewrite !bind_lift_Ok; cbv beta | rewrite !bind_lift_Raise; split; reflexivity].
  destruct (getitem params "vocab_size") as [vs |];
    [rewrite !bind_lift_Ok; cbv beta | rewrite !bind_lift_Raise; split; reflexivity].
  destruct (getitem params "dim") as [dim |];
    [rewrite !bind_lift_Ok; cbv beta | rewrite !bind_lift_Raise; split; reflexivity].
  destruct (getBytes (pmul vs dim) "float32") as [tok |];
    [rewrite !bind_lift_Ok; cbv beta | rewrite !bind_lift_Raise; split; reflexivity].
  destruct (getBytes dim "float32") as [rms |];
    [rewrite !bind_lift_Ok; cbv beta | rewrite !bind_lift_Raise; split; reflexivity].
  destruct (getBytes (pmul vs dim) target) as [wcls |];
    [rewrite !bind_lift_Ok; cbv beta | rewrite !bind_lift_Raise; split; reflexivity].
  split; [reflexivity |].
  cbn [convert_shards]. unfold ret.
  assert (Hmerge : toDict [model] = Ok (model, [model])).
  { unfold toDict. apply (toDict_loop_single model []). exact Hnd. }
  rewrite Hmerge, bind_lift_Ok. cbv beta. cbn [fst].
  rewrite (bind_run (write_layout params target tok rms wcls model)).
  unfold write_layout.
  rewrite (dict_get_not_in "layers.0.feed_forward.w1.weight" model Hmiss).
  rewrite bind_lift_Raise. reflexivity.
Qed.
End TopLevel.


Lemma rope_freqs_is_skipped_witness :
  let st := mkSched ∅ (Some 8) in
  get_processed st "rope.freqs" <> -1
  /\ export_layer (Demo.env "float32") st "rope.freqs" (Demo.ones [2%nat]) file_empty
     = (Ok (mkSched (<["rope.freqs" := -1]> ∅) (Some 8)), file_empty).
Proof.
  intros st.
  assert (H : get_processed st "rope.freqs" <> -1) by (vm_compute; discriminate).
  split; [exact H |].
  exact (proj1 (rope_freqs_is_skipped (Demo.env "float32") st (Demo.ones [2%nat])
                  file_empty) H).
Defined.

Lemma header_needs_first_ffn_witness :
  let model := [("norm.weight", Demo.ones [2%nat])] in
  List.NoDup (dict_keys model)
  /\ ~ In "layers.0.feed_forward.w1.weight" (dict_keys model)
  /\ convert Demo.raw [] "float32" file_empty = (Ok (mkSched ∅ None), file_empty)
  /\ convert Demo.raw [model; Demo.overshoot_shard] "float32" file_empty
     = (Raise (KeyError "layers.0.feed_forward.w1.weight"), file_empty).
Proof.
  intros model.
  assert (H1 : List.NoDup (dict_keys model)).
  { apply List.NoDup_cons; [intros [] | apply List.NoDup_nil]. }
  assert (H2 : ~ In "layers.0.feed_forward.w1.weight" (dict_keys model)).
  { intros [H | []]. discriminate H. }
  assert (H3 : convert Demo.raw [] "float32" file_empty
               = (Ok (mkSched ∅ None), file_empty)) by (vm_compute; reflexivity).
  split; [exact H1 |]. split; [exact H2 |]. split; [exact H3 |].
  rewrite (proj2 (header_needs_first_ffn Demo.raw model [Demo.overshoot_shard]
                    "float32" file_empty H1 H2)).
  rewrite H3. reflexivity.
Defined.

(** ** The command line *)

Lemma split_slash_nonempty (s : string) : exists p ps, split_slash s = p :: ps.
Proof.
  destruct s as [| c s]; cbn [split_slash]; [eauto |].
  destruct (Ascii.eqb c "/"); [eauto |].
  destruct (split_slash s); eauto.
Qed.

Lemma split_slash_plain (s : string) : ~ has_slash s -> split_slash s = [s].
Proof.
  unfold has_slash. induction s as [| c s IH]; intros Hs; [reflexivity |].
  cbn [split_slash list_ascii_of_string In] in *.
  destruct (Ascii.eqb_spec c "/") as [-> | Hc].
  - exfalso. apply Hs. left. reflexivity.
  - rewrite IH by (intros H; apply Hs; right; exact H). reflexivity.
Qed.

Lemma split_slash_two (s : string) :
  has_slash s -> exists p q ps, split_slash s = p :: q :: ps.
Proof.
  unfold has_slash. induction s as [| c s IH]; intros Hs; [destruct Hs |].
  cbn [split_slash list_ascii_of_string In] in *.
  destruct (Ascii.eqb_spec c "/") as [-> | Hc].
  - destruct (split_slash_nonempty s) as [p [ps ->]]. eauto.
  - destruct Hs as [Hs | Hs]; [congruence |].
    destruct (IH Hs) as (p & q & ps & ->). eauto.
Qed.

Lemma has_slash_dec (s : string) : {has_slash s} + {~ has_slash s}.
Proof. apply in_dec. apply ascii_dec. Qed.

(** What follows the last slash holds no slash. *)
Lemma last_component_plain (s : string) :
  ~ has_slash (List.last (split_slash s) "").
Proof.
  induction s as [| c s IH]; [intros [] |].
  cbn [split_slash].
  destruct (Ascii.eqb_spec c "/") as [-> | Hc].
  - destruct (split_slash_nonempty s) as [p [ps Hs]].
    rewrite Hs in *. exact IH.
  - destruct (has_slash_dec s) as [Hs | Hs].
    + destruct (split_slash_two s Hs) as (p & q & ps & Hsp).
      rewrite Hsp in *. exact IH.
    + rewrite (split_slash_plain s Hs). cbn [List.last].
      unfold has_slash in *. cbn [list_ascii_of_string In].
      intros [H | H]; [congruence | exact (Hs H)].
Qed.

Lemma append_cons (c : ascii) (a b : string) :
  String c a +:+ b = String c (a +:+ b).
Proof. reflexivity. Qed.

Lemma append_nil (b : string) : "" +:+ b = b.
Proof. reflexivity. Qed.

Lemma has_slash_app (a b : string) : has_slash (a +:+ b) <-> has_slash a \/ has_slash b.
Proof.
  unfold has_slash. induction a as [| c a IH].
  - rewrite append_nil. cbn [list_ascii_of_string In]. tauto.
  - rewrite append_cons. cbn [list_ascii_of_string In]. rewrite IH. tauto.
Qed.

(** The last component of [dir/name] is [name]. *)
Lemma last_component_of_path (dir name : string) :
  ~ has_slash name ->
  List.last (split_slash (dir +:+ String "/" name)) "" = name.
Proof.
  intros Hname. induction dir as [| c dir IH].
  - rewrite append_nil. cbn [split_slash].
    change (Ascii.eqb "/" "/") with true. cbv iota.
    rewrite (split_slash_plain name Hname). reflexivity.
  - rewrite append_cons. cbn [split_slash].
    assert (Hs : has_slash (dir +:+ String "/" name)).
    { apply has_slash_app. right. left. reflexivity. }
    destruct (split_slash_two _ Hs) as (p & q & ps & Hsp).
    rewrite Hsp in *. destruct (Ascii.eqb c "/"); exact IH.
Qed.

Lemma existsb_float_types (ty : string) :
  existsb (String.eqb ty) float_types = true <-> In ty float_types.
Proof.
  rewrite existsb_exists. split.
  - intros [x [Hx Heq]]. apply String.eqb_eq in Heq. subst. exact Hx.
  - intros H. exists ty. split; [exact H | apply String.eqb_refl].
Qed.

Lemma main_Convert (argv : list string) (modelPath out ty : string) :
  main argv = Convert modelPath out ty
  <-> exists script rest,
        argv = script :: modelPath :: ty :: rest
        /\ modelPath <> ""
        /\ In ty float_types
        /\ out = "dllama_" +:+ List.last (split_slash modelPath) "" +:+ "_"
                 +:+ ty +:+ "2.bin".
Proof.
  unfold main, usage. split.
  - destruct argv as [| script [| mp [| t rest]]]; try discriminate.
    cbn [length Nat.ltb Nat.leb nth].
    destruct (String.eqb_spec mp "") as [-> | Hmp]; [discriminate |].
    destruct (existsb (String.eqb t) float_types) eqn:Hty; [| discriminate].
    cbn [orb negb]. intros [= <- <- <-].
    exists script, rest. split; [reflexivity |]. split; [exact Hmp |].
    split; [apply existsb_float_types; exact Hty | reflexivity].
  - intros (script & rest & -> & Hmp & Hty & ->).
    cbn [length Nat.ltb Nat.leb nth].
    apply String.eqb_neq in Hmp. rewrite Hmp.
    apply existsb_float_types in Hty. rewrite Hty. reflexivity.
Qed.

(** X18.  The script calls [convert] exactly when it is given a model path
    that is not empty and an encoding among [float16], [float32] and [q40]
    as its first two arguments; further arguments are ignored.  In every
    other case it prints the usage and exits with status 1.  The output
    file is named [dllama_<last component of the model path>_<encoding>2.bin].
    The encoding that reaches [convert] is thus always one that [getBytes]
    knows. *)
Theorem main_calls_convert (argv : list string) :
  (forall modelPath out ty,
     main argv = Convert modelPath out ty
     <-> exists script rest,
           argv = script :: modelPath :: ty :: rest
           /\ modelPath <> ""
           /\ In ty float_types
           /\ out = "dllama_" +:+ List.last (split_slash modelPath) "" +:+ "_"
                    +:+ ty +:+ "2.bin")
  /\ (main argv = Exit 1
      <-> (length argv < 3)%nat
          \/ nth 1 argv "" = ""
          \/ ~ In (nth 2 argv "") float_types)
  /\ (forall modelPath out ty n,
        main argv = Convert modelPath out ty -> exists b, getBytes n ty = Ok b).
Proof.
  split; [intros; apply main_Convert |]. split.
  - unfold main, usage.
    destruct (Nat.ltb_spec (length argv) 3) as [Hlen | Hlen].
    { split; [intros _; left; exact Hlen | reflexivity]. }
    destruct (String.eqb_spec (nth 1 argv "") "") as [Hmp | Hmp].
    { split; [intros _; right; left; exact Hmp | reflexivity]. }
    destruct (existsb (String.eqb (nth 2 argv "")) float_types) eqn:Hty.
    + cbn [orb negb]. split; [discriminate |].
      apply existsb_float_types in Hty.
      intros [H | [H | H]]; [lia | contradiction | contradiction].
    + cbn [orb negb]. split; [| reflexivity].
      intros _. right. right. intros Hin.
      apply existsb_float_types in Hin. congruence.
  - intros modelPath out ty n Hmain.
    apply main_Convert in Hmain as (script & rest & _ & _ & Hty & _).
    apply getBytes_total. exact Hty.
Qed.

(** X19.  The output file name holds no slash, so the file is created in
    the working directory wherever the model lies.  The model name in it is
    what follows the last slash of the model path: the whole path when it
    has no slash, and nothing at all when the path ends in a slash. *)
Theorem output_file_in_working_directory (argv : list string)
    (modelPath out ty : string) :
  main argv = Convert modelPath out ty ->
  ~ has_slash out
  /\ (~ has_slash modelPath ->
      out = "dllama_" +:+ modelPath +:+ "_" +:+ ty +:+ "2.bin")
  /\ (forall dir name,
        modelPath = dir +:+ "/" +:+ name -> ~ has_slash name ->
        out = "dllama_" +:+ name +:+ "_" +:+ ty +:+ "2.bin")
  /\ (forall dir, modelPath = dir +:+ "/" -> out = "dllama__" +:+ ty +:+ "2.bin").
Proof.
  intros Hmain.
  apply main_Convert in Hmain as (script & rest & _ & _ & Hty & ->).
  split; [| split; [| split]].
  - rewrite !has_slash_app.
    intros [H | [H | [H | [H | H]]]].
    + revert H. unfold has_slash. cbn. intuition discriminate.
    + exact (last_component_plain modelPath H).
    + revert H. unfold has_slash. cbn. intuition discriminate.
    + revert H. unfold has_slash, float_types in *.
      destruct Hty as [<- | [<- | [<- | []]]]; cbn; intuition discriminate.
    + revert H. unfold has_slash. cbn. intuition discriminate.
  - intros Hplain. rewrite (split_slash_plain modelPath Hplain). reflexivity.
  - intros dir name -> Hname.
    change ("/" +:+ name) with (String "/" name).
    rewrite (last_component_of_path dir name Hname). reflexivity.
  - intros dir ->.
    change (dir +:+ "/") with (dir +:+ String "/" "").
    rewrite (last_component_of_path dir "" ltac:(intros [])). reflexivity.
Qed.

Lemma main_calls_convert_witness :
  main ["convert.py"; "models/llama-2-7b"; "q40"; "extra"]
  = Convert "models/llama-2-7b" "dllama_llama-2-7b_q402.bin" "q40"
  /\ exists script rest,
       ["convert.py"; "models/llama-2-7b"; "q40"; "extra"]
       = script :: "models/llama-2-7b" :: "q40" :: rest
       /\ "models/llama-2-7b" <> ""
       /\ In "q40" float_types
       /\ "dllama_llama-2-7b_q402.bin"
          = "dllama_" +:+ List.last (split_slash "models/llama-2-7b") "" +:+ "_"
            +:+ "q40" +:+ "2.bin".
Proof.
  assert (H : main ["convert.py"; "models/llama-2-7b"; "q40"; "extra"]
              = Convert "models/llama-2-7b" "dllama_llama-2-7b_q402.bin" "q40")
    by (vm_compute; reflexivity).
  split; [exact H |].
  exact (proj1 (proj1 (main_calls_convert
                         ["convert.py"; "models/llama-2-7b"; "q40"; "extra"])
                  _ _ _) H).
Defined.

Lemma output_file_in_working_directory_witness :
  main ["convert.py"; "/data/models/7B/"; "float16"]
  = Convert "/data/models/7B/" "dllama__float162.bin" "float16"
  /\ ~ has_slash "dllama__float162.bin".
Proof.
  assert (H : main ["convert.py"; "/data/models/7B/"; "float16"]
              = Convert "/data/models/7B/" "dllama__float162.bin" "float16")
    by (vm_compute; reflexivity).
  split; [exact H |].
  exact (proj1 (output_file_in_working_directory _ _ _ _ H)).
Defined.

(** ** The layout that a run works with *)
Section LayoutFacts.
Context {F : Type} {FA : FloatArith F} {FP : FloatPack F}.

(** X20.  When lines 151 to 157 return, the header is the only thing
    written, and the layout they hand to the scheduler is this:
    [hidden_dim] is the first dimension of the first shard's
    [layers.0.feed_forward.w1.weight], replacing any entry of the file;
    [headerOffset] is 28; the block table is that of [getBlockOffsets] for
    the completed hyperparameters; [n_layers] is an integer [L] and the
    blocks end at [28 + tokenEmbeddingBytes + _total * L]. *)
Theorem write_layout_env (params : gmap string pynum) (target : string)
    (tok rms wcls : Z) (modelDict : list (string * @Tensor F)) (f f' : File)
    (params' : gmap string pynum) (env : Env) :
  write_layout params target tok rms wcls modelDict f = (Ok (params', env), f') ->
  exists w1 h L total header,
    dict_get "layers.0.feed_forward.w1.weight" modelDict = Ok w1
    /\ nth_error (shape w1) 0 = Some h
    /\ params' = <["hidden_dim" := PInt (Z.of_nat h)]> params
    /\ params' !! "n_layers" = Some (PInt L)
    /\ f' = file_write header f
    /\ length header = 28%nat
    /\ targetFloatType env = target
    /\ tokenEmbeddingBytes env = tok
    /\ rmsFinalBytes env = rms
    /\ wclsBytes env = wcls
    /\ headerOffset env = 28
    /\ getBlockOffsets params' target = Ok (blockOffsets env)
    /\ dict_get "_total" (blockOffsets env) = Ok total
    /\ afterBlocksOffset env = 28 + tok + total * L.
Proof.
  intros Hw. unfold write_layout in Hw.
  destruct (dict_get _ modelDict) as [w1 |] eqn:Ew1;
    [| rewrite bind_lift_Raise in Hw; discriminate].
  rewrite bind_lift_Ok in Hw; cbv beta in Hw.
  unfold list_item in Hw.
  destruct (nth_error (shape w1) 0) as [h |] eqn:Eh;
    [| rewrite bind_lift_Raise in Hw; discriminate].
  rewrite bind_lift_Ok in Hw; cbv beta in Hw.
  rewrite (bind_run (writeHeader _)) in Hw.
  destruct (writeHeader _ f) as [[n |] f1] eqn:Ehd; [| discriminate].
  pose proof Ehd as Ehd'. unfold writeHeader in Ehd'.
  destruct (mapM (getitem _) header_keys) as [vals |] eqn:Ev;
    [| rewrite bind_lift_Raise in Ehd'; discriminate].
  rewrite bind_lift_Ok in Ehd'. cbv beta in Ehd'.
  destruct (mapM pack_i_num vals) as [fields |] eqn:Ef;
    [| rewrite bind_lift_Raise in Ehd'; discriminate].
  rewrite bind_lift_Ok in Ehd'. cbv beta in Ehd'.
  unfold bind, write, ret in Ehd'. injection Ehd' as <- <-.
  destruct (packed_fields _ header_keys vals fields Ev Ef) as [Hlen [_ Hfields]].
  destruct (Hfields 2%nat "n_layers" eq_refl) as [L [HL _]].
  rewrite Hlen in Hw. change (Z.of_nat (4 * length header_keys)) with 28 in Hw.
  destruct (getBlockOffsets _ target) as [bo |] eqn:Ebo;
    [| rewrite bind_lift_Raise in Hw; discriminate].
  rewrite bind_lift_Ok in Hw; cbv beta in Hw.
  destruct (dict_get "_total" bo) as [total |] eqn:Etot;
    [| rewrite bind_lift_Raise in Hw; discriminate].
  rewrite bind_lift_Ok in Hw; cbv beta in Hw.
  unfold getitem at 1 in Hw. rewrite HL in Hw.
  rewrite bind_lift_Ok in Hw; cbv beta in Hw.
  destruct (getitem _ "max_seq_len") as [msl |];
    [| rewrite bind_lift_Raise in Hw; discriminate].
  rewrite bind_lift_Ok in Hw; cbv beta in Hw.
  destruct (getitem _ "head_size") as [hs |];
    [| rewrite bind_lift_Raise in Hw; discriminate].
  rewrite bind_lift_Ok in Hw; cbv beta in Hw.
  destruct (ptruediv (pmul msl hs) (PInt 2)) as [half |];
    [| rewrite bind_lift_Raise in Hw; discriminate].
  rewrite bind_lift_Ok in Hw; cbv beta in Hw.
  destruct (getBytes half "float32") as [rope |];
    [| rewrite bind_lift_Raise in Hw; discriminate].
  rewrite bind_lift_Ok in Hw; cbv beta in Hw.
  unfold ret in Hw. injection Hw as <- <- <-.
  exists w1, h, L, total, (concat fields).
  cbn [targetFloatType tokenEmbeddingBytes rmsFinalBytes wclsBytes headerOffset
       blockOffsets afterBlocksOffset padd pmul pint].
  split; [reflexivity |]. split; [exact Eh |]. split; [reflexivity |].
  split; [exact HL |]. split; [reflexivity |]. split; [exact Hlen |].
  split; [reflexivity |]. split; [reflexivity |]. split; [reflexivity |].
  split; [reflexivity |]. split; [reflexivity |]. split; [exact Ebo |].
  split; [exact Etot | reflexivity].
Qed.

Lemma concat_fixed_nth {A B} (w : nat) (p : A -> list B) (d : list A) (a0 : A) :
  (forall a, length (p a) = w) ->
  forall k, (k < length d)%nat ->
    firstn w (skipn (w * k) (concat (map p d))) = p (nth k d a0).
Proof.
  intros Hw. induction d as [| a d IH]; intros k Hk; [cbn in Hk; lia |].
  cbn [map concat]. destruct k as [| k].
  - rewrite Nat.mul_0_r. change (skipn 0 (p a ++ concat (map p d)))
      with (p a ++ concat (map p d)).
    rewrite firstn_app, Hw, Nat.sub_diag.
    change (firstn 0 (concat (map p d))) with (@nil B).
    rewrite app_nil_r. apply firstn_all2. rewrite Hw. lia.
  - rewrite skipn_app, Hw. rewrite (skipn_all2 (p a)) by (rewrite Hw; nia).
    cbn [app nth]. replace (w * S k - w)%nat with (w * k)%nat by nia.
    apply IH. cbn [length] in Hk. lia.
Qed.

(** X21.  An export as float32 or float16 is one write, at the current
    position, of the elements in their order: element [k] of the flattened
    tensor occupies bytes [4k .. 4k+3] (float32) or [2k .. 2k+1] (float16)
    of the buffer, and the return value is the buffer's length. *)
Theorem exportTensor_element_layout (tensor : @Tensor F) (f : File) :
  (exists b,
     exportTensor tensor "float32" f
     = (Ok (4 * Z.of_nat (length (data tensor))), file_write b f)
     /\ length b = (4 * length (data tensor))%nat
     /\ forall k, (k < length (data tensor))%nat ->
          firstn 4 (skipn (4 * k) b) = pack_f (nth k (data tensor) f_zero))
  /\ (exists b,
        exportTensor tensor "float16" f
        = (Ok (2 * Z.of_nat (length (data tensor))), file_write b f)
        /\ length b = (2 * length (data tensor))%nat
        /\ forall k, (k < length (data tensor))%nat ->
             firstn 2 (skipn (2 * k) b) = pack_e (nth k (data tensor) f_zero)).
Proof.
  split.
  - exists (concat (map pack_f (data tensor))).
    split; [| split].
    + unfold exportTensor, bind, write, ret. cbn [String.eqb Ascii.eqb Bool.eqb].
      rewrite (concat_fixed_length 4 pack_f) by apply pack_f_length.
      f_equal. f_equal. lia.
    + apply (concat_fixed_length 4 pack_f). apply pack_f_length.
    + apply (concat_fixed_nth 4 pack_f). apply pack_f_length.
  - exists (concat (map pack_e (data tensor))).
    split; [| split].
    + unfold exportTensor, bind, write, ret. cbn [String.eqb Ascii.eqb Bool.eqb].
      rewrite (concat_fixed_length 2 pack_e) by apply pack_e_length.
      f_equal. f_equal. lia.
    + apply (concat_fixed_length 2 pack_e). apply pack_e_length.
    + apply (concat_fixed_nth 2 pack_e). apply pack_e_length.
Qed.
End LayoutFacts.

Lemma write_layout_env_witness :
  let params :=
    <["max_seq_len" := PInt 2048]>
      (<["head_size" := PFloat 2]> (<["n_kv_heads" := PInt 1]> Demo.raw)) in
  let r := write_layout params "float32" 16 8 16 Demo.overshoot_shard file_empty in
  r = (Ok (<["hidden_dim" := PInt 3]> params, Demo.env "float32"), snd r)
  /\ exists total,
       dict_get "_total" (blockOffsets (Demo.env "float32")) = Ok total
       /\ afterBlocksOffset (Demo.env "float32") = 28 + 16 + total * 1.
Proof.
  intros params r.
  assert (H : r = (Ok (<["hidden_dim" := PInt 3]> params, Demo.env "float32"), snd r))
    by (vm_compute; reflexivity).
  split; [exact H |].
  destruct (write_layout_env params "float32" 16 8 16 Demo.overshoot_shard
              file_empty (snd r) _ _ H)
    as (w1 & h & L & total & header & _ & _ & _ & HL & _ & _ & _ & _ & _ & _ & _
        & _ & Htot & Hafter).
  exists total. split; [exact Htot |].
  rewrite Hafter. f_equal. f_equal.
  assert (HL' : (<["hidden_dim" := PInt 3]> params) !! "n_layers" = Some (PInt 1))
    by (vm_compute; reflexivity).
  congruence.
Defined.
